(** * Plugin runtime: registry, loader, lifecycle, hooks, settings, IPC, orchestrator

    A shallow embedding of the JavaScript sources
    (PluginRegistry.js, PluginLoader, LifecycleManager.js, HookSystem,
    SettingsStore.js, IPCManager, content.js) and the properties proved
    about them.

    Conventions of the embedding.
    - A JavaScript value that may be [undefined] is an [option]; [None] is
      [undefined].  Numbers are integers ([Z]); fractions and NaN are not
      represented.
    - A thrown exception does not undo earlier mutations, so a computation
      maps a state to a completion (normal or thrown) and the state reached.
    - An [async] function is run to completion in one piece; what other tasks
      do at its [await] points is not represented.
    - [Map]s whose iteration order is read by the code are association lists
      in insertion order; the others are [gmap]s.
    - Code supplied by modules (hook handlers, lifecycle methods) is data:
      a handler is a function of the context it is given, a lifecycle method
      is the list of hook registrations it performs and how it completes. *)

From Stdlib Require Import ZArith String List Lia Bool Relations.
From stdpp Require Import gmap strings list.

Set Warnings "-register-all,-clear-no-such-hyp".

Local Open Scope string_scope.
Local Open Scope list_scope.
Local Open Scope Z_scope.

(** ** JavaScript values, exceptions, completions *)

Inductive value :=
| VNull
| VBool (b : bool)
| VNum (n : Z)
| VStr (s : string)
| VArr (items : list value)
| VObj (fields : list (string * value)).

(** [new Error(message)] *)
Record exn := Error { message : string }.

Inductive completion (A : Type) :=
| Normal (a : A)
| Throw (e : exn).
Arguments Normal {A} a.
Arguments Throw {A} e.

(** [Array.prototype.join] on an array of strings *)
Fixpoint join (sep : string) (l : list string) : string :=
  match l with
  | [] => ""
  | x :: rest =>
      match rest with
      | [] => x
      | _ :: _ => x +:+ sep +:+ join sep rest
      end
  end.

(** [Array.prototype.includes] on an array of strings *)
Definition includes (l : list string) (x : string) : bool :=
  existsb (String.eqb x) l.

(** ** State-and-exception computations *)

Definition M (S A : Type) : Type := S -> completion A * S.

Definition ret {S A} (a : A) : M S A := fun s => (Normal a, s).
Definition throw {S A} (e : exn) : M S A := fun s => (Throw e, s).
Definition bind {S A B} (m : M S A) (k : A -> M S B) : M S B :=
  fun s => match m s with
           | (Normal a, s') => k a s'
           | (Throw e, s') => (Throw e, s')
           end.
(** [try { m } catch (error) { h error }] *)
Definition try_catch {S A} (m : M S A) (h : exn -> M S A) : M S A :=
  fun s => match m s with
           | (Normal a, s') => (Normal a, s')
           | (Throw e, s') => h e s'
           end.
(** [try { m } finally { f }] *)
Definition try_finally {S A} (m : M S A) (f : M S unit) : M S A :=
  fun s => match m s with
           | (r, s') =>
               match f s' with
               | (Normal _, s'') => (r, s'')
               | (Throw e, s'') => (Throw e, s'')
               end
           end.
Definition gets {S A} (f : S -> A) : M S A := fun s => (Normal (f s), s).
Definition modify {S} (f : S -> S) : M S unit := fun s => (Normal tt, f s).

Declare Scope js_scope.
Delimit Scope js_scope with js.
Notation "x <- m ;; k" := (bind m (fun x => k))
  (at level 100, m at next level, right associativity) : js_scope.
Notation "m ;;; k" := (bind m (fun _ => k))
  (at level 100, right associativity) : js_scope.

(** [for (const x of l) { body x }] *)
Fixpoint for_of {S A} (l : list A) (body : A -> M S unit) : M S unit :=
  match l with
  | [] => ret tt
  | x :: rest => bind (body x) (fun _ => for_of rest body)
  end.

(** ** Insertion-ordered [Map] with string keys *)

Module JsMap.
Definition t (V : Type) := list (string * V).

Fixpoint get {V} (m : t V) (k : string) : option V :=
  match m with
  | [] => None
  | (k', v) :: rest => if String.eqb k' k then Some v else get rest k
  end.

Definition has {V} (m : t V) (k : string) : bool :=
  match get m k with Some _ => true | None => false end.

(** [Map.prototype.set]: an existing key keeps its position *)
Fixpoint set {V} (m : t V) (k : string) (v : V) : t V :=
  match m with
  | [] => [(k, v)]
  | (k', v') :: rest =>
      if String.eqb k' k then (k', v) :: rest else (k', v') :: set rest k v
  end.

Definition keys {V} (m : t V) : list string := map fst m.
End JsMap.

(** ** What modules supply *)

(** The context object a handler receives is shared by the handlers of one
    priority group: a handler sees [context.data] as the previous one left it.
    [out_data] is [context.data] after the handler ran, [out_cancel] whether
    it called [context.cancel()], [out_result] what it returned or threw. *)
Record HandlerOut := {
  out_data : value;
  out_cancel : bool;
  out_result : completion (option value)
}.
Definition Handler := value -> HandlerOut.

(** A handler that returns [f context.data] and leaves the context alone *)
Definition returning (f : value -> option value) : Handler :=
  fun d => {| out_data := d; out_cancel := false; out_result := Normal (f d) |}.

(** A setting definition of a schema *)
Record SettingDef := {
  sd_type : option string;
  sd_default : option value;
  sd_enum : option (list value);
  sd_min : option Z;
  sd_max : option Z;
  sd_validator : option (value -> bool)
}.
Abbreviation Schema := (gmap string SettingDef).

(** [api.hooks.register(hookName, handler, options)] called by module code *)
Record ApiRegister := {
  ar_hook : string;
  ar_handler : Handler;
  ar_priority : option Z;
  ar_once : option bool
}.

(** A lifecycle method ([init], [start], [stop], [destroy]): the hook
    registrations it performs through its [api], then how it completes. *)
Record LifecycleFn := {
  lf_registers : list ApiRegister;
  lf_outcome : completion unit
}.

(** The default export of a module: manifest and instance are one object. *)
Record Manifest := {
  m_id : string;
  m_dependencies : option (list string);
  m_optionalDependencies : option (list string);
  m_conflicts : option (list string);
  m_settings : option Schema;
  m_hooks : option (list (string * Handler));
  m_init : option LifecycleFn;
  m_start : option LifecycleFn;
  m_stop : option LifecycleFn;
  m_destroy : option LifecycleFn
}.

(** ** PluginRegistry.js *)

Module PluginRegistry.

Inductive State :=
| UNLOADED | LOADING | LOADED | STARTING | ACTIVE
| STOPPING | STOPPED | ERROR | DESTROYED.

Definition State_eqb (a b : State) : bool :=
  match a, b with
  | UNLOADED, UNLOADED | LOADING, LOADING | LOADED, LOADED
  | STARTING, STARTING | ACTIVE, ACTIVE | STOPPING, STOPPING
  | STOPPED, STOPPED | ERROR, ERROR | DESTROYED, DESTROYED => true
  | _, _ => false
  end.

Definition State_name (s : State) : string :=
  match s with
  | UNLOADED => "UNLOADED" | LOADING => "LOADING" | LOADED => "LOADED"
  | STARTING => "STARTING" | ACTIVE => "ACTIVE" | STOPPING => "STOPPING"
  | STOPPED => "STOPPED" | ERROR => "ERROR" | DESTROYED => "DESTROYED"
  end.

Record Metadata := {
  registeredAt : Z;
  loadTime : option Z;
  lastError : option (string * Z)
}.

(** [now] is what [Date.now()] reads. *)
Record t := {
  manifests : gmap string Manifest;
  instances : gmap string Manifest;
  states : gmap string State;
  errors : gmap string exn;
  metadata : gmap string Metadata;
  dependencies : gmap string (list string);
  dependents : gmap string (list string);
  now : Z
}.

Definition empty (clock : Z) : t :=
  {| manifests := ∅; instances := ∅; states := ∅; errors := ∅;
     metadata := ∅; dependencies := ∅; dependents := ∅; now := clock |}.

Definition _buildDependencies (manifest : Manifest) (r : t) : t :=
  let id := m_id manifest in
  let allDeps := (default [] (m_dependencies manifest)
                  ++ default [] (m_optionalDependencies manifest))%list in
  let dependents' :=
    fold_left (fun ds depId => <[depId := (default [] (ds !! depId) ++ [id])%list]> ds)
              allDeps (dependents r) in
  {| manifests := manifests r; instances := instances r; states := states r;
     errors := errors r; metadata := metadata r;
     dependencies := <[id := allDeps]> (dependencies r);
     dependents := dependents'; now := now r |}.

(** [register(manifest)].  The warning written to the console when the id
    is taken is not represented. *)
Definition register (manifest : Manifest) : M t unit :=
  fun r =>
    let id := m_id manifest in
    if String.eqb id "" then
      (Throw (Error "Plugin manifest must have an id"), r)
    else if bool_decide (is_Some (manifests r !! id)) then
      (Normal tt, r)
    else
      let r1 :=
        {| manifests := <[id := manifest]> (manifests r);
           instances := instances r;
           states := <[id := UNLOADED]> (states r);
           errors := errors r; metadata := metadata r;
           dependencies := dependencies r; dependents := dependents r;
           now := now r |} in
      let r2 := _buildDependencies manifest r1 in
      (Normal tt,
       {| manifests := manifests r2; instances := instances r2;
          states := states r2; errors := errors r2;
          metadata := <[id := {| registeredAt := now r2; loadTime := None;
                                 lastError := None |}]> (metadata r2);
          dependencies := dependencies r2; dependents := dependents r2;
          now := now r2 |}).

Definition getManifest (r : t) (pluginId : string) : option Manifest :=
  manifests r !! pluginId.

Definition getInstance (r : t) (pluginId : string) : option Manifest :=
  instances r !! pluginId.

Definition setInstance (pluginId : string) (instance : Manifest) (r : t) : t :=
  {| manifests := manifests r;
     instances := <[pluginId := instance]> (instances r);
     states := states r; errors := errors r; metadata := metadata r;
     dependencies := dependencies r; dependents := dependents r;
     now := now r |}.

Definition getState (r : t) (pluginId : string) : State :=
  default UNLOADED (states r !! pluginId).

(** [!meta.loadTime] holds for [null] and for [0]. *)
Definition loadTime_unset (m : Metadata) : bool :=
  match loadTime m with
  | None => true
  | Some z => Z.eqb z 0
  end.

Definition setState (pluginId : string) (state : State) (r : t) : t :=
  let metadata' :=
    match metadata r !! pluginId with
    | Some meta =>
        if State_eqb state ACTIVE && loadTime_unset meta then
          <[pluginId := {| registeredAt := registeredAt meta;
                           loadTime := Some (now r - registeredAt meta);
                           lastError := lastError meta |}]> (metadata r)
        else metadata r
    | None => metadata r
    end in
  {| manifests := manifests r; instances := instances r;
     states := <[pluginId := state]> (states r);
     errors := errors r; metadata := metadata';
     dependencies := dependencies r; dependents := dependents r;
     now := now r |}.

Definition getError (r : t) (pluginId : string) : option exn :=
  errors r !! pluginId.

Definition setError (pluginId : string) (error : exn) (r : t) : t :=
  let r1 :=
    {| manifests := manifests r; instances := instances r;
       states := states r;
       errors := <[pluginId := error]> (errors r);
       metadata := metadata r;
       dependencies := dependencies r; dependents := dependents r;
       now := now r |} in
  let r2 := setState pluginId ERROR r1 in
  let metadata' :=
    match metadata r2 !! pluginId with
    | Some meta =>
        <[pluginId := {| registeredAt := registeredAt meta;
                         loadTime := loadTime meta;
                         lastError := Some (message error, now r2) |}]>
          (metadata r2)
    | None => metadata r2
    end in
  {| manifests := manifests r2; instances := instances r2;
     states := states r2; errors := errors r2; metadata := metadata';
     dependencies := dependencies r2; dependents := dependents r2;
     now := now r2 |}.

Definition clearError (pluginId : string) (r : t) : t :=
  {| manifests := manifests r; instances := instances r;
     states := states r;
     errors := delete pluginId (errors r);
     metadata := metadata r;
     dependencies := dependencies r; dependents := dependents r;
     now := now r |}.

Definition getDependencies (r : t) (pluginId : string) : list string :=
  default [] (dependencies r !! pluginId).

Definition getDependents (r : t) (pluginId : string) : list string :=
  default [] (dependents r !! pluginId).

(** [checkDependencies(pluginId)]: [(met, missing)] *)
Definition checkDependencies (r : t) (pluginId : string)
  : bool * list string :=
  match getManifest r pluginId with
  | None => (false, [])
  | Some manifest =>
      let required := default [] (m_dependencies manifest) in
      let missing :=
        List.filter (fun depId => negb (State_eqb (getState r depId) ACTIVE))
               required in
      (match missing with [] => true | _ => false end, missing)
  end.

(** [checkConflicts(pluginId)]: [(conflicts, conflicting)].  A module id is
    in [getActivePlugins()] when its entry of [states] is ACTIVE. *)
Definition checkConflicts (r : t) (pluginId : string)
  : bool * list string :=
  match getManifest r pluginId with
  | None => (false, [])
  | Some manifest =>
      match m_conflicts manifest with
      | None => (false, [])
      | Some cs =>
          let conflicting :=
            List.filter (fun id =>
                      match states r !! id with
                      | Some s => State_eqb s ACTIVE
                      | None => false
                      end) cs in
          (match conflicting with [] => false | _ => true end, conflicting)
      end
  end.

(** [dependentsList.splice(dependentsList.indexOf(pluginId), 1)], when
    the index is not -1 *)
Fixpoint remove_id (pluginId : string) (l : list string) : list string :=
  match l with
  | [] => []
  | x :: rest =>
      if String.eqb x pluginId then rest else x :: remove_id pluginId rest
  end.

(** [unregister(pluginId)] *)
Definition unregister (pluginId : string) (r : t) : t :=
  let deps := default [] (dependencies r !! pluginId) in
  let dependents' :=
    fold_left
      (fun ds depId =>
         match ds !! depId with
         | Some dependentsList =>
             <[depId := remove_id pluginId dependentsList]> ds
         | None => ds
         end)
      deps (dependents r) in
  {| manifests := delete pluginId (manifests r);
     instances := delete pluginId (instances r);
     states := delete pluginId (states r);
     errors := delete pluginId (errors r);
     metadata := delete pluginId (metadata r);
     dependencies := delete pluginId (dependencies r);
     dependents := delete pluginId dependents';
     now := now r |}.

End PluginRegistry.

(** ** PluginLoader: load-order resolution *)

Module PluginLoader.
Import PluginRegistry.

(** The two maps of [resolveLoadOrder]: [graph] (dependency -> dependents)
    and [inDegree]. *)
Definition Graph : Type := JsMap.t (list string) * JsMap.t Z.

(** [pluginIds.forEach(id => { graph.set(id, []); inDegree.set(id, 0); })] *)
Definition init_graph (pluginIds : list string) : Graph :=
  fold_left (fun (gi : Graph) id =>
               (JsMap.set (fst gi) id [], JsMap.set (snd gi) id 0))
            pluginIds ([], []).

(** The body run for a dependency [depId] of [id] that is among the ids:
    [graph.get(depId).push(id); inDegree.set(id, (inDegree.get(id) || 0) + 1)] *)
Definition add_edge (id depId : string) (gi : Graph) : Graph :=
  let graph1 :=
    if JsMap.has (fst gi) depId then fst gi else JsMap.set (fst gi) depId [] in
  let graph2 :=
    JsMap.set graph1 depId (default [] (JsMap.get graph1 depId) ++ [id])%list in
  (graph2, JsMap.set (snd gi) id (default 0 (JsMap.get (snd gi) id) + 1)).

Definition build_edges (r : PluginRegistry.t) (pluginIds : list string)
           (gi : Graph) : Graph :=
  fold_left
    (fun gi id =>
       fold_left (fun gi depId =>
                    if includes pluginIds depId then add_edge id depId gi
                    else gi)
                 (getDependencies r id) gi)
    pluginIds gi.

(** [inDegree.forEach((degree, id) => { if (degree === 0) queue.push(id) })] *)
Definition initial_queue (inDegree : JsMap.t Z) : list string :=
  map fst (List.filter (fun e : string * Z => Z.eqb (snd e) 0) inDegree).

(** The body of [neighbors.forEach]; on the state [(inDegree, queue)].
    Every neighbor is a key of [inDegree] (lemma [neighbors_have_degree]),
    so the last case is not reached. *)
Definition relax (st : JsMap.t Z * list string) (neighbor : string)
  : JsMap.t Z * list string :=
  match JsMap.get (fst st) neighbor with
  | Some d =>
      let inDegree' := JsMap.set (fst st) neighbor (d - 1) in
      if Z.eqb (d - 1) 0 then (inDegree', (snd st ++ [neighbor])%list)
      else (inDegree', snd st)
  | None => st
  end.

(** [while (queue.length > 0) { ... }]; [None] when [fuel] iterations did
    not empty the queue. *)
Fixpoint kahn (fuel : nat) (graph : JsMap.t (list string))
         (inDegree : JsMap.t Z) (queue result : list string)
  : option (list string) :=
  match queue with
  | [] => Some result
  | current :: rest =>
      match fuel with
      | O => None
      | S fuel' =>
          let neighbors := default [] (JsMap.get graph current) in
          let st := fold_left relax neighbors (inDegree, rest) in
          kahn fuel' graph (fst st) (snd st) (result ++ [current])%list
      end
  end.

(** The array [result] when the loop of [resolveLoadOrder] ends. *)
Definition kahn_result (r : PluginRegistry.t) (pluginIds : list string)
  : option (list string) :=
  let gi := build_edges r pluginIds (init_graph pluginIds) in
  kahn (length pluginIds) (fst gi) (snd gi) (initial_queue (snd gi)) [].

Definition circular_message (missing : list string) : string :=
  "Circular dependency detected in plugins: " +:+ join ", " missing.

(** [pluginIds.filter(id => !result.includes(id))] *)
Definition unresolved (result pluginIds : list string) : list string :=
  List.filter (fun id => negb (includes result id)) pluginIds.

(** [resolveLoadOrder(pluginIds)]; [None] only if the loop did not end. *)
Definition resolveLoadOrder (r : PluginRegistry.t) (pluginIds : list string)
  : option (completion (list string)) :=
  match kahn_result r pluginIds with
  | None => None
  | Some result =>
      if negb (Nat.eqb (length result) (length pluginIds)) then
        Some (Throw (Error (circular_message (unresolved result pluginIds))))
      else Some (Normal result)
  end.

(** An entry of [pluginModules] *)
Record ModuleInfo := {
  mi_path : string;
  mi_loaded : bool
}.

(** The loader's own state *)
Record t := {
  pluginModules : gmap string ModuleInfo;
  loadedPaths : gset string
}.

(** [`/${path}/index.js`] *)
Definition modulePath (path : string) : string :=
  "/" +:+ path +:+ "/index.js".

(** What [await import(modulePath)] gives: the default export of the
    module (if it has one), or the error the import is rejected with. *)
Definition Imports : Type := string -> completion (option Manifest).

(** [this.registry.setInstance(pluginId, manifest)]; an instance that is
    [undefined] reads back as none. *)
Definition store_instance (pluginId : string) (manifest : option Manifest)
           (r : PluginRegistry.t) : PluginRegistry.t :=
  match manifest with
  | Some m => setInstance pluginId m r
  | None =>
      {| manifests := manifests r;
         instances := delete pluginId (instances r);
         states := states r; errors := errors r; metadata := metadata r;
         dependencies := dependencies r; dependents := dependents r;
         now := now r |}
  end.

(** [loadPlugin(pluginId)], on the loader and the registry *)
Definition loadPlugin (imports : Imports) (pluginId : string)
  : M (t * PluginRegistry.t) (option Manifest) :=
  fun lr =>
    let '(l, r) := lr in
    match pluginModules l !! pluginId with
    | None =>
        (Throw (Error ("Plugin " +:+ pluginId
                       +:+ " not found in discovered plugins")), lr)
    | Some pluginInfo =>
        if mi_loaded pluginInfo then (Normal (getInstance r pluginId), lr)
        else
          let fail (error : exn) (r0 : PluginRegistry.t) :=
            (Throw error, (l, setError pluginId error r0)) in
          let depCheck := checkDependencies r pluginId in
          if negb (fst depCheck) then
            fail (Error ("Missing required dependencies: "
                         +:+ join ", " (snd depCheck))) r
          else
            let conflictCheck := checkConflicts r pluginId in
            if fst conflictCheck then
              fail (Error ("Conflicts with active plugins: "
                           +:+ join ", " (snd conflictCheck))) r
            else
              let r1 := setState pluginId LOADING r in
              let path := modulePath (mi_path pluginInfo) in
              match imports path with
              | Throw error => fail error r1
              | Normal manifest =>
                  let r2 := store_instance pluginId manifest r1 in
                  let l' :=
                    {| pluginModules :=
                         <[pluginId := {| mi_path := mi_path pluginInfo;
                                          mi_loaded := true |}]>
                           (pluginModules l);
                       loadedPaths := {[path]} ∪ loadedPaths l |} in
                  (Normal manifest, (l', setState pluginId LOADED r2))
              end
    end.

(** The loop of [loadPlugins] over the load order *)
Fixpoint load_each (imports : Imports) (loadOrder : list string)
         (loaded : list (option Manifest)) (lr : t * PluginRegistry.t)
  : list (option Manifest) * (t * PluginRegistry.t) :=
  match loadOrder with
  | [] => (loaded, lr)
  | pluginId :: rest =>
      match loadPlugin imports pluginId lr with
      | (Normal instance, lr') =>
          load_each imports rest (loaded ++ [instance])%list lr'
      | (Throw _, lr') => load_each imports rest loaded lr'
      end
  end.

(** [loadPlugins(pluginIds)]; [None] only if the loop of
    [resolveLoadOrder] did not end. *)
Definition loadPlugins (imports : Imports) (pluginIds : list string)
           (lr : t * PluginRegistry.t)
  : option (completion (list (option Manifest)) * (t * PluginRegistry.t)) :=
  match resolveLoadOrder (snd lr) pluginIds with
  | None => None
  | Some (Throw e) => Some (Throw e, lr)
  | Some (Normal loadOrder) =>
      let '(loaded, lr') := load_each imports loadOrder [] lr in
      Some (Normal loaded, lr')
  end.

(** [isLoaded(pluginId)] *)
Definition isLoaded (l : t) (pluginId : string) : bool :=
  match pluginModules l !! pluginId with
  | Some info => mi_loaded info
  | None => false
  end.

End PluginLoader.

(** ** HookSystem *)

Module HookSystem.

(** A handler entry; [e_id] stands for the [Symbol('handler')] of the entry. *)
Record Entry := {
  e_handler : Handler;
  e_priority : Z;
  e_once : bool;
  e_plugin : option string;
  e_id : nat
}.

(** [hooks]: hook name -> handler entries; [pluginHooks]: plugin id ->
    tracked [{hookName, id}] pairs; [nextSymbol]: the next fresh symbol. *)
Record t := {
  hooks : gmap string (list Entry);
  pluginHooks : gmap string (list (string * nat));
  nextSymbol : nat
}.

Definition empty : t := {| hooks := ∅; pluginHooks := ∅; nextSymbol := O |}.

Record Options := {
  o_priority : option Z;
  o_once : option bool;
  o_plugin : option string
}.

(** [handlers.sort((a, b) => a.priority - b.priority)]: a stable sort. *)
Fixpoint insert_sorted (e : Entry) (l : list Entry) : list Entry :=
  match l with
  | [] => [e]
  | x :: rest =>
      if Z.leb (e_priority e) (e_priority x) then e :: l
      else x :: insert_sorted e rest
  end.
Definition sort_by_priority (l : list Entry) : list Entry :=
  fold_right insert_sorted [] l.

(** [if (plugin)]: a plugin id that is [null] or the empty string is not
    tracked. *)
Definition tracked_plugin (plugin : option string) : option string :=
  match plugin with
  | Some p => if String.eqb p "" then None else Some p
  | None => None
  end.

(** [register(hookName, handler, options)]; returns the id of the new
    entry, which is what the returned unregister function closes over. *)
Definition register (hookName : string) (handler : Handler)
           (options : Options) (h : t) : nat * t :=
  let entry := {| e_handler := handler;
                  e_priority := default 50 (o_priority options);
                  e_once := default false (o_once options);
                  e_plugin := o_plugin options;
                  e_id := nextSymbol h |} in
  let handlers := default [] (hooks h !! hookName) in
  let hooks' :=
    <[hookName := sort_by_priority (handlers ++ [entry])%list]> (hooks h) in
  let pluginHooks' :=
    match tracked_plugin (o_plugin options) with
    | Some p =>
        <[p := (default [] (pluginHooks h !! p) ++ [(hookName, e_id entry)])%list]>
          (pluginHooks h)
    | None => pluginHooks h
    end in
  (e_id entry,
   {| hooks := hooks'; pluginHooks := pluginHooks';
      nextSymbol := S (nextSymbol h) |}).

(** [l.splice(l.findIndex(p), 1)] when the index is not -1 *)
Fixpoint remove_first {A} (p : A -> bool) (l : list A) : list A :=
  match l with
  | [] => []
  | x :: rest => if p x then rest else x :: remove_first p rest
  end.

Definition tracks (hookName : string) (handlerId : nat)
           (h : string * nat) : bool :=
  String.eqb (fst h) hookName && Nat.eqb (snd h) handlerId.

(** [_unregister(hookName, handlerId)] *)
Definition _unregister (hookName : string) (handlerId : nat) (h : t) : t :=
  match hooks h !! hookName with
  | None => h
  | Some handlers =>
      let is_it := fun e => Nat.eqb (e_id e) handlerId in
      let handlers' := remove_first is_it handlers in
      let pluginHooks' :=
        match List.find is_it handlers with
        | Some removed =>
            match tracked_plugin (e_plugin removed) with
            | Some p =>
                match pluginHooks h !! p with
                | Some pluginHookList =>
                    <[p := remove_first (tracks hookName handlerId)
                                        pluginHookList]> (pluginHooks h)
                | None => pluginHooks h
                end
            | None => pluginHooks h
            end
        | None => pluginHooks h
        end in
      let hooks' :=
        match handlers' with
        | [] => delete hookName (hooks h)
        | _ :: _ => <[hookName := handlers']> (hooks h)
        end in
      {| hooks := hooks'; pluginHooks := pluginHooks';
         nextSymbol := nextSymbol h |}
  end.

(** [pluginHookList.forEach(({hookName, id}) => this._unregister(hookName, id))]
    where [pluginHookList] is the array stored in [pluginHooks], the one
    [_unregister] splices: [forEach] visits the indices [k, k+1, ..] below
    the length the array had at the start and, at each, the element the
    array holds at that index by then. *)
Fixpoint forEach_tracked (pluginId : string) (k count : nat) (h : t) : t :=
  match count with
  | O => h
  | S count' =>
      let h' :=
        match pluginHooks h !! pluginId with
        | Some pluginHookList =>
            match pluginHookList !! k with
            | Some (hookName, id) => _unregister hookName id h
            | None => h
            end
        | None => h
        end in
      forEach_tracked pluginId (S k) count' h'
  end.

(** [unregisterPlugin(pluginId)] *)
Definition unregisterPlugin (pluginId : string) (h : t) : t :=
  match pluginHooks h !! pluginId with
  | None => h
  | Some pluginHookList =>
      let h' := forEach_tracked pluginId O (length pluginHookList) h in
      {| hooks := hooks h';
         pluginHooks := delete pluginId (pluginHooks h');
         nextSymbol := nextSymbol h' |}
  end.

Definition getPluginHooks (h : t) (pluginId : string) : list (string * nat) :=
  default [] (pluginHooks h !! pluginId).

Definition getHandlerCount (h : t) (hookName : string) : nat :=
  match hooks h !! hookName with
  | Some handlers => length handlers
  | None => O
  end.

(** [_groupByPriority(handlers)] *)
Fixpoint group_push (e : Entry) (groups : list (Z * list Entry))
  : list (Z * list Entry) :=
  match groups with
  | [] => [(e_priority e, [e])]
  | (p, g) :: rest =>
      if Z.eqb p (e_priority e) then (p, (g ++ [e])%list) :: rest
      else (p, g) :: group_push e rest
  end.
Fixpoint insert_group (x : Z * list Entry) (l : list (Z * list Entry))
  : list (Z * list Entry) :=
  match l with
  | [] => [x]
  | y :: rest =>
      if Z.leb (fst x) (fst y) then x :: l else y :: insert_group x rest
  end.
Definition _groupByPriority (handlers : list Entry) : list (list Entry) :=
  map snd (fold_right insert_group []
             (fold_left (fun gs e => group_push e gs) handlers [])).

Record EmitOptions := {
  parallel : option bool;
  cancelable : option bool
}.

Record EmitResult := {
  data : value;
  cancelled : bool
}.

(** The locals of [emit]: [currentData], [cancelled], [handlersToRemove];
    [em_calls] records, for each handler invocation, the entry id and the
    [context.data] it found (a record of what happened, not read by the
    code). *)
Record Emission := {
  em_data : value;
  em_cancelled : bool;
  em_remove : list (string * nat);
  em_calls : list (nat * value)
}.

(** One priority group with [parallel: false]; [ctx] is [context.data]. *)
Fixpoint run_sequential (hookName : string) (cancelable : bool)
         (group : list Entry) (ctx : value) (em : Emission) : Emission :=
  match group with
  | [] => em
  | entry :: rest =>
      if em_cancelled em && cancelable then em
      else
        let out := e_handler entry ctx in
        let cancelled' := em_cancelled em || (cancelable && out_cancel out) in
        let calls' := (em_calls em ++ [(e_id entry, ctx)])%list in
        let em' :=
          match out_result out with
          | Normal result =>
              {| em_data := default (em_data em) result;
                 em_cancelled := cancelled';
                 em_remove :=
                   if e_once entry
                   then (em_remove em ++ [(hookName, e_id entry)])%list
                   else em_remove em;
                 em_calls := calls' |}
          | Throw _ =>
              {| em_data := em_data em; em_cancelled := cancelled';
                 em_remove := em_remove em; em_calls := calls' |}
          end in
        run_sequential hookName cancelable rest (out_data out) em'
  end.

(** One priority group with [parallel: true]: every handler is started, in
    order, on the shared context; [results] are the settled results in
    group order. *)
Fixpoint start_all (group : list Entry) (ctx : value)
  : list (nat * value) * bool * list (completion (option value)) :=
  match group with
  | [] => ([], false, [])
  | entry :: rest =>
      let out := e_handler entry ctx in
      let '(calls, cancel, results) := start_all rest (out_data out) in
      ((e_id entry, ctx) :: calls, out_cancel out || cancel,
       out_result out :: results)
  end.

(** [results.filter(r => r.status === 'fulfilled' && r.value !== undefined).pop()] *)
Definition lastSuccess (results : list (completion (option value)))
  : option value :=
  last (omap (fun r => match r with Normal (Some v) => Some v | _ => None end)
             results).

Definition run_parallel (hookName : string) (cancelable : bool)
           (group : list Entry) (em : Emission) : Emission :=
  let '(calls, cancel, results) := start_all group (em_data em) in
  {| em_data := default (em_data em) (lastSuccess results);
     em_cancelled := em_cancelled em || (cancelable && cancel);
     em_remove :=
       (em_remove em
        ++ map (fun e => (hookName, e_id e)) (List.filter e_once group))%list;
     em_calls := (em_calls em ++ calls)%list |}.

Definition run_group (hookName : string) (par cancelable : bool)
           (em : Emission) (group : list Entry) : Emission :=
  if em_cancelled em && cancelable then em
  else if par then run_parallel hookName cancelable group em
  else run_sequential hookName cancelable group (em_data em) em.

(** [emit(hookName, data = null, options = {})]: the result, the handler
    invocations, and the hook system after the [once] handlers that ran
    were removed. *)
Definition emit (hookName : string) (data : option value)
           (options : EmitOptions) (h : t)
  : EmitResult * list (nat * value) * t :=
  let data := default VNull data in
  let par := default true (parallel options) in
  let cancelable := default false (cancelable options) in
  match hooks h !! hookName with
  | None => ({| data := data; cancelled := false |}, [], h)
  | Some [] => ({| data := data; cancelled := false |}, [], h)
  | Some handlers =>
      let em :=
        fold_left (run_group hookName par cancelable)
                  (_groupByPriority handlers)
                  {| em_data := data; em_cancelled := false;
                     em_remove := []; em_calls := [] |} in
      let h' :=
        fold_left (fun h x => _unregister (fst x) (snd x) h) (em_remove em) h in
      ({| data := em_data em; cancelled := em_cancelled em |},
       em_calls em, h')
  end.

(** [filter(hookName, initialData)] *)
Definition filter (hookName : string) (initialData : option value) (h : t)
  : value * t :=
  let '(result, _, h') :=
    emit hookName initialData
         {| parallel := Some false; cancelable := None |} h in
  (data result, h').

(** [action(hookName, data)] *)
Definition action (hookName : string) (data : option value) (h : t) : t :=
  snd (emit hookName data {| parallel := Some true; cancelable := None |} h).

End HookSystem.

(** ** Plain objects

    [settings.core], [settings.plugins], the [settings] object of an entry
    and a schema are plain objects, and the maps below hold their own
    properties.  A plain object also inherits the properties of
    [Object.prototype]: under one of these names a read finds the
    inherited member where the object has no own property, and a write
    under [__proto__] reaches a setter.  The names that are not inherited
    are the [ordinary] ones. *)
Definition inherited_names : list string :=
  ["constructor"; "__proto__"; "hasOwnProperty"; "isPrototypeOf";
   "propertyIsEnumerable"; "toLocaleString"; "toString"; "valueOf";
   "__defineGetter__"; "__defineSetter__"; "__lookupGetter__";
   "__lookupSetter__"].

Definition is_ordinary (name : string) : bool :=
  negb (existsb (String.eqb name) inherited_names).

Definition ordinary (name : string) : Prop := is_ordinary name = true.

(** ** SettingsStore.js *)

Module SettingsStore.

(** An entry of [settings.plugins]; either field may be missing in a
    document read from storage. *)
Record PluginData := {
  enabled : option value;
  settings : option (gmap string value)
}.

(** The settings document [{version, core, plugins}] *)
Record Document := {
  version : string;
  core : gmap string value;
  plugins : gmap string PluginData
}.

(** A call of a watcher callback: a key watcher gets [(value, oldValue)],
    a plugin-wide watcher gets [{key, value, oldValue}]. *)
Inductive Notification :=
| NotifyKey (watcher : nat) (v : value) (old : option value)
| NotifyAll (watcher : nat) (key : string) (v : value) (old : option value).

(** [doc] is [this.settings]; [batchTimeout] tells whether the persist
    timer is armed; [stored] is what the storage backend holds under the
    key [settings]; watcher callbacks are numbered and [notified] lists the
    calls made to them. *)
Record t := {
  doc : Document;
  schemas : gmap string Schema;
  watchers : gmap string (list nat);
  batchTimeout : bool;
  stored : option Document;
  notified : list Notification
}.

Definition initial : t :=
  {| doc := {| version := "1.0.0";
               core := <["theme" := VStr "dark"]>
                         (<["debugMode" := VBool false]> ∅);
               plugins := ∅ |};
     schemas := ∅; watchers := ∅; batchTimeout := false;
     stored := None; notified := [] |}.

Definition with_doc (d : Document) (s : t) : t :=
  {| doc := d; schemas := schemas s; watchers := watchers s;
     batchTimeout := batchTimeout s; stored := stored s;
     notified := notified s |}.

Definition with_plugins (ps : gmap string PluginData) (d : Document)
  : Document :=
  {| version := version d; core := core d; plugins := ps |}.

(** [_getDefaults(schema)] *)
Definition _getDefaults (schema : Schema) : gmap string value :=
  omap sd_default schema.

(** [registerSchema(pluginId, schema)]; [{...defaults, ...current}] keeps
    the current value of a key both have.  The plugin id and the keys of
    the schema are taken to be [ordinary] names. *)
Definition registerSchema (pluginId : string) (schema : Schema) (s : t) : t :=
  let d := doc s in
  let plugins' :=
    match plugins d !! pluginId with
    | None =>
        <[pluginId := {| enabled := Some (VBool false);
                         settings := Some (_getDefaults schema) |}]> (plugins d)
    | Some entry =>
        let current := default ∅ (settings entry) in
        <[pluginId := {| enabled := enabled entry;
                         settings := Some (current ∪ _getDefaults schema) |}]>
          (plugins d)
    end in
  {| doc := with_plugins plugins' d;
     schemas := <[pluginId := schema]> (schemas s);
     watchers := watchers s; batchTimeout := batchTimeout s;
     stored := stored s; notified := notified s |}.

(** [get(pluginId, key)], for [ordinary] names *)
Definition get (s : t) (pluginId key : string) : option value :=
  if String.eqb pluginId "core" then core (doc s) !! key
  else
    match plugins (doc s) !! pluginId with
    | None => None
    | Some plugin =>
        if String.eqb key "enabled" then enabled plugin
        else match settings plugin with
             | Some kv => kv !! key
             | None => None
             end
    end.

(** [typeof value] *)
Definition typeof (v : value) : string :=
  match v with
  | VNull => "object"
  | VBool _ => "boolean"
  | VNum _ => "number"
  | VStr _ => "string"
  | VArr _ => "object"
  | VObj _ => "object"
  end.

(** Truthiness *)
Definition truthy (v : value) : bool :=
  match v with
  | VNull => false
  | VBool b => b
  | VNum n => negb (Z.eqb n 0)
  | VStr s => negb (String.eqb s "")
  | VArr _ => true
  | VObj _ => true
  end.

(** The comparison of [Array.prototype.includes]; an array or an object
    equals only itself, and a value passed in is taken to be a fresh one. *)
Definition same_value (a b : value) : bool :=
  match a, b with
  | VNull, VNull => true
  | VBool x, VBool y => Bool.eqb x y
  | VNum x, VNum y => Z.eqb x y
  | VStr x, VStr y => String.eqb x y
  | _, _ => false
  end.

Definition type_ok (def : SettingDef) (v : value) : bool :=
  match sd_type def with
  | None => true
  | Some ty =>
      if String.eqb ty "" then true
      else if String.eqb ty "boolean" then String.eqb (typeof v) "boolean"
      else if String.eqb ty "string" then String.eqb (typeof v) "string"
      else if String.eqb ty "number" then
        match v with
        | VNum n =>
            negb (match sd_min def with Some lo => Z.ltb n lo | None => false end)
            && negb (match sd_max def with Some hi => Z.ltb hi n | None => false end)
        | _ => false
        end
      else if String.eqb ty "array" then
        match v with VArr _ => true | _ => false end
      else if String.eqb ty "object" then
        match v with VArr _ | VObj _ => true | _ => false end
      else true
  end.

(** [_validate(pluginId, key, value)] *)
Definition _validate (s : t) (pluginId key : string) (v : value) : bool :=
  match schemas s !! pluginId with
  | None => true
  | Some schema =>
      match schema !! key with
      | None => true
      | Some def =>
          if negb (type_ok def v) then false
          else if match sd_enum def with
                  | Some enumValues => negb (existsb (same_value v) enumValues)
                  | None => false
                  end then false
          else match sd_validator def with
               | Some validator => validator v
               | None => true
               end
      end
  end.

(** The assignment of [set]: [this.settings.core[key] = value], or the
    assignment into the plugin entry, created if missing, for [ordinary]
    names.  Assigning a setting into an entry without a [settings] object
    raises a TypeError (its message is the engine's). *)
Definition assign (pluginId key : string) (v : value) (s : t)
  : completion unit * t :=
  let d := doc s in
  if String.eqb pluginId "core" then
    (Normal tt,
     with_doc {| version := version d; core := <[key := v]> (core d);
                 plugins := plugins d |} s)
  else
    let entry :=
      default {| enabled := Some (VBool false); settings := Some ∅ |}
              (plugins d !! pluginId) in
    let s1 := with_doc (with_plugins (<[pluginId := entry]> (plugins d)) d) s in
    if String.eqb key "enabled" then
      (Normal tt,
       with_doc (with_plugins
                   (<[pluginId := {| enabled := Some v;
                                     settings := settings entry |}]>
                      (plugins d)) d) s)
    else
      match settings entry with
      | Some kv =>
          (Normal tt,
           with_doc (with_plugins
                       (<[pluginId := {| enabled := enabled entry;
                                         settings := Some (<[key := v]> kv) |}]>
                          (plugins d)) d) s)
      | None =>
          (Throw (Error "Cannot set properties of undefined"), s1)
      end.

(** [_queuePersist()]: (re)arms the 500ms timer. *)
Definition _queuePersist (s : t) : t :=
  {| doc := doc s; schemas := schemas s; watchers := watchers s;
     batchTimeout := true; stored := stored s; notified := notified s |}.


(** [_notifyWatchers(pluginId, key, value, oldValue)] *)
Definition _notifyWatchers (pluginId key : string) (v : value)
           (oldValue : option value) (s : t) : t :=
  let specific := default [] (watchers s !! (pluginId +:+ "." +:+ key)) in
  let pluginWide := default [] (watchers s !! pluginId) in
  {| doc := doc s; schemas := schemas s; watchers := watchers s;
     batchTimeout := batchTimeout s; stored := stored s;
     notified := (notified s
                  ++ map (fun w => NotifyKey w v oldValue) specific
                  ++ map (fun w => NotifyAll w key v oldValue) pluginWide)%list |}.


Definition field (k : string) (v : option value) : list (string * value) :=
  match v with Some x => [(k, x)] | None => [] end.

(** [set(pluginId, key, value, skipValidation = false)], on the settings
    store and the hook system it emits on. *)
Definition set (pluginId key : string) (v : value) (skipValidation : bool)
  : M (t * HookSystem.t) unit :=
  fun sh =>
    let '(s, h) := sh in
    if negb skipValidation && negb (_validate s pluginId key v) then
      (Throw (Error ("Invalid value for " +:+ pluginId +:+ "." +:+ key)), sh)
    else
      let oldValue := get s pluginId key in
      match assign pluginId key v s with
      | (Throw e, s1) => (Throw e, (s1, h))
      | (Normal _, s1) =>
          let s2 := _queuePersist s1 in
          let s3 := _notifyWatchers pluginId key v oldValue s2 in
          let h1 :=
            HookSystem.action "settings:changed"
              (Some (VObj ([("pluginId", VStr pluginId); ("key", VStr key);
                            ("value", v)] ++ field "oldValue" oldValue)%list)) h in
          let h2 :=
            HookSystem.action ("settings:plugin-changed:" +:+ pluginId)
              (Some (VObj ([("key", VStr key); ("value", v)]
                           ++ field "oldValue" oldValue)%list)) h1 in
          (Normal tt, (s3, h2))
      end.

(** [isPluginEnabled(pluginId)] as a condition *)
Definition isPluginEnabled (s : t) (pluginId : string) : bool :=
  match plugins (doc s) !! pluginId with
  | Some entry =>
      match enabled entry with Some v => truthy v | None => false end
  | None => false
  end.

(** [enable(pluginId)], [disable(pluginId)] *)
Definition enable (pluginId : string) : M (t * HookSystem.t) unit :=
  set pluginId "enabled" (VBool true) true.
Definition disable (pluginId : string) : M (t * HookSystem.t) unit :=
  set pluginId "enabled" (VBool false) true.


(** [setMany(pluginId, settings)]; [settings] are the entries of the
    object, in its key order. *)
Definition setMany (pluginId : string) (settings : list (string * value))
  : M (t * HookSystem.t) unit :=
  for_of settings (fun kv => set pluginId (fst kv) (snd kv) false).


End SettingsStore.

(** ** LifecycleManager.js *)

(** The lifecycle manager and the three singletons it drives. *)
Record Snapshot := {
  snap_state : PluginRegistry.State;
  snap_hooks : nat;
  snap_timestamp : Z
}.

Record World := {
  registry : PluginRegistry.t;
  hooks : HookSystem.t;
  settings : SettingsStore.t;
  stateSnapshots : gmap string Snapshot
}.

Definition on_registry (f : PluginRegistry.t -> PluginRegistry.t) (w : World)
  : World :=
  {| registry := f (registry w); hooks := hooks w; settings := settings w;
     stateSnapshots := stateSnapshots w |}.
Definition on_hooks (f : HookSystem.t -> HookSystem.t) (w : World) : World :=
  {| registry := registry w; hooks := f (hooks w); settings := settings w;
     stateSnapshots := stateSnapshots w |}.
Definition on_settings (f : SettingsStore.t -> SettingsStore.t) (w : World)
  : World :=
  {| registry := registry w; hooks := hooks w; settings := f (settings w);
     stateSnapshots := stateSnapshots w |}.
Definition on_snapshots (f : gmap string Snapshot -> gmap string Snapshot)
           (w : World) : World :=
  {| registry := registry w; hooks := hooks w; settings := settings w;
     stateSnapshots := f (stateSnapshots w) |}.

Module LifecycleManager.
Import PluginRegistry.
Local Open Scope js_scope.

(** [{ pluginId }] *)
Definition plugin_event (pluginId : string) : option value :=
  Some (VObj [("pluginId", VStr pluginId)]).

(** [this.hooks.action(hookName, data)] *)
Definition action (hookName : string) (data : option value) : M World unit :=
  modify (on_hooks (HookSystem.action hookName data)).

(** A call [await instance.method(api)] of a lifecycle method of the
    module [pluginId]: its registrations go through [api.hooks.register],
    which tags them with the plugin id ([api_register]). *)
Definition api_register (pluginId : string) (rs : list ApiRegister)
           (h : HookSystem.t) : HookSystem.t :=
  fold_left
    (fun h (r : ApiRegister) =>
       snd (HookSystem.register (ar_hook r) (ar_handler r)
              {| HookSystem.o_priority := ar_priority r;
                 HookSystem.o_once := ar_once r;
                 HookSystem.o_plugin := Some pluginId |} h))
    rs h.

Definition call_lifecycle (pluginId : string) (fn : LifecycleFn)
  : M World unit :=
  fun w =>
    (lf_outcome fn, on_hooks (api_register pluginId (lf_registers fn)) w).

(** [if (typeof instance.method === 'function') await instance.method(api)] *)
Definition call_if_function (pluginId : string) (fn : option LifecycleFn)
  : M World unit :=
  match fn with
  | Some f => call_lifecycle pluginId f
  | None => ret tt
  end.

Definition instance_not_found (pluginId : string) : exn :=
  Error ("Plugin instance not found: " +:+ pluginId).

(** [initPlugin(pluginId, api)] *)
Definition initPlugin (pluginId : string) : M World bool :=
  state <- gets (fun w => getState (registry w) pluginId) ;;
  if negb (State_eqb state LOADED) then
    throw (Error ("Plugin " +:+ pluginId
                  +:+ " must be in LOADED state to initialize (current: "
                  +:+ State_name state +:+ ")"))
  else
    instance <- gets (fun w => getInstance (registry w) pluginId) ;;
    match instance with
    | None => throw (instance_not_found pluginId)
    | Some instance =>
        try_catch
          (call_if_function pluginId (m_init instance) ;;; ret true)
          (fun error =>
             modify (on_registry (setError pluginId error)) ;;; ret false)
    end.

(** [_registerPluginHooks(pluginId, hooks, api)] *)
Definition _registerPluginHooks (pluginId : string)
           (hs : list (string * Handler)) (h : HookSystem.t) : HookSystem.t :=
  fold_left
    (fun h (x : string * Handler) =>
       snd (HookSystem.register (fst x) (snd x)
              {| HookSystem.o_priority := Some 50;
                 HookSystem.o_once := None;
                 HookSystem.o_plugin := Some pluginId |} h))
    hs h.

(** [_takeSnapshot(pluginId)] *)
Definition _takeSnapshot (pluginId : string) (w : World) : World :=
  on_snapshots
    (fun snaps =>
       <[pluginId := {| snap_state := getState (registry w) pluginId;
                        snap_hooks :=
                          length (HookSystem.getPluginHooks (hooks w) pluginId);
                        snap_timestamp := now (registry w) |}]> snaps) w.

(** [_rollback(pluginId, api)] *)
Definition _rollback (pluginId : string) (w : World) : World :=
  match stateSnapshots w !! pluginId with
  | None => w
  | Some snapshot =>
      let w1 := on_hooks (HookSystem.unregisterPlugin pluginId) w in
      let w2 := on_registry (setState pluginId (snap_state snapshot)) w1 in
      on_snapshots (delete pluginId) w2
  end.

(** [startPlugin(pluginId, api)] *)
Definition startPlugin (pluginId : string) : M World bool :=
  state <- gets (fun w => getState (registry w) pluginId) ;;
  if State_eqb state ACTIVE then ret true
  else if negb (State_eqb state LOADED) && negb (State_eqb state STOPPED) then
    throw (Error ("Plugin " +:+ pluginId
                  +:+ " must be in LOADED or STOPPED state to start (current: "
                  +:+ State_name state +:+ ")"))
  else
    depCheck <- gets (fun w => checkDependencies (registry w) pluginId) ;;
    if negb (fst depCheck) then
      throw (Error ("Cannot start " +:+ pluginId +:+ ": missing dependencies "
                    +:+ join ", " (snd depCheck)))
    else
      conflictCheck <- gets (fun w => checkConflicts (registry w) pluginId) ;;
      if fst conflictCheck then
        throw (Error ("Cannot start " +:+ pluginId +:+ ": conflicts with "
                      +:+ join ", " (snd conflictCheck)))
      else
        instance <- gets (fun w => getInstance (registry w) pluginId) ;;
        match instance with
        | None => throw (instance_not_found pluginId)
        | Some instance =>
            try_catch
              (modify (_takeSnapshot pluginId) ;;;
               modify (on_registry (setState pluginId STARTING)) ;;;
               action "plugin:before-enable" (plugin_event pluginId) ;;;
               modify (on_hooks
                         (match m_hooks instance with
                          | Some hs => _registerPluginHooks pluginId hs
                          | None => fun h => h
                          end)) ;;;
               modify (on_settings
                         (match m_settings instance with
                          | Some schema =>
                              SettingsStore.registerSchema pluginId schema
                          | None => fun s => s
                          end)) ;;;
               call_if_function pluginId (m_start instance) ;;;
               modify (on_registry (setState pluginId ACTIVE)) ;;;
               modify (on_registry (clearError pluginId)) ;;;
               action "plugin:enabled" (plugin_event pluginId) ;;;
               ret true)
              (fun error =>
                 modify (_rollback pluginId) ;;;
                 modify (on_registry (setError pluginId error)) ;;;
                 action "plugin:error"
                   (Some (VObj [("pluginId", VStr pluginId);
                                ("error",
                                 VObj [("message", VStr (message error))])])) ;;;
                 ret false)
        end.

(** [stopPlugin(pluginId, api)] *)
Definition stopPlugin (pluginId : string) : M World bool :=
  state <- gets (fun w => getState (registry w) pluginId) ;;
  if State_eqb state STOPPED then ret true
  else if negb (State_eqb state ACTIVE) then
    throw (Error ("Plugin " +:+ pluginId
                  +:+ " must be in ACTIVE state to stop (current: "
                  +:+ State_name state +:+ ")"))
  else
    activeDependents <-
      gets (fun w =>
              List.filter
                (fun depId => State_eqb (getState (registry w) depId) ACTIVE)
                (getDependents (registry w) pluginId)) ;;
    match activeDependents with
    | _ :: _ =>
        throw (Error ("Cannot stop " +:+ pluginId +:+ ": required by "
                      +:+ join ", " activeDependents))
    | [] =>
        instance <- gets (fun w => getInstance (registry w) pluginId) ;;
        match instance with
        | None => throw (instance_not_found pluginId)
        | Some instance =>
            try_catch
              (modify (on_registry (setState pluginId STOPPING)) ;;;
               action "plugin:before-disable" (plugin_event pluginId) ;;;
               call_if_function pluginId (m_stop instance) ;;;
               modify (on_hooks (HookSystem.unregisterPlugin pluginId)) ;;;
               modify (on_registry (setState pluginId STOPPED)) ;;;
               action "plugin:disabled" (plugin_event pluginId) ;;;
               ret true)
              (fun error =>
                 modify (on_registry (setError pluginId error)) ;;;
                 ret false)
        end
    end.


(** [enablePlugin(pluginId, api)] *)
Definition enablePlugin (pluginId : string) : M World bool :=
  state <- gets (fun w => getState (registry w) pluginId) ;;
  if State_eqb state ACTIVE then ret true
  else if State_eqb state LOADED || State_eqb state STOPPED
  then startPlugin pluginId
  else throw (Error ("Plugin " +:+ pluginId
                     +:+ " is in invalid state for enabling: "
                     +:+ State_name state)).

(** [disablePlugin(pluginId, api)] *)
Definition disablePlugin (pluginId : string) : M World bool :=
  stopPlugin pluginId.

(** [reloadPlugin(pluginId, api)] *)
Definition reloadPlugin (pluginId : string) : M World bool :=
  wasActive <-
    gets (fun w => State_eqb (getState (registry w) pluginId) ACTIVE) ;;
  (if wasActive : bool
   then (_ <- stopPlugin pluginId ;; ret tt)
   else ret tt) ;;;
  if wasActive : bool then startPlugin pluginId else ret true.

(** [handleError(pluginId, error, api)] *)
Definition handleError (pluginId : string) (error : exn) : M World unit :=
  modify (on_registry (setError pluginId error)) ;;;
  action "plugin:error"
    (Some (VObj [("pluginId", VStr pluginId);
                 ("error", VObj [("message", VStr (message error))])])) ;;;
  state <- gets (fun w => getState (registry w) pluginId) ;;
  if State_eqb state ACTIVE
  then try_catch (_ <- stopPlugin pluginId ;; ret tt) (fun _ => ret tt)
  else ret tt.

End LifecycleManager.

(** ** content.js: the framework core *)

Module FrameworkCore.
Import PluginRegistry.
Local Open Scope js_scope.

(** [pluginAPIs] holds the ids that have an API object;
    [reconciled] lists the calls of [_reconcileEnable] ([true]) and
    [_reconcileDisable] ([false]) made so far (a record of what happened,
    not read by the code). *)
Record t := {
  world : World;
  initialized : bool;
  initializing : bool;
  destroyed : bool;
  pluginAPIs : gset string;
  _operationsInFlight : gset string;
  reconciled : list (string * bool)
}.

Definition on_world (f : World -> World) (c : t) : t :=
  {| world := f (world c); initialized := initialized c;
     initializing := initializing c; destroyed := destroyed c;
     pluginAPIs := pluginAPIs c;
     _operationsInFlight := _operationsInFlight c;
     reconciled := reconciled c |}.

(** Runs a computation of the lifecycle manager on the core's world. *)
Definition lifecycle {A} (m : M World A) : M t A :=
  fun c => let '(r, w) := m (world c) in (r, on_world (fun _ => w) c).

(** [_startPluginRuntime(pluginId)] *)
Definition _startPluginRuntime (pluginId : string) : M t bool :=
  modify (fun c =>
            {| world := world c; initialized := initialized c;
               initializing := initializing c; destroyed := destroyed c;
               pluginAPIs := {[pluginId]} ∪ pluginAPIs c;
               _operationsInFlight := _operationsInFlight c;
               reconciled := reconciled c |}) ;;;
  currentState <- gets (fun c => getState (registry (world c)) pluginId) ;;
  (if State_eqb currentState LOADED
   then (_ <- lifecycle (LifecycleManager.initPlugin pluginId) ;; ret tt)
   else ret tt) ;;;
  lifecycle (LifecycleManager.startPlugin pluginId).

(** [_stopPluginRuntime(pluginId)] *)
Definition _stopPluginRuntime (pluginId : string) : M t bool :=
  has_api <- gets (fun c => bool_decide (pluginId ∈ pluginAPIs c)) ;;
  if negb has_api then ret true
  else lifecycle (LifecycleManager.stopPlugin pluginId).

Definition note_reconcile (pluginId : string) (enable : bool) (c : t) : t :=
  {| world := world c; initialized := initialized c;
     initializing := initializing c; destroyed := destroyed c;
     pluginAPIs := pluginAPIs c;
     _operationsInFlight := _operationsInFlight c;
     reconciled := (reconciled c ++ [(pluginId, enable)])%list |}.

(** [_reconcileEnable(pluginId)] *)
Definition _reconcileEnable (pluginId : string) : M t bool :=
  modify (note_reconcile pluginId true) ;;;
  dead <- gets destroyed ;;
  if dead then ret false
  else
    runtimeState <- gets (fun c => getState (registry (world c)) pluginId) ;;
    if State_eqb runtimeState ACTIVE then ret true
    else if State_eqb runtimeState STARTING || State_eqb runtimeState LOADING
    then ret true
    else try_catch (_startPluginRuntime pluginId) (fun _ => ret false).

(** [_reconcileDisable(pluginId)] *)
Definition _reconcileDisable (pluginId : string) : M t bool :=
  modify (note_reconcile pluginId false) ;;;
  dead <- gets destroyed ;;
  if dead then ret false
  else
    runtimeState <- gets (fun c => getState (registry (world c)) pluginId) ;;
    if State_eqb runtimeState STOPPED || State_eqb runtimeState UNLOADED
    then ret true
    else if State_eqb runtimeState STOPPING then ret true
    else try_catch (_stopPluginRuntime pluginId) (fun _ => ret false).

(** The [settings] entry of a storage-change notification:
    [newValue] and [oldValue], each a stored document of which only
    [plugins] is read; the entries of [plugins] are in key order. *)
Record StoredSettings := {
  ss_plugins : option (list (string * SettingsStore.PluginData))
}.
Record SettingsChange := {
  newValue : option StoredSettings;
  oldValue : option StoredSettings
}.

(** [data?.enabled || false] *)
Definition enabled_or_false (d : option SettingsStore.PluginData) : value :=
  match d with
  | Some entry =>
      match SettingsStore.enabled entry with
      | Some v => if SettingsStore.truthy v then v else VBool false
      | None => VBool false
      end
  | None => VBool false
  end.

(** The operation token [`${pluginId}:${enable ? 'enable' : 'disable'}`] *)
Definition opKey (pluginId : string) (enable : bool) : string :=
  pluginId +:+ ":" +:+ (if enable then "enable" else "disable").

(** The body of the loop of [_handleStorageChange] for one entry of
    [newSettings.plugins]. *)
Definition handle_entry (oldPlugins : list (string * SettingsStore.PluginData))
           (entry : string * SettingsStore.PluginData) : M t unit :=
  let pluginId := fst entry in
  let oldEnabled := enabled_or_false (JsMap.get oldPlugins pluginId) in
  let newEnabled := enabled_or_false (Some (snd entry)) in
  if negb (SettingsStore.same_value oldEnabled newEnabled) then
    inFlight <-
      gets (fun c =>
              bool_decide (opKey pluginId (SettingsStore.truthy newEnabled)
                             ∈ _operationsInFlight c)) ;;
    if inFlight then ret tt
    else if SettingsStore.truthy newEnabled
    then (_ <- _reconcileEnable pluginId ;; ret tt)
    else (_ <- _reconcileDisable pluginId ;; ret tt)
  else ret tt.

(** [_handleStorageChange(settingsChange)] *)
Definition _handleStorageChange (settingsChange : SettingsChange) : M t unit :=
  dead <- gets (fun c => destroyed c || negb (initialized c)) ;;
  if dead then ret tt
  else
    match newValue settingsChange with
    | None => ret tt
    | Some newSettings =>
        match ss_plugins newSettings,
              oldValue settingsChange ≫= ss_plugins with
        | Some newPlugins, Some oldPlugins =>
            for_of newPlugins (handle_entry oldPlugins)
        | _, _ => ret tt
        end
    end.

(** Runs a computation of the settings store, which emits on the hook
    system, on the world. *)
Definition on_store {A} (m : M (SettingsStore.t * HookSystem.t) A)
  : M World A :=
  fun w =>
    let '(r, (s, h)) := m (settings w, hooks w) in
    (r, {| registry := registry w; hooks := h; settings := s;
           stateSnapshots := stateSnapshots w |}).

Definition with_inFlight (f : gset string -> gset string) (c : t) : t :=
  {| world := world c; initialized := initialized c;
     initializing := initializing c; destroyed := destroyed c;
     pluginAPIs := pluginAPIs c;
     _operationsInFlight := f (_operationsInFlight c);
     reconciled := reconciled c |}.

(** [enablePlugin(pluginId)], the command *)
Definition enablePlugin (pluginId : string) : M t bool :=
  dead <- gets destroyed ;;
  if dead then ret false
  else
    let key := opKey pluginId true in
    inFlight <- gets (fun c => bool_decide (key ∈ _operationsInFlight c)) ;;
    if inFlight then ret true
    else
      storageEnabled <-
        gets (fun c =>
                SettingsStore.isPluginEnabled (settings (world c)) pluginId) ;;
      runtimeState <- gets (fun c => getState (registry (world c)) pluginId) ;;
      if storageEnabled && State_eqb runtimeState ACTIVE then ret true
      else if State_eqb runtimeState STARTING
              || State_eqb runtimeState LOADING then ret true
      else
        try_finally
          (try_catch
             (modify (with_inFlight (fun ops => {[key]} ∪ ops)) ;;;
              (if storageEnabled : bool then ret tt
               else lifecycle (on_store (SettingsStore.enable pluginId))) ;;;
              dead <- gets destroyed ;;
              if dead then ret false
              else _startPluginRuntime pluginId)
             (fun error =>
                dead <- gets destroyed ;;
                (if dead then ret tt
                 else try_catch
                        (lifecycle (on_store (SettingsStore.disable pluginId)))
                        (fun _ => ret tt)) ;;;
                ret false))
          (modify (with_inFlight (fun ops => ops ∖ {[key]}))).

(** [disablePlugin(pluginId)], the command *)
Definition disablePlugin (pluginId : string) : M t bool :=
  dead <- gets destroyed ;;
  if dead then ret false
  else
    let key := opKey pluginId false in
    inFlight <- gets (fun c => bool_decide (key ∈ _operationsInFlight c)) ;;
    if inFlight then ret true
    else
      storageEnabled <-
        gets (fun c =>
                SettingsStore.isPluginEnabled (settings (world c)) pluginId) ;;
      runtimeState <- gets (fun c => getState (registry (world c)) pluginId) ;;
      if negb storageEnabled && negb (State_eqb runtimeState ACTIVE)
      then ret true
      else if State_eqb runtimeState STOPPING then ret true
      else
        try_finally
          (try_catch
             (modify (with_inFlight (fun ops => {[key]} ∪ ops)) ;;;
              (if storageEnabled : bool
               then lifecycle (on_store (SettingsStore.disable pluginId))
               else ret tt) ;;;
              dead <- gets destroyed ;;
              if dead then ret false
              else _stopPluginRuntime pluginId)
             (fun error => ret false))
          (modify (with_inFlight (fun ops => ops ∖ {[key]}))).


End FrameworkCore.

(** ** IPCManager *)

Module IPCManager.

Inductive MessageType := REQUEST | RESPONSE | EVENT | BROADCAST.

(** An envelope handed to the transport; [msg_to] is the tab it was
    addressed to, if any. *)
Record Message := {
  msg_type : MessageType;
  msg_name : string;
  msg_data : option value;
  msg_requestId : option nat;
  msg_timestamp : Z;
  msg_to : option nat
}.

(** A message delivered to the listener; [in_type = None] is a message
    without a [type]. *)
Record Incoming := {
  in_type : option MessageType;
  in_name : string;
  in_data : option value;
  in_requestId : nat;
  in_success : bool;
  in_error : option string
}.

(** A response passed to [sendResponse] *)
Record Response := {
  res_success : bool;
  res_data : option value;
  res_error : option string;
  res_requestId : option nat
}.

(** An entry of [pendingRequests].  Its [resolve] and [reject] settle the
    promise of the request, found in [promises] under the request id; the
    timeout timer of request [n] has handle [n]. *)
Record Pending := {
  p_timeout : nat;
  p_action : string;
  p_timestamp : Z
}.

Inductive Settled :=
| Resolved (v : option value)
| Rejected (e : exn).

Definition IpcHandler := option value -> completion (option value).

(** [runtime]: whether a browser runtime API was found;
    [messageListener]: whether the inbound listener is attached;
    [timers]: the armed timeout timers, by handle, with the action of
    their request; [promises]: the settled request promises;
    [sent]: the envelopes handed to the transport; [responses]: the
    responses given; [tabs]: what [chrome.tabs.query({})] answers, when
    the tabs API exists. *)
Record t := {
  pendingRequests : gmap nat Pending;
  requestId : nat;
  defaultTimeout : Z;
  handlers : gmap string IpcHandler;
  destroyed : bool;
  runtime : bool;
  messageListener : bool;
  timers : gmap nat string;
  promises : gmap nat Settled;
  sent : list Message;
  responses : list Response;
  tabs : option (list nat);
  now : Z
}.

(** [new IPCManager()] *)
Definition create (has_runtime : bool) (tabs : option (list nat)) (clock : Z) : t :=
  {| pendingRequests := ∅; requestId := O; defaultTimeout := 5000;
     handlers := ∅; destroyed := false; runtime := has_runtime;
     messageListener := has_runtime; timers := ∅; promises := ∅;
     sent := []; responses := []; tabs := tabs; now := clock |}.

Definition with_pending (f : gmap nat Pending -> gmap nat Pending)
           (g : gmap nat string -> gmap nat string) (st : t) : t :=
  {| pendingRequests := f (pendingRequests st); requestId := requestId st;
     defaultTimeout := defaultTimeout st; handlers := handlers st;
     destroyed := destroyed st; runtime := runtime st;
     messageListener := messageListener st; timers := g (timers st);
     promises := promises st; sent := sent st; responses := responses st;
     tabs := tabs st; now := now st |}.

(** [resolve]/[reject] of the promise of request [rid]: settling a settled
    promise does nothing. *)
Definition settle (rid : nat) (o : Settled) (st : t) : t :=
  {| pendingRequests := pendingRequests st; requestId := requestId st;
     defaultTimeout := defaultTimeout st; handlers := handlers st;
     destroyed := destroyed st; runtime := runtime st;
     messageListener := messageListener st; timers := timers st;
     promises := match promises st !! rid with
                 | Some _ => promises st
                 | None => <[rid := o]> (promises st)
                 end;
     sent := sent st; responses := responses st;
     tabs := tabs st; now := now st |}.

Definition send (m : Message) (st : t) : t :=
  {| pendingRequests := pendingRequests st; requestId := requestId st;
     defaultTimeout := defaultTimeout st; handlers := handlers st;
     destroyed := destroyed st; runtime := runtime st;
     messageListener := messageListener st; timers := timers st;
     promises := promises st; sent := (sent st ++ [m])%list;
     responses := responses st; tabs := tabs st; now := now st |}.

Definition respond (r : Response) (st : t) : t :=
  {| pendingRequests := pendingRequests st; requestId := requestId st;
     defaultTimeout := defaultTimeout st; handlers := handlers st;
     destroyed := destroyed st; runtime := runtime st;
     messageListener := messageListener st; timers := timers st;
     promises := promises st; sent := sent st;
     responses := (responses st ++ [r])%list; tabs := tabs st; now := now st |}.

Definition destroyed_request : exn :=
  Error "IPC destroyed - cannot send request".
Definition destroyed_pending : exn :=
  Error "IPC destroyed - context ending".

(** [if (target)] and [if (tab.id)]: a tab id is an addressee unless it
    is falsy, and the tab id [0] is. *)
Definition addressee (target : option nat) : option nat :=
  match target with
  | Some O => None
  | _ => target
  end.

(** [request(action, data, options)].  The function is [async]: a throw is
    the rejection of the promise it returns.  Otherwise the result is the
    id under which the promise of the request is settled later. *)
Definition request (action : string) (data : option value)
           (timeout : option Z) (target : option nat) : M t nat :=
  fun st =>
    if destroyed st then (Throw destroyed_request, st)
    else
      let rid := S (requestId st) in
      let st1 :=
        {| pendingRequests :=
             <[rid := {| p_timeout := rid; p_action := action;
                         p_timestamp := now st |}]> (pendingRequests st);
           requestId := rid;
           defaultTimeout := defaultTimeout st; handlers := handlers st;
           destroyed := destroyed st; runtime := runtime st;
           messageListener := messageListener st;
           timers := <[rid := action]> (timers st);
           promises := promises st; sent := sent st;
           responses := responses st; tabs := tabs st; now := now st |} in
      if runtime st then
        (Normal rid,
         send {| msg_type := REQUEST; msg_name := action;
                 msg_data := Some (default VNull data);
                 msg_requestId := Some rid; msg_timestamp := now st;
                 msg_to := addressee target |} st1)
      else
        (* [this.runtime] is null: the call throws a TypeError inside [try] *)
        (Normal rid,
         settle rid (Rejected (Error "Cannot read properties of null"))
                (with_pending (delete rid) (delete rid) st1)).

(** The timeout timer of request [rid] fires. *)
Definition timeout_fires (rid : nat) (st : t) : t :=
  match timers st !! rid with
  | None => st
  | Some action =>
      settle rid (Rejected (Error ("Request timeout: " +:+ action)))
             (with_pending (delete rid) (delete rid) st)
  end.

Fixpoint contains (needle hay : string) : bool :=
  if String.prefix needle hay then true
  else match hay with
       | EmptyString => false
       | String _ rest => contains needle rest
       end.

(** The promise of [runtime.sendMessage] for request [rid] rejects; there
    is such a promise only for a request that was issued. *)
Definition send_fails (rid : nat) (error : exn) (st : t) : t :=
  if Nat.ltb O rid && Nat.leb rid (requestId st) then
    let e :=
      if negb (contains "Extension context invalidated" (message error))
         && negb (contains "Receiving end does not exist" (message error))
      then error
      else Error "Context no longer available" in
    settle rid (Rejected e) (with_pending (delete rid) (delete rid) st)
  else st.

(** [_handleResponse(message)] *)
Definition _handleResponse (m : Incoming) (st : t) : t :=
  match pendingRequests st !! in_requestId m with
  | None => st
  | Some pending =>
      let st1 :=
        with_pending (delete (in_requestId m)) (delete (p_timeout pending)) st in
      if in_success m then settle (in_requestId m) (Resolved (in_data m)) st1
      else
        let text :=
          match in_error m with
          | Some e => if String.eqb e "" then "Request failed" else e
          | None => "Request failed"
          end in
        settle (in_requestId m) (Rejected (Error text)) st1
  end.

(** [_handleRequest(message, sender, sendResponse)] *)
Definition _handleRequest (m : Incoming) (st : t) : t :=
  match handlers st !! in_name m with
  | None =>
      respond {| res_success := false; res_data := None;
                 res_error := Some ("No handler for action: " +:+ in_name m);
                 res_requestId := None |} st
  | Some handler =>
      match handler (in_data m) with
      | Normal result =>
          respond {| res_success := true; res_data := result;
                     res_error := None;
                     res_requestId := Some (in_requestId m) |} st
      | Throw error =>
          respond {| res_success := false; res_data := None;
                     res_error := Some (message error);
                     res_requestId := Some (in_requestId m) |} st
      end
  end.

(** The inbound listener, then [_handleMessage]: nothing reaches a
    detached listener, and a destroyed manager processes nothing.  What an
    event handler does is its own business and is not represented. *)
Definition receive (m : Incoming) (st : t) : t :=
  if negb (messageListener st) then st
  else if destroyed st then st
  else
    match in_type m with
    | None => st
    | Some REQUEST => _handleRequest m st
    | Some RESPONSE => _handleResponse m st
    | Some EVENT => st
    | Some BROADCAST => st
    end.

(** [sendEvent(event, data, options)] *)
Definition sendEvent (event : string) (data : option value)
           (target : option nat) (st : t) : t :=
  if destroyed st then st
  else if runtime st then
    send {| msg_type := EVENT; msg_name := event;
            msg_data := Some (default VNull data);
            msg_requestId := None; msg_timestamp := now st;
            msg_to := addressee target |} st
  else st.

(** [broadcast(event, data)]; [if (tab.id)] skips a tab whose id is [0]. *)
Definition broadcast (event : string) (data : option value) (st : t) : t :=
  if destroyed st then st
  else
    let envelope to :=
      {| msg_type := BROADCAST; msg_name := event;
         msg_data := Some (default VNull data);
         msg_requestId := None; msg_timestamp := now st; msg_to := to |} in
    let st1 :=
      fold_left (fun st tab => send (envelope (Some tab)) st)
                (List.filter (fun tab => negb (Nat.eqb tab O))
                             (default [] (tabs st))) st in
    if runtime st then send (envelope None) st1 else st1.

(** [on(actionOrEvent, handler)], [off(actionOrEvent)] *)
Definition on (name : string) (handler : IpcHandler) (st : t) : t :=
  {| pendingRequests := pendingRequests st; requestId := requestId st;
     defaultTimeout := defaultTimeout st;
     handlers := <[name := handler]> (handlers st);
     destroyed := destroyed st; runtime := runtime st;
     messageListener := messageListener st; timers := timers st;
     promises := promises st; sent := sent st; responses := responses st;
     tabs := tabs st; now := now st |}.
Definition off (name : string) (st : t) : t :=
  {| pendingRequests := pendingRequests st; requestId := requestId st;
     defaultTimeout := defaultTimeout st;
     handlers := delete name (handlers st);
     destroyed := destroyed st; runtime := runtime st;
     messageListener := messageListener st; timers := timers st;
     promises := promises st; sent := sent st; responses := responses st;
     tabs := tabs st; now := now st |}.

(** [this.pendingRequests.forEach(pending => { clearTimeout(pending.timeout);
    pending.reject(new Error('IPC destroyed - context ending')) })],
    on the timers and the promises *)
Definition reject_all (pending : list (nat * Pending))
           (tp : gmap nat string * gmap nat Settled)
  : gmap nat string * gmap nat Settled :=
  fold_left
    (fun tp (x : nat * Pending) =>
       (delete (p_timeout (snd x)) (fst tp),
        match snd tp !! fst x with
        | Some _ => snd tp
        | None => <[fst x := Rejected destroyed_pending]> (snd tp)
        end))
    pending tp.

(** [destroy()] *)
Definition destroy (st : t) : t :=
  if destroyed st then st
  else
    let tp := reject_all (map_to_list (pendingRequests st))
                         (timers st, promises st) in
    {| pendingRequests := ∅; requestId := requestId st;
       defaultTimeout := defaultTimeout st; handlers := ∅;
       destroyed := true; runtime := runtime st;
       messageListener :=
         if messageListener st && runtime st then false
         else messageListener st;
       timers := fst tp; promises := snd tp;
       sent := sent st; responses := responses st;
       tabs := tabs st; now := now st |}.

(** What can happen to the manager: calls of its methods and events of
    its environment. *)
Inductive Op :=
| CallRequest (action : string) (data : option value) (timeout : option Z)
              (target : option nat)
| CallSendEvent (event : string) (data : option value) (target : option nat)
| CallBroadcast (event : string) (data : option value)
| CallOn (name : string) (handler : IpcHandler)
| CallOff (name : string)
| CallDestroy
| TimerFires (rid : nat)
| SendFails (rid : nat) (error : exn)
| Delivered (m : Incoming).

Definition step (st : t) (op : Op) : t :=
  match op with
  | CallRequest action data timeout target =>
      snd (request action data timeout target st)
  | CallSendEvent event data target => sendEvent event data target st
  | CallBroadcast event data => broadcast event data st
  | CallOn name handler => on name handler st
  | CallOff name => off name st
  | CallDestroy => destroy st
  | TimerFires rid => timeout_fires rid st
  | SendFails rid error => send_fails rid error st
  | Delivered m => receive m st
  end.

Definition run (ops : list Op) (st : t) : t := fold_left step ops st.

End IPCManager.

(** * Specification vocabulary and sample data *)

(** ** The dependency graph induced by a list of ids *)

(** [dep] is a dependency (required or optional) of [id], both among [ids]. *)
Definition dep_edge (r : PluginRegistry.t) (ids : list string)
  (dep id : string) : Prop :=
  dep ∈ ids /\ id ∈ ids /\ dep ∈ PluginRegistry.getDependencies r id.

Definition has_cycle (r : PluginRegistry.t) (ids : list string) : Prop :=
  exists x, tc (dep_edge r ids) x x.

Definition acyclic (r : PluginRegistry.t) (ids : list string) : Prop :=
  forall x, ~ tc (dep_edge r ids) x x.

(** [id] is on a dependency cycle of the induced graph, or depends on an
    id that is, directly or through other ids. *)
Definition behind_cycle (r : PluginRegistry.t) (ids : list string)
  (id : string) : Prop :=
  exists c, tc (dep_edge r ids) c c /\ rtc (dep_edge r ids) c id.

(** [a] occurs in [l] at an index below one at which [b] occurs. *)
Definition precedes (l : list string) (a b : string) : Prop :=
  exists i j : nat, (i < j)%nat /\ l !! i = Some a /\ l !! j = Some b.

(** What a load order of [ids] is: every id once, dependencies first. *)
Definition load_order (r : PluginRegistry.t) (ids order : list string) : Prop :=
  NoDup order
  /\ (forall id, id ∈ order <-> id ∈ ids)
  /\ (forall dep id, dep_edge r ids dep id -> precedes order dep id).

(** The edges (dependency, dependent) of the induced graph, with their
    multiplicity and in the order [resolveLoadOrder] adds them. *)
Definition edges_from (r : PluginRegistry.t) (ids l : list string)
  : list (string * string) :=
  flat_map (fun id => map (fun d => (d, id))
                        (List.filter (includes ids)
                           (PluginRegistry.getDependencies r id))) l.

Definition edges (r : PluginRegistry.t) (ids : list string)
  : list (string * string) :=
  edges_from r ids ids.

Definition add_edges (es : list (string * string)) (gi : PluginLoader.Graph)
  : PluginLoader.Graph :=
  fold_left (fun gi e => PluginLoader.add_edge (snd e) (fst e) gi) es gi.

(** [graph.get(u) || []] *)
Definition get_list (g : JsMap.t (list string)) (u : string) : list string :=
  default [] (JsMap.get g u).

Definition from (u : string) (e : string * string) : bool :=
  String.eqb (fst e) u.

Definition into (v : string) (e : string * string) : bool :=
  String.eqb (snd e) v.

(** Occurrences of [v] in [ns] *)
Definition occ (v : string) (ns : list string) : nat :=
  length (List.filter (String.eqb v) ns).

(** Edges into [v] whose source is not yet in [res] *)
Definition indeg (E : list (string * string)) (res : list string) (v : string)
  : nat :=
  length (List.filter (fun e => into v e && negb (includes res (fst e))) E).

(** [res] was built by appending nodes all of whose sources were already
    in it. *)
Inductive topo (E : list (string * string)) : list string -> Prop :=
| topo_nil : topo E []
| topo_snoc res c :
    topo E res -> (forall u, (u, c) ∈ E -> u ∈ res) -> topo E (res ++ [c]).

(** The invariant of the loop of Kahn's algorithm, on [inDegree], [queue]
    and [result]. *)
Record Inv (E : list (string * string)) (ids : list string)
  (d : JsMap.t Z) (q res : list string) : Prop := {
  inv_nodup : NoDup (res ++ q);
  inv_ids : forall v, v ∈ res ++ q -> v ∈ ids;
  inv_deg : forall v, v ∈ ids -> JsMap.get d v = Some (Z.of_nat (indeg E res v));
  inv_zero : forall v, v ∈ ids -> (v ∈ res ++ q <-> indeg E res v = O);
  inv_topo : topo E res
}.

Inductive path (edge : string -> string -> Prop) : list string -> Prop :=
| path_one x : path edge [x]
| path_cons x y l : edge x y -> path edge (y :: l) -> path edge (x :: y :: l).

(** A manifest with an id and required dependencies only *)
Definition manifest_of (id : string) (deps : list string) : Manifest :=
  {| m_id := id; m_dependencies := Some deps; m_optionalDependencies := None;
     m_conflicts := None; m_settings := None; m_hooks := None;
     m_init := None; m_start := None; m_stop := None; m_destroy := None |}.

(** The registry after registering the manifests in order *)
Definition registry_of (ms : list Manifest) : PluginRegistry.t :=
  fold_left (fun r m => snd (PluginRegistry.register m r)) ms
    (PluginRegistry.empty 0).

(** [{id: "a", dependencies: ["b"]}] and [{id: "b", dependencies: []}] *)
Definition registry_ab : PluginRegistry.t :=
  registry_of [manifest_of "a" ["b"]; manifest_of "b" []].

(** [a] and [b] depend on each other; [c] stands alone. *)
Definition registry_cyclic : PluginRegistry.t :=
  registry_of [manifest_of "a" ["b"]; manifest_of "b" ["a"]; manifest_of "c" []].

(** [a] and [b] depend on each other, [c] stands alone and [e] depends
    on [a]. *)
Definition registry_tail : PluginRegistry.t :=
  registry_of [manifest_of "a" ["b"]; manifest_of "b" ["a"];
               manifest_of "c" []; manifest_of "e" ["a"]].

(** ** Hooks *)

Definition priority_only (p : Z) : HookSystem.Options :=
  {| HookSystem.o_priority := Some p; HookSystem.o_once := None;
     HookSystem.o_plugin := None |}.

(** Three handlers on one hook, registered in this order with priorities
    10, 10 and 20; each returns a function of the data it is given. *)
Definition three_handlers (f1 f2 f3 : value -> value) : HookSystem.t :=
  let h1 := snd (HookSystem.register "hook" (returning (fun d => Some (f1 d)))
                   (priority_only 10) HookSystem.empty) in
  let h2 := snd (HookSystem.register "hook" (returning (fun d => Some (f2 d)))
                   (priority_only 10) h1) in
  snd (HookSystem.register "hook" (returning (fun d => Some (f3 d)))
         (priority_only 20) h2).

(** [{parallel: false}] *)
Definition sequential : HookSystem.EmitOptions :=
  {| HookSystem.parallel := Some false; HookSystem.cancelable := None |}.

Definition on_number (f : Z -> Z) (d : value) : value :=
  match d with VNum n => VNum (f n) | _ => d end.

(** ** Settings *)

(** [{x: {type: "number", default: 5}}] *)
Definition schema_x : Schema :=
  {[ "x" := {| sd_type := Some "number"; sd_default := Some (VNum 5);
               sd_enum := None; sd_min := None; sd_max := None;
               sd_validator := None |} ]}.



(** ** Lifecycle *)

Definition boom : exn := Error "boom".

(** A lifecycle method that throws *)
Definition fails : LifecycleFn :=
  {| lf_registers := []; lf_outcome := Throw boom |}.

Definition idle : Handler := returning (fun _ => None).

(** A module with two declared hooks whose [start] and [stop] throw. *)
Definition faulty : Manifest :=
  {| m_id := "p"; m_dependencies := None; m_optionalDependencies := None;
     m_conflicts := None; m_settings := None;
     m_hooks := Some [("first", idle); ("second", idle)];
     m_init := None; m_start := Some fails; m_stop := Some fails;
     m_destroy := None |}.

(** A module that declares the schema [schema_x] and nothing else. *)
Definition with_schema : Manifest :=
  {| m_id := "p"; m_dependencies := None; m_optionalDependencies := None;
     m_conflicts := None; m_settings := Some schema_x; m_hooks := None;
     m_init := None; m_start := None; m_stop := None; m_destroy := None |}.

(** The world in which [m] alone is registered, its instance is stored and
    its state is [s]; no hooks, the initial settings. *)
Definition loaded (m : Manifest) (s : PluginRegistry.State) : World :=
  let r := snd (PluginRegistry.register m (PluginRegistry.empty 0)) in
  {| registry := PluginRegistry.setState (m_id m) s
                   (PluginRegistry.setInstance (m_id m) m r);
     hooks := HookSystem.empty;
     settings := SettingsStore.initial;
     stateSnapshots := ∅ |}.

(** [faulty] is ACTIVE and its declared hooks are registered. *)
Definition running_faulty : World :=
  on_hooks (LifecycleManager._registerPluginHooks "p"
              [("first", idle); ("second", idle)])
    (loaded faulty PluginRegistry.ACTIVE).

(** ** Reconciliation *)




(** An initialized core over the world [w]; [inFlight] are its tokens. *)
Definition core_of (w : World) (inFlight : gset string) : FrameworkCore.t :=
  {| FrameworkCore.world := w; FrameworkCore.initialized := true;
     FrameworkCore.initializing := false; FrameworkCore.destroyed := false;
     FrameworkCore.pluginAPIs := ∅;
     FrameworkCore._operationsInFlight := inFlight;
     FrameworkCore.reconciled := [] |}.

Definition flag (b : bool) : SettingsStore.PluginData :=
  {| SettingsStore.enabled := Some (VBool b); SettingsStore.settings := None |}.



(** The notification that module [p] went from disabled to enabled. *)
Definition p_enabled : FrameworkCore.SettingsChange :=
  {| FrameworkCore.newValue :=
       Some {| FrameworkCore.ss_plugins := Some [("p", flag true)] |};
     FrameworkCore.oldValue :=
       Some {| FrameworkCore.ss_plugins := Some [("p", flag false)] |} |}.

(** ** IPC *)

(** What holds of every state the manager can be in. *)
Record wf (st : IPCManager.t) : Prop := {
  wf_timers : forall rid,
    is_Some (IPCManager.timers st !! rid)
    <-> is_Some (IPCManager.pendingRequests st !! rid);
  wf_pending : forall rid p,
    IPCManager.pendingRequests st !! rid = Some p ->
    IPCManager.p_timeout p = rid /\ IPCManager.promises st !! rid = None
    /\ (1 <= rid <= IPCManager.requestId st)%nat;
  wf_requested : forall rid,
    (1 <= rid <= IPCManager.requestId st)%nat ->
    is_Some (IPCManager.pendingRequests st !! rid)
    \/ is_Some (IPCManager.promises st !! rid);
  wf_settled : forall rid,
    is_Some (IPCManager.promises st !! rid) ->
    (1 <= rid <= IPCManager.requestId st)%nat;
  wf_listener :
    IPCManager.messageListener st = true -> IPCManager.runtime st = true;
  wf_destroyed :
    IPCManager.destroyed st = true ->
    IPCManager.pendingRequests st = ∅ /\ IPCManager.messageListener st = false
}.

(** [st] is destroyed, holds no pending request, no armed timer and no
    listener, and has settled and sent exactly what [st0] had. *)
Record quiet (st0 st : IPCManager.t) : Prop := {
  q_destroyed : IPCManager.destroyed st = true;
  q_pending : IPCManager.pendingRequests st = ∅;
  q_timers : IPCManager.timers st = ∅;
  q_listener : IPCManager.messageListener st = false;
  q_promises : IPCManager.promises st = IPCManager.promises st0;
  q_sent : IPCManager.sent st = IPCManager.sent st0;
  q_requestId : IPCManager.requestId st = IPCManager.requestId st0
}.

(** A live manager with one request on its way *)
Definition one_pending : IPCManager.t :=
  IPCManager.run [IPCManager.CallRequest "ping" None (Some 50) None]
    (IPCManager.create true None 0).

(** ** Settings: sequences of calls *)




(** The entry of [p], if there is one, has a [settings] object. *)
Definition has_settings (s : SettingsStore.t) (p : string) : Prop :=
  forall entry,
    SettingsStore.plugins (SettingsStore.doc s) !! p = Some entry ->
    is_Some (SettingsStore.settings entry).

(** Every key the schema declares is an ordinary name. *)
Definition ordinary_keys (schema : Schema) : Prop :=
  forall k, is_Some (schema !! k) -> ordinary k.

(** ** Registry *)

(** Nothing in the registry [r] names the id: it is in none of its maps and
    in no list of dependents. *)
Record unknown (r : PluginRegistry.t) (id : string) : Prop := {
  un_manifests : PluginRegistry.manifests r !! id = None;
  un_instances : PluginRegistry.instances r !! id = None;
  un_states : PluginRegistry.states r !! id = None;
  un_errors : PluginRegistry.errors r !! id = None;
  un_metadata : PluginRegistry.metadata r !! id = None;
  un_dependencies : PluginRegistry.dependencies r !! id = None;
  un_dependents : PluginRegistry.dependents r !! id = None;
  un_listed : forall d, id ∉ PluginRegistry.getDependents r d
}.

(** ** Loading *)

(** No plugin is ACTIVE: the registry before anything was started. *)
Definition no_active (r : PluginRegistry.t) : Prop :=
  forall x, PluginRegistry.getState r x <> PluginRegistry.ACTIVE.

(** The loader and the registry hold the same about the id [x]. *)
Definition same_at (x : string)
  (lr lr' : PluginLoader.t * PluginRegistry.t) : Prop :=
  PluginRegistry.states (snd lr') !! x = PluginRegistry.states (snd lr) !! x
  /\ PluginRegistry.errors (snd lr') !! x = PluginRegistry.errors (snd lr) !! x
  /\ PluginRegistry.instances (snd lr') !! x
     = PluginRegistry.instances (snd lr) !! x
  /\ PluginLoader.pluginModules (fst lr') !! x
     = PluginLoader.pluginModules (fst lr) !! x.

(** What loading makes of a discovered, not yet loaded plugin with the
    manifest [m] when no plugin is ACTIVE. *)
Definition load_outcome (imports : PluginLoader.Imports)
  (info : PluginLoader.ModuleInfo) (m : Manifest) (id : string)
  (lr : PluginLoader.t * PluginRegistry.t) : Prop :=
  match default [] (m_dependencies m) with
  | _ :: _ =>
      PluginRegistry.getState (snd lr) id = PluginRegistry.ERROR
      /\ PluginRegistry.getError (snd lr) id
         = Some (Error ("Missing required dependencies: "
                        +:+ join ", " (default [] (m_dependencies m))))
      /\ PluginLoader.isLoaded (fst lr) id = false
  | [] =>
      match imports (PluginLoader.modulePath (PluginLoader.mi_path info)) with
      | Normal inst =>
          PluginRegistry.getState (snd lr) id = PluginRegistry.LOADED
          /\ PluginRegistry.getInstance (snd lr) id = inst
          /\ PluginLoader.isLoaded (fst lr) id = true
      | Throw e =>
          PluginRegistry.getState (snd lr) id = PluginRegistry.ERROR
          /\ PluginRegistry.getError (snd lr) id = Some e
          /\ PluginLoader.isLoaded (fst lr) id = false
      end
  end.

(** A loader that discovered the plugins [ids], each at the path of its
    id, and loaded none. *)
Definition discovered (ids : list string) : PluginLoader.t :=
  {| PluginLoader.pluginModules :=
       list_to_map
         (map (fun id => (id, {| PluginLoader.mi_path := id;
                                 PluginLoader.mi_loaded := false |})) ids);
     PluginLoader.loadedPaths := ∅ |}.

(** ** Commands of the framework core *)

(** The computation leaves the set of operation tokens as it found it. *)
Definition keeps_in_flight {A} (m : M FrameworkCore.t A) : Prop :=
  forall c, FrameworkCore._operationsInFlight (snd (m c))
            = FrameworkCore._operationsInFlight c.

(** ** Hooks: sequences of calls *)

(** A call made on the hook system; [DoUnregister] is a call of the function
    that [register] returned, or of [_unregister] itself. *)
Inductive HookCall :=
| DoRegister (hookName : string) (handler : Handler)
             (options : HookSystem.Options)
| DoUnregister (hookName : string) (handlerId : nat)
| DoUnregisterPlugin (pluginId : string)
| DoEmit (hookName : string) (data : option value)
         (options : HookSystem.EmitOptions).

Definition hook_call (h : HookSystem.t) (c : HookCall) : HookSystem.t :=
  match c with
  | DoRegister hookName handler options =>
      snd (HookSystem.register hookName handler options h)
  | DoUnregister hookName handlerId =>
      HookSystem._unregister hookName handlerId h
  | DoUnregisterPlugin pluginId => HookSystem.unregisterPlugin pluginId h
  | DoEmit hookName data options =>
      snd (HookSystem.emit hookName data options h)
  end.

(** The hook system after the calls [cs], made on a new one. *)
Definition hook_calls (cs : list HookCall) : HookSystem.t :=
  fold_left hook_call cs HookSystem.empty.

(** [a] has a lower priority number than [b], or the same one and was
    registered earlier. *)
Definition runs_before (a b : HookSystem.Entry) : Prop :=
  (HookSystem.e_priority a < HookSystem.e_priority b)%Z
  \/ (HookSystem.e_priority a = HookSystem.e_priority b
      /\ (HookSystem.e_id a < HookSystem.e_id b)%nat).

Fixpoint in_call_order (l : list HookSystem.Entry) : Prop :=
  match l with
  | [] => True
  | a :: rest => Forall (runs_before a) rest /\ in_call_order rest
  end.

(** The numbers go up strictly. *)
Fixpoint ascending (l : list Z) : Prop :=
  match l with
  | [] => True
  | a :: rest => Forall (Z.lt a) rest /\ ascending rest
  end.

(** What holds of every state of the hook system. *)
Record hooks_wf (h : HookSystem.t) : Prop := {
  hw_order : forall hookName l,
    HookSystem.hooks h !! hookName = Some l -> l <> [] /\ in_call_order l;
  hw_distinct : forall hookName l,
    HookSystem.hooks h !! hookName = Some l ->
    NoDup (map HookSystem.e_id l);
  hw_fresh : forall hookName l,
    HookSystem.hooks h !! hookName = Some l ->
    Forall (fun e => (HookSystem.e_id e < HookSystem.nextSymbol h)%nat) l;
  hw_tracked : forall pluginId l,
    HookSystem.pluginHooks h !! pluginId = Some l ->
    Forall (fun x => (snd x < HookSystem.nextSymbol h)%nat) l
}.

(** What one handler of a filter hook makes of the data: the value it
    returns, or the data as it was when it returns [undefined] or throws. *)
Definition filter_step (d : value) (e : HookSystem.Entry) : value :=
  match out_result (HookSystem.e_handler e d) with
  | Normal (Some v) => v
  | _ => d
  end.

(** [this.hooks.get(hookName) || []] *)
Definition handlers_of (h : HookSystem.t) (hookName : string)
  : list HookSystem.Entry :=
  default [] (HookSystem.hooks h !! hookName).

(** The ids of the handlers registered for a hook, in list order. *)
Definition handler_ids (h : HookSystem.t) (hookName : string) : list nat :=
  map HookSystem.e_id (handlers_of h hookName).

(** * Proofs *)

(** ** Facts about insertion-ordered maps *)

Section JsMapFacts.
Context {V : Type}.
Implicit Types (m : JsMap.t V) (k : string) (v : V).

Lemma get_set_eq m k v : JsMap.get (JsMap.set m k v) k = Some v.
Proof.
  induction m as [|[k' v'] m IH]; simpl.
  - by rewrite String.eqb_refl.
  - destruct (String.eqb k' k) eqn:E; simpl; rewrite E; auto.
Qed.

Lemma get_set_ne m k k' v :
  k <> k' -> JsMap.get (JsMap.set m k v) k' = JsMap.get m k'.
Proof.
  intros Hne. induction m as [|[k0 v0] m IH]; simpl.
  - apply String.eqb_neq in Hne. by rewrite Hne.
  - destruct (String.eqb k0 k) eqn:E; simpl.
    + apply String.eqb_eq in E. subst k0.
      apply String.eqb_neq in Hne. by rewrite Hne.
    + by rewrite IH.
Qed.

Lemma get_set m k k' v :
  JsMap.get (JsMap.set m k v) k'
  = if String.eqb k k' then Some v else JsMap.get m k'.
Proof.
  destruct (String.eqb k k') eqn:E.
  - apply String.eqb_eq in E. subst. apply get_set_eq.
  - apply String.eqb_neq in E. by apply get_set_ne.
Qed.

Lemma get_Some_elem m k v : JsMap.get m k = Some v -> (k, v) ∈ m.
Proof.
  induction m as [|[k' v'] m IH]; simpl; [done|].
  destruct (String.eqb k' k) eqn:E.
  - apply String.eqb_eq in E. intros [= ->]. subst. left.
  - intros H. right. auto.
Qed.

Lemma get_None_keys m k : JsMap.get m k = None <-> k ∉ JsMap.keys m.
Proof.
  induction m as [|[k' v'] m IH]; simpl.
  - split; [|done]. intros _ ?%elem_of_nil. done.
  - rewrite not_elem_of_cons.
    destruct (String.eqb k' k) eqn:E.
    + apply String.eqb_eq in E. split; [done|]. by intros [? _].
    + apply String.eqb_neq in E. rewrite IH. naive_solver.
Qed.

Lemma get_Some_keys m k : is_Some (JsMap.get m k) <-> k ∈ JsMap.keys m.
Proof.
  rewrite <- not_eq_None_Some, get_None_keys.
  split; [apply dec_stable | naive_solver].
Qed.

Lemma elem_get_NoDup m k v :
  NoDup (JsMap.keys m) -> (k, v) ∈ m -> JsMap.get m k = Some v.
Proof.
  induction m as [|[k' v'] m IH]; simpl.
  - by intros _ ?%elem_of_nil.
  - intros [Hnotin Hnd]%NoDup_cons [Hin|Hin]%elem_of_cons.
    + injection Hin as -> ->. by rewrite String.eqb_refl.
    + destruct (String.eqb k' k) eqn:E; [|auto].
      apply String.eqb_eq in E. subst k'. exfalso. apply Hnotin.
      unfold JsMap.keys. apply list_elem_of_fmap. by exists (k, v).
Qed.

Lemma keys_set m k v x :
  x ∈ JsMap.keys (JsMap.set m k v) <-> x = k \/ x ∈ JsMap.keys m.
Proof.
  induction m as [|[k' v'] m IH]; simpl.
  - rewrite elem_of_cons. naive_solver.
  - destruct (String.eqb k' k) eqn:E; simpl.
    + apply String.eqb_eq in E. subst. rewrite !elem_of_cons. naive_solver.
    + rewrite !elem_of_cons, IH. naive_solver.
Qed.

Lemma NoDup_keys_set m k v :
  NoDup (JsMap.keys m) -> NoDup (JsMap.keys (JsMap.set m k v)).
Proof.
  induction m as [|[k' v'] m IH]; simpl; intros Hnd.
  - apply NoDup_singleton.
  - apply NoDup_cons in Hnd as [Hnotin Hnd].
    destruct (String.eqb k' k) eqn:E; simpl.
    + by apply NoDup_cons.
    + apply NoDup_cons. split; [|auto].
      rewrite keys_set. intros [->|?]; [|done].
      by rewrite String.eqb_refl in E.
Qed.
End JsMapFacts.

Lemma includes_elem l x : includes l x = true <-> x ∈ l.
Proof.
  unfold includes. rewrite existsb_exists, list_elem_of_In. split.
  - intros (y & Hy & E). apply String.eqb_eq in E. by subst.
  - intros H. exists x. by rewrite String.eqb_refl.
Qed.

Lemma includes_false l x : includes l x = false <-> x ∉ l.
Proof. rewrite <- includes_elem. destruct (includes l x); naive_solver. Qed.

Lemma elem_filter {A} (p : A -> bool) l x :
  x ∈ List.filter p l <-> x ∈ l /\ p x = true.
Proof. rewrite !list_elem_of_In. apply filter_In. Qed.

(** ** The graph built by [resolveLoadOrder] *)

Section Build.
Variables (r : PluginRegistry.t) (ids : list string).

Lemma elem_edges_from l d id :
  (d, id) ∈ edges_from r ids l
  <-> id ∈ l /\ d ∈ ids /\ d ∈ PluginRegistry.getDependencies r id.
Proof.
  unfold edges_from. rewrite list_elem_of_In, in_flat_map. split.
  - intros (x & Hx & Hin). apply in_map_iff in Hin as (y & [= <- <-] & Hy).
    apply filter_In in Hy as [Hy Hinc].
    apply includes_elem, list_elem_of_In in Hinc. rewrite !list_elem_of_In. done.
  - intros (H1 & H2 & H3). exists id. split; [by apply list_elem_of_In|].
    apply in_map_iff. exists d. split; [done|].
    apply filter_In. split; [by apply list_elem_of_In | by apply includes_elem].
Qed.

Lemma build_edges_inner id deps gi :
  fold_left (fun gi depId =>
               if includes ids depId then PluginLoader.add_edge id depId gi
               else gi) deps gi
  = add_edges (map (fun d => (d, id)) (List.filter (includes ids) deps)) gi.
Proof.
  revert gi. induction deps as [|d deps IH]; intros gi; simpl; [done|].
  destruct (includes ids d); simpl; by rewrite IH.
Qed.

Lemma build_edges_from l gi :
  fold_left
    (fun gi id =>
       fold_left (fun gi depId =>
                    if includes ids depId then PluginLoader.add_edge id depId gi
                    else gi)
                 (PluginRegistry.getDependencies r id) gi) l gi
  = add_edges (edges_from r ids l) gi.
Proof.
  revert gi. induction l as [|id l IH]; intros gi; simpl; [done|].
  unfold add_edges. rewrite fold_left_app. fold (add_edges (edges_from r ids l)).
  rewrite IH. f_equal. apply build_edges_inner.
Qed.

Lemma build_edges_eq gi :
  PluginLoader.build_edges r ids gi = add_edges (edges r ids) gi.
Proof. apply build_edges_from. Qed.
End Build.

Lemma add_edges_graph es gi u :
  get_list (fst (add_edges es gi)) u
  = (get_list (fst gi) u ++ map snd (List.filter (from u) es))%list.
Proof.
  revert gi. induction es as [|[d id] es IH]; intros gi; simpl.
  - by rewrite app_nil_r.
  - rewrite IH. unfold PluginLoader.add_edge, from at 2. simpl.
    set (graph1 := if JsMap.has (fst gi) d then fst gi else JsMap.set (fst gi) d []).
    assert (Hg1 : forall x, get_list graph1 x = get_list (fst gi) x).
    { intros x. unfold graph1, JsMap.has, get_list.
      destruct (JsMap.get (fst gi) d) eqn:E; [done|].
      rewrite get_set. destruct (String.eqb d x) eqn:Ex; [|done].
      apply String.eqb_eq in Ex. subst. by rewrite E. }
    unfold get_list at 1. rewrite get_set.
    destruct (String.eqb d u) eqn:Ex; simpl.
    + apply String.eqb_eq in Ex. subst.
      fold (get_list graph1 u). rewrite Hg1. by rewrite <- app_assoc.
    + fold (get_list graph1 u). by rewrite Hg1.
Qed.

Lemma add_edges_degree es gi v :
  default 0 (JsMap.get (snd (add_edges es gi)) v)
  = default 0 (JsMap.get (snd gi) v)
    + Z.of_nat (length (List.filter (into v) es)).
Proof.
  revert gi. induction es as [|[d id] es IH]; intros gi; simpl.
  - lia.
  - rewrite IH. unfold PluginLoader.add_edge, into at 2. simpl.
    rewrite get_set. destruct (String.eqb id v) eqn:Ex; simpl.
    + apply String.eqb_eq in Ex. subst. lia.
    + lia.
Qed.

Lemma add_edges_keys es gi x :
  x ∈ JsMap.keys (snd (add_edges es gi))
  <-> x ∈ JsMap.keys (snd gi) \/ exists d, (d, x) ∈ es.
Proof.
  revert gi. induction es as [|[d id] es IH]; intros gi; simpl.
  - split; [auto|]. intros [?|[d H]]; [done|]. by apply elem_of_nil in H.
  - rewrite IH. unfold PluginLoader.add_edge. simpl. rewrite keys_set.
    split.
    + intros [[->|?]|[d' ?]]; [right; exists d; left | by left
                              | right; exists d'; by right].
    + intros [?|[d' [[= -> ->]|?]%elem_of_cons]];
        [left; by right | left; by left | right; by exists d'].
Qed.

Lemma add_edges_NoDup es gi :
  NoDup (JsMap.keys (snd gi)) -> NoDup (JsMap.keys (snd (add_edges es gi))).
Proof.
  revert gi. induction es as [|[d id] es IH]; intros gi H; simpl; [done|].
  apply IH. unfold PluginLoader.add_edge. simpl. by apply NoDup_keys_set.
Qed.

Lemma init_graph_spec l gi :
  let gi' := fold_left (fun (gi : PluginLoader.Graph) id =>
                          (JsMap.set (fst gi) id [], JsMap.set (snd gi) id 0))
                       l gi in
  (forall u, get_list (fst gi') u = if includes l u then [] else get_list (fst gi) u)
  /\ (forall v, JsMap.get (snd gi') v
                = if includes l v then Some 0 else JsMap.get (snd gi) v)
  /\ (forall x, x ∈ JsMap.keys (snd gi') <-> x ∈ JsMap.keys (snd gi) \/ x ∈ l)
  /\ (NoDup (JsMap.keys (snd gi)) -> NoDup (JsMap.keys (snd gi'))).
Proof.
  revert gi. induction l as [|id l IH]; intros gi; simpl.
  - repeat split; auto. intros [?|?%elem_of_nil]; done.
  - destruct (IH (JsMap.set (fst gi) id [], JsMap.set (snd gi) id 0))
      as (H1 & H2 & H3 & H4). simpl in *.
    repeat split.
    + intros u. rewrite H1. unfold includes. simpl.
      fold (includes l u). destruct (includes l u); [by rewrite orb_true_r|].
      rewrite orb_false_r. unfold get_list. rewrite get_set.
      rewrite (String.eqb_sym u id). by destruct (String.eqb id u).
    + intros v. rewrite H2. unfold includes. simpl.
      fold (includes l v). destruct (includes l v); [by rewrite orb_true_r|].
      rewrite orb_false_r. rewrite get_set.
      rewrite (String.eqb_sym v id). by destruct (String.eqb id v).
    + rewrite H3, keys_set, elem_of_cons. naive_solver.
    + rewrite H3, keys_set, elem_of_cons. naive_solver.
    + intros Hnd. apply H4. by apply NoDup_keys_set.
Qed.

Section Built.
Variables (r : PluginRegistry.t) (ids : list string).
Let gi := PluginLoader.build_edges r ids (PluginLoader.init_graph ids).

Lemma built_graph u :
  get_list (fst gi) u = map snd (List.filter (from u) (edges r ids)).
Proof.
  unfold gi. rewrite build_edges_eq, add_edges_graph.
  destruct (init_graph_spec ids ([], [])) as (H1 & _). simpl in H1.
  unfold PluginLoader.init_graph. rewrite H1.
  by destruct (includes ids u).
Qed.

Lemma built_degree v :
  v ∈ ids ->
  JsMap.get (snd gi) v
  = Some (Z.of_nat (length (List.filter (into v) (edges r ids)))).
Proof.
  intros Hv.
  pose proof (add_edges_degree (edges r ids) (PluginLoader.init_graph ids) v) as Hd.
  destruct (init_graph_spec ids ([], [])) as (_ & H2 & H3 & _). simpl in *.
  fold (PluginLoader.init_graph ids) in H2, H3.
  rewrite H2 in Hd. apply includes_elem in Hv as Hv'. rewrite Hv' in Hd.
  simpl in Hd. unfold gi. rewrite build_edges_eq.
  destruct (JsMap.get (snd (add_edges (edges r ids) (PluginLoader.init_graph ids))) v)
    eqn:E; simpl in Hd.
  - by rewrite Hd.
  - exfalso. apply get_None_keys in E. apply E.
    apply add_edges_keys. left. apply H3. by right.
Qed.

Lemma built_keys x : x ∈ JsMap.keys (snd gi) <-> x ∈ ids.
Proof.
  unfold gi. rewrite build_edges_eq, add_edges_keys.
  destruct (init_graph_spec ids ([], [])) as (_ & _ & H3 & _). simpl in *.
  fold (PluginLoader.init_graph ids) in H3. rewrite H3. split.
  - intros [[?%elem_of_nil|?]|[d Hd]]; [done|done|].
    by apply elem_edges_from in Hd as (? & _).
  - intros. left. by right.
Qed.

Lemma built_NoDup : NoDup (JsMap.keys (snd gi)).
Proof.
  unfold gi. rewrite build_edges_eq. apply add_edges_NoDup.
  destruct (init_graph_spec ids ([], [])) as (_ & _ & _ & H4). simpl in *.
  apply H4. constructor.
Qed.
End Built.

(** ** The loop of Kahn's algorithm *)

Lemma occ_pos v ns : (0 < occ v ns)%nat <-> v ∈ ns.
Proof.
  unfold occ. induction ns as [|n ns IH]; simpl.
  - split; [lia|]. by intros ?%elem_of_nil.
  - rewrite elem_of_cons. destruct (String.eqb v n) eqn:E; simpl.
    + apply String.eqb_eq in E. split; [auto | lia].
    + apply String.eqb_neq in E. rewrite IH. naive_solver.
Qed.

Lemma relax_keeps_degree st n v :
  is_Some (JsMap.get (fst st) v) ->
  is_Some (JsMap.get (fst (PluginLoader.relax st n)) v).
Proof.
  intros Hv. unfold PluginLoader.relax.
  destruct (JsMap.get (fst st) n) as [z|] eqn:Hz; [|done].
  destruct (Z.eqb (z - 1) 0); simpl; rewrite get_set;
    by destruct (String.eqb n v).
Qed.

Lemma relax_fold_keeps_degree ns : forall st v,
  is_Some (JsMap.get (fst st) v) ->
  is_Some (JsMap.get (fst (fold_left PluginLoader.relax ns st)) v).
Proof.
  induction ns as [|n ns IH]; intros st v Hv; simpl; [done|].
  by apply IH, relax_keeps_degree.
Qed.

Lemma relax_fold ns : forall d q,
  (forall v, v ∈ ns -> exists z, JsMap.get d v = Some z /\ Z.of_nat (occ v ns) <= z) ->
  let st := fold_left PluginLoader.relax ns (d, q) in
  (forall v, JsMap.get (fst st) v
             = (fun z => z - Z.of_nat (occ v ns)) <$> JsMap.get d v)
  /\ exists L, snd st = (q ++ L)%list /\ NoDup L
               /\ (forall v, v ∈ L <-> v ∈ ns
                                      /\ JsMap.get d v = Some (Z.of_nat (occ v ns))).
Proof.
  induction ns as [|n ns IH]; intros d q Hpre; simpl.
  - split.
    + intros v. unfold occ. destruct (JsMap.get d v); simpl; [f_equal; lia | done].
    + exists []. rewrite app_nil_r. split; [done|]. split; [apply NoDup_nil_2|].
      intros v. split; [by intros ?%elem_of_nil | by intros [?%elem_of_nil _]].
  - destruct (Hpre n) as (z & Hz & Hle); [left|].
    assert (Hocc : occ n (n :: ns) = S (occ n ns)).
    { unfold occ. simpl. by rewrite String.eqb_refl. }
    rewrite Hocc in Hle.
    set (d1 := JsMap.set d n (z - 1)).
    assert (Hr : PluginLoader.relax (d, q) n
                 = if Z.eqb (z - 1) 0 then (d1, (q ++ [n])%list) else (d1, q)).
    { unfold PluginLoader.relax. simpl. by rewrite Hz. }
    rewrite Hr. clear Hr.
    assert (Hpre1 : forall v, v ∈ ns ->
              exists z', JsMap.get d1 v = Some z' /\ Z.of_nat (occ v ns) <= z').
    { intros v Hv. unfold d1. rewrite get_set.
      destruct (String.eqb n v) eqn:E.
      - apply String.eqb_eq in E. subst. exists (z - 1). split; [done | lia].
      - destruct (Hpre v) as (z' & Hz' & Hle'); [by right|].
        exists z'. split; [done|]. revert Hle'. unfold occ. simpl.
        rewrite String.eqb_sym, E. done. }
    assert (Hget : forall v,
              (fun z => z - Z.of_nat (occ v ns)) <$> JsMap.get d1 v
              = (fun z => z - Z.of_nat (occ v (n :: ns))) <$> JsMap.get d v).
    { intros v. unfold d1. rewrite get_set.
      destruct (String.eqb n v) eqn:E.
      - apply String.eqb_eq in E. subst. rewrite Hz, Hocc. simpl. f_equal. lia.
      - unfold occ. simpl. rewrite String.eqb_sym, E. done. }
    destruct (Z.eqb (z - 1) 0) eqn:Ez.
    + apply Z.eqb_eq in Ez.
      assert (Hn : n ∉ ns). { rewrite <- occ_pos. lia. }
      destruct (IH d1 (q ++ [n])%list Hpre1) as (H1 & L & HL & Hnd & Hin).
      split; [intros v; by rewrite H1, Hget|].
      exists (n :: L). rewrite HL, <- app_assoc. split; [done|].
      split.
      * apply NoDup_cons. split; [|done]. rewrite Hin. naive_solver.
      * intros v. rewrite !elem_of_cons, Hin. unfold d1. rewrite get_set.
        destruct (String.eqb n v) eqn:E.
        -- apply String.eqb_eq in E. subst v. rewrite Hz, Hocc.
           split; [intros _|auto]. split; [by left|].
           f_equal. apply occ_pos in Hn || idtac.
           assert (occ n ns = O) by (destruct (occ n ns) eqn:?; [done|];
                                     exfalso; apply Hn, occ_pos; lia).
           lia.
        -- apply String.eqb_neq in E.
           assert (occ v (n :: ns) = occ v ns) as ->.
           { unfold occ. simpl. apply String.eqb_neq in E.
             by rewrite String.eqb_sym, E. }
           naive_solver.
    + apply Z.eqb_neq in Ez.
      destruct (IH d1 q Hpre1) as (H1 & L & HL & Hnd & Hin).
      split; [intros v; by rewrite H1, Hget|].
      exists L. split; [done|]. split; [done|].
      intros v. rewrite Hin, elem_of_cons. unfold d1. rewrite get_set.
      destruct (String.eqb n v) eqn:E.
      * apply String.eqb_eq in E. subst v. rewrite Hz, Hocc. split.
        -- intros [Hv [= Hzz]]. split; [by right|]. f_equal. lia.
        -- intros [_ [= Hzz]]. split; [|f_equal; lia].
           apply occ_pos. lia.
      * apply String.eqb_neq in E.
        assert (occ v (n :: ns) = occ v ns) as ->.
        { unfold occ. simpl. apply String.eqb_neq in E.
          by rewrite String.eqb_sym, E. }
        naive_solver.
Qed.

Lemma occ_neighbors E c v :
  occ v (map snd (List.filter (from c) E))
  = length (List.filter (fun e => from c e && into v e) E).
Proof.
  unfold occ. induction E as [|[a b] E IH]; simpl; [done|].
  change (from c (a, b)) with (String.eqb a c).
  change (into v (a, b)) with (String.eqb b v).
  destruct (String.eqb a c); simpl; [|done].
  rewrite (String.eqb_sym v b). destruct (String.eqb b v); simpl; by rewrite IH.
Qed.

Lemma includes_snoc res c x :
  includes (res ++ [c]) x = includes res x || String.eqb x c.
Proof. unfold includes. rewrite existsb_app. simpl. by rewrite orb_false_r. Qed.

Lemma indeg_snoc E res c v :
  c ∉ res ->
  (indeg E (res ++ [c]) v
   + length (List.filter (fun e => from c e && into v e) E))%nat
  = indeg E res v.
Proof.
  intros Hc. apply includes_false in Hc. unfold indeg.
  induction E as [|[a b] E IH]; simpl; [done|].
  change (from c (a, b)) with (String.eqb a c).
  change (into v (a, b)) with (String.eqb b v).
  rewrite includes_snoc.
  destruct (String.eqb b v); simpl.
  - destruct (String.eqb a c) eqn:Ea; simpl.
    + apply String.eqb_eq in Ea. subst a. rewrite Hc. simpl. lia.
    + rewrite orb_false_r. destruct (includes res a); simpl; lia.
  - rewrite andb_false_r. lia.
Qed.

Lemma indeg_zero E res v :
  indeg E res v = O <-> forall u, (u, v) ∈ E -> u ∈ res.
Proof.
  unfold indeg. induction E as [|[a b] E IH]; simpl.
  - split; [|done]. by intros _ u ?%elem_of_nil.
  - change (into v (a, b)) with (String.eqb b v).
    destruct (String.eqb b v) eqn:Eb; simpl.
    + apply String.eqb_eq in Eb. subst b.
      destruct (includes res a) eqn:Ea; simpl.
      * apply includes_elem in Ea. rewrite IH. split.
        -- intros H u [[= ->]|?]%elem_of_cons; auto.
        -- intros H u Hu. apply H. by right.
      * apply includes_false in Ea. split; [done|].
        intros H. exfalso. apply Ea, H. left.
    + apply String.eqb_neq in Eb. rewrite IH. split.
      * intros H u [[= -> ->]|?]%elem_of_cons; [done | auto].
      * intros H u Hu. apply H. by right.
Qed.

Lemma indeg_pos E res v :
  indeg E res v <> O -> exists u, (u, v) ∈ E /\ u ∉ res.
Proof.
  unfold indeg. induction E as [|[a b] E IH]; simpl; [done|].
  change (into v (a, b)) with (String.eqb b v).
  destruct (String.eqb b v) eqn:Eb; simpl.
  - apply String.eqb_eq in Eb. subst b.
    destruct (includes res a) eqn:Ea; simpl.
    + intros H. destruct (IH H) as (u & ? & ?). exists u. split; [by right|done].
    + intros _. exists a. split; [left | by apply includes_false].
  - intros H. destruct (IH H) as (u & ? & ?). exists u. split; [by right|done].
Qed.

Section Loop.
Variables (E : list (string * string)) (ids : list string)
          (g : JsMap.t (list string)).
Hypothesis E_ids : forall u v, (u, v) ∈ E -> u ∈ ids /\ v ∈ ids.
Hypothesis g_E : forall u, get_list g u = map snd (List.filter (from u) E).

Lemma neighbor_edge c v : v ∈ get_list g c <-> (c, v) ∈ E.
Proof.
  rewrite g_E, list_elem_of_fmap. split.
  - intros ([a b] & -> & H). apply elem_filter in H as [H Ha].
    unfold from in Ha. simpl in *. apply String.eqb_eq in Ha. by subst.
  - intros H. exists (c, v). split; [done|]. apply elem_filter. split; [done|].
    unfold from. simpl. apply String.eqb_refl.
Qed.

(** Every neighbor the loop body relaxes has an entry in [inDegree] at
    that moment: the last case of [relax] is never reached. *)
Lemma neighbors_have_degree d c rest res ns1 n ns2 :
  Inv E ids d (c :: rest) res ->
  get_list g c = (ns1 ++ n :: ns2)%list ->
  is_Some (JsMap.get (fst (fold_left PluginLoader.relax ns1 (d, rest))) n).
Proof.
  intros HI Hc. apply relax_fold_keeps_degree. simpl.
  assert (Hn : n ∈ get_list g c).
  { rewrite Hc, elem_of_app, elem_of_cons. auto. }
  apply neighbor_edge, E_ids in Hn as [_ Hn].
  by rewrite (inv_deg _ _ _ _ _ HI n Hn).
Qed.

Lemma step_inv d c rest res :
  Inv E ids d (c :: rest) res ->
  let st := fold_left PluginLoader.relax (get_list g c) (d, rest) in
  Inv E ids (fst st) (snd st) (res ++ [c]).
Proof.
  intros [Hnd Hids Hdeg Hzero Htopo] st.
  assert (Hc : c ∉ res).
  { apply NoDup_app in Hnd as (_ & Hdisj & _). intros Hin.
    apply (Hdisj c Hin). left. }
  assert (Hcnt : forall v,
             (indeg E (res ++ [c]) v + occ v (get_list g c))%nat = indeg E res v).
  { intros v. rewrite g_E, occ_neighbors. by apply indeg_snoc. }
  destruct (relax_fold (get_list g c) d rest) as (Hd & L & HL & HndL & HinL).
  { intros v Hv. apply neighbor_edge in Hv. destruct (E_ids _ _ Hv) as [_ Hvi].
    exists (Z.of_nat (indeg E res v)). split; [by apply Hdeg|].
    specialize (Hcnt v). lia. }
  fold st in Hd, HL.
  assert (HL' : forall v, v ∈ L <-> v ∈ get_list g c
                                    /\ indeg E (res ++ [c]) v = O).
  { intros v. rewrite HinL. split.
    - intros [Hv Hget]. split; [done|].
      apply neighbor_edge in Hv as Hv'. destruct (E_ids _ _ Hv') as [_ Hvi].
      rewrite (Hdeg v Hvi) in Hget. injection Hget as Hget.
      specialize (Hcnt v). lia.
    - intros [Hv Hz]. split; [done|].
      apply neighbor_edge in Hv as Hv'. destruct (E_ids _ _ Hv') as [_ Hvi].
      rewrite (Hdeg v Hvi). f_equal. specialize (Hcnt v). lia. }
  assert (Hc0 : indeg E res c = O).
  { apply Hzero; [apply Hids|]; apply elem_of_app; right; left. }
  split.
  - rewrite HL, <- app_assoc. simpl.
    apply NoDup_app in Hnd as (Hnd1 & Hdisj & Hnd2).
    apply NoDup_cons in Hnd2 as [Hcr Hnd2].
    apply NoDup_app. split; [done|]. split.
    + intros x Hx [->|Hx']%elem_of_cons; [done|].
      apply elem_of_app in Hx' as [Hx'|Hx'].
      * apply (Hdisj x Hx). by right.
      * apply HL' in Hx' as [Hx1 Hx2].
        apply neighbor_edge in Hx1 as He. destruct (E_ids _ _ He) as [_ Hxi].
        apply occ_pos in Hx1. specialize (Hcnt x).
        assert (x ∈ res ++ c :: rest) as Hin by (apply elem_of_app; by left).
        apply Hzero in Hin; [lia | done].
    + apply NoDup_cons. split.
      * intros [Hx|Hx]%elem_of_app; [done|].
        apply HL' in Hx as [Hx1 _]. apply occ_pos in Hx1.
        specialize (Hcnt c). lia.
      * apply NoDup_app. split; [done|]. split; [|done].
        intros x Hx Hx'. apply HL' in Hx' as [Hx1 Hx2].
        apply neighbor_edge in Hx1 as He. destruct (E_ids _ _ He) as [_ Hxi].
        apply occ_pos in Hx1. specialize (Hcnt x).
        assert (x ∈ res ++ c :: rest) as Hin
            by (apply elem_of_app; right; by right).
        apply Hzero in Hin; [lia | done].
  - intros v. rewrite HL, <- app_assoc. simpl.
    intros [Hv|[->|[Hv|Hv]%elem_of_app]%elem_of_cons]%elem_of_app.
    + apply Hids, elem_of_app. by left.
    + apply Hids, elem_of_app. right. left.
    + apply Hids, elem_of_app. right. by right.
    + apply HL' in Hv as [Hv _]. apply neighbor_edge in Hv.
      by destruct (E_ids _ _ Hv).
  - intros v Hv. rewrite Hd, (Hdeg v Hv). simpl. f_equal.
    specialize (Hcnt v). lia.
  - intros v Hv. rewrite HL, <- app_assoc. simpl. split.
    + intros [Hin|[->|[Hin|Hin]%elem_of_app]%elem_of_cons]%elem_of_app.
      * assert (v ∈ res ++ c :: rest) as Hin' by (apply elem_of_app; by left).
        apply Hzero in Hin'; [|done]. specialize (Hcnt v). lia.
      * specialize (Hcnt c). lia.
      * assert (v ∈ res ++ c :: rest) as Hin'
            by (apply elem_of_app; right; by right).
        apply Hzero in Hin'; [|done]. specialize (Hcnt v). lia.
      * by apply HL' in Hin as [_ ?].
    + intros Hz. specialize (Hcnt v).
      destruct (occ v (get_list g c)) eqn:Eo.
      * assert (v ∈ res ++ c :: rest) as Hin by (apply Hzero; [done | lia]).
        apply elem_of_app in Hin as [Hin|[->|Hin]%elem_of_cons].
        -- apply elem_of_app. by left.
        -- apply elem_of_app. right. left.
        -- apply elem_of_app. right. right. apply elem_of_app. by left.
      * apply elem_of_app. right. right. apply elem_of_app. right.
        apply HL'. split; [|done]. apply occ_pos. lia.
  - constructor; [done|]. by apply indeg_zero.
Qed.

Lemma Inv_length d q res :
  Inv E ids d q res -> (length res + length q <= length ids)%nat.
Proof.
  intros [Hnd Hids _ _ _]. rewrite <- length_app.
  apply submseteq_length, NoDup_submseteq; [done|]. apply Hids.
Qed.

Lemma kahn_inv fuel : forall d q res,
  Inv E ids d q res ->
  (length ids <= length res + fuel)%nat ->
  exists result d',
    PluginLoader.kahn fuel g d q res = Some result /\ Inv E ids d' [] result.
Proof.
  induction fuel as [|fuel IH]; intros d q res HI Hlen.
  - destruct q as [|c rest]; simpl; [by exists res, d|].
    apply Inv_length in HI. simpl in HI. lia.
  - destruct q as [|c rest]; simpl; [by exists res, d|].
    fold (get_list g c). apply IH.
    + by apply step_inv.
    + rewrite length_app. simpl. lia.
Qed.
End Loop.

(** ** The result of the loop *)

Lemma initial_queue_spec d :
  NoDup (JsMap.keys d) ->
  NoDup (PluginLoader.initial_queue d)
  /\ forall v, v ∈ PluginLoader.initial_queue d <-> JsMap.get d v = Some 0.
Proof.
  unfold PluginLoader.initial_queue. intros Hnd. split.
  - induction d as [|[k z] d IH]; simpl; [constructor|].
    apply NoDup_cons in Hnd as [Hk Hnd].
    destruct (Z.eqb z 0); simpl; [|auto].
    apply NoDup_cons. split; [|auto].
    intros Hin. apply Hk. apply list_elem_of_fmap in Hin as ([k' z'] & -> & Hin).
    apply elem_filter in Hin as [Hin _].
    apply list_elem_of_fmap. by exists (k', z').
  - intros v. rewrite list_elem_of_fmap. split.
    + intros ([k z] & -> & Hin). apply elem_filter in Hin as [Hin Hz].
      simpl in *. apply Z.eqb_eq in Hz. subst. by apply elem_get_NoDup.
    + intros Hget. exists (v, 0). split; [done|]. apply elem_filter.
      split; [by apply get_Some_elem | done].
Qed.

Lemma indeg_nil E v : indeg E [] v = length (List.filter (into v) E).
Proof.
  unfold indeg. f_equal. apply filter_ext. intros e. simpl.
  by rewrite andb_true_r.
Qed.

Section Result.
Variables (r : PluginRegistry.t) (ids : list string).
Let E := edges r ids.

Lemma E_ids u v : (u, v) ∈ E -> u ∈ ids /\ v ∈ ids.
Proof. intros H. apply elem_edges_from in H. tauto. Qed.

Lemma initial_inv :
  let gi := PluginLoader.build_edges r ids (PluginLoader.init_graph ids) in
  Inv E ids (snd gi) (PluginLoader.initial_queue (snd gi)) [].
Proof.
  intros gi.
  destruct (initial_queue_spec (snd gi) (built_NoDup r ids)) as [Hnd Hq].
  unfold gi in *. clear gi.
  split; simpl.
  - done.
  - intros v Hv. apply Hq in Hv. apply (built_keys r ids).
    apply get_Some_keys. by rewrite Hv.
  - intros v Hv. rewrite indeg_nil. by apply built_degree.
  - intros v Hv. rewrite Hq, indeg_nil.
    rewrite (built_degree r ids v Hv). split.
    + intros [= H]. fold E in H. lia.
    + intros H. fold E. by rewrite H.
  - constructor.
Qed.

(** The loop ends, and its result is duplicate-free, made of input ids,
    lists every dependency before its dependents, and holds exactly the
    ids all of whose dependencies it holds. *)
Lemma kahn_result_spec :
  exists result,
    PluginLoader.kahn_result r ids = Some result
    /\ NoDup result
    /\ (forall v, v ∈ result -> v ∈ ids)
    /\ topo E result
    /\ (forall v, v ∈ ids -> (v ∈ result <-> indeg E result v = O)).
Proof.
  unfold PluginLoader.kahn_result.
  set (gi := PluginLoader.build_edges r ids (PluginLoader.init_graph ids)).
  destruct (kahn_inv E ids (fst gi) E_ids (built_graph r ids)
              (length ids) (snd gi) (PluginLoader.initial_queue (snd gi)) [])
    as (result & d' & Hk & [Hnd Hids _ Hzero Htopo]).
  - apply initial_inv.
  - simpl. lia.
  - exists result. rewrite app_nil_r in *. auto.
Qed.
End Result.

(** ** Order in a list *)

Lemma precedes_trans l a b c :
  NoDup l -> precedes l a b -> precedes l b c -> precedes l a c.
Proof.
  intros Hnd (i & j & Hij & Hi & Hj) (j' & k & Hjk & Hj' & Hk).
  assert (j = j') by (eapply NoDup_lookup; eauto). subst j'.
  exists i, k. split; [lia | done].
Qed.

Lemma precedes_irrefl l a : NoDup l -> ~ precedes l a a.
Proof.
  intros Hnd (i & j & Hij & Hi & Hj).
  assert (i = j) by (eapply NoDup_lookup; eauto). lia.
Qed.

Lemma topo_precedes E res :
  topo E res -> forall u v, (u, v) ∈ E -> v ∈ res -> precedes res u v.
Proof.
  induction 1 as [|res c Htopo IH Hc]; intros u v He Hv.
  - by apply elem_of_nil in Hv.
  - apply elem_of_app in Hv as [Hv|Hv].
    + destruct (IH u v He Hv) as (i & j & Hij & Hi & Hj).
      exists i, j. split; [done|].
      split; apply lookup_app_l_Some; done.
    + apply list_elem_of_singleton in Hv. subst v.
      apply Hc in He. apply list_elem_of_lookup in He as [i Hi].
      exists i, (length res). split; [by eapply lookup_lt_Some|].
      split; [by apply lookup_app_l_Some|].
      by rewrite list_lookup_middle.
Qed.

(** ** Cycles *)

Lemma path_suffix edge l1 l :
  path edge (l1 ++ l) -> l <> [] -> path edge l.
Proof.
  induction l1 as [|x l1 IH]; simpl; [done|].
  intros Hp Hl. apply IH; [|done].
  destruct (l1 ++ l) as [|y t] eqn:Heq.
  - destruct l1, l; simpl in *; congruence.
  - by inversion Hp.
Qed.

Lemma path_tc edge l2 : forall a b l3,
  path edge (a :: l2 ++ b :: l3) -> tc edge a b.
Proof.
  induction l2 as [|y l2 IH]; intros a b l3 Hp; simpl in *.
  - inversion Hp; subst. by apply tc_once.
  - inversion Hp; subst. eapply tc_l; eauto.
Qed.

Lemma not_NoDup_split (l : list string) :
  ~ NoDup l -> exists a l1 l2 l3, l = l1 ++ a :: l2 ++ a :: l3.
Proof.
  induction l as [|a l IH]; intros Hn.
  - exfalso. apply Hn. constructor.
  - destruct (decide (a ∈ l)) as [Hin|Hnin].
    + apply list_elem_of_split in Hin as (l2 & l3 & ->).
      by exists a, [], l2, l3.
    + destruct IH as (b & l1 & l2 & l3 & ->).
      { intros Hnd. apply Hn. by apply NoDup_cons. }
      by exists b, (a :: l1), l2, l3.
Qed.

(** In a finite nonempty set of nodes each of which has a predecessor in
    the set, some node reaches itself. *)
Lemma closed_set_has_cycle (edge : string -> string -> Prop) (R : list string) :
  R <> [] ->
  (forall v, v ∈ R -> exists u, u ∈ R /\ edge u v) ->
  exists x, tc edge x x.
Proof.
  intros Hne Hpred.
  assert (Hchain : forall n : nat, exists l,
             length l = S n /\ (forall x, x ∈ l -> x ∈ R) /\ path edge l).
  { induction n as [|n (l & Hlen & Hin & Hp)].
    - destruct R as [|v R']; [done|]. exists [v]. split; [done|].
      split; [|constructor]. intros x ->%list_elem_of_singleton. left.
    - destruct l as [|a t]; [done|].
      destruct (Hpred a) as (u & Hu & He); [apply Hin; left|].
      exists (u :: a :: t). split; [simpl in *; lia|]. split.
      + intros x [->|Hx]%elem_of_cons; auto.
      + by constructor. }
  destruct (Hchain (length R)) as (l & Hlen & Hin & Hp).
  destruct (not_NoDup_split l) as (a & l1 & l2 & l3 & ->).
  { intros Hnd. apply (NoDup_submseteq _ R) in Hnd; [|done].
    apply submseteq_length in Hnd. lia. }
  exists a. apply path_suffix in Hp; [|done]. by apply path_tc in Hp.
Qed.

Lemma last_middle {A} (l1 : list A) x l2 :
  last (l1 ++ x :: l2) = last (x :: l2).
Proof.
  induction l1 as [|y l1 IH]; [done|].
  change ((y :: l1) ++ x :: l2) with (y :: (l1 ++ x :: l2)).
  destruct (l1 ++ x :: l2) as [|z t] eqn:E; [by destruct l1|].
  by rewrite <- IH.
Qed.

Lemma path_rtc_last edge l : forall a w,
  path edge (a :: l) -> last (a :: l) = Some w -> rtc edge a w.
Proof.
  induction l as [|y l IH]; intros a w Hp Hl.
  - injection Hl as <-. apply rtc_refl.
  - inversion Hp; subst. eapply rtc_l; [eassumption|]. by apply IH.
Qed.

(** In a finite set of nodes each of which has a predecessor in the set,
    every node is reached from a node that reaches itself. *)
Lemma closed_set_reaches_cycle (edge : string -> string -> Prop)
      (R : list string) (w : string) :
  (forall v, v ∈ R -> exists u, u ∈ R /\ edge u v) ->
  w ∈ R ->
  exists c, tc edge c c /\ rtc edge c w.
Proof.
  intros Hpred Hw.
  assert (Hchain : forall n : nat, exists l,
             length l = S n /\ (forall x, x ∈ l -> x ∈ R) /\ path edge l
             /\ last l = Some w).
  { induction n as [|n (l & Hlen & Hin & Hp & Hl)].
    - exists [w]. split; [done|]. split; [|split; [constructor | done]].
      by intros x ->%list_elem_of_singleton.
    - destruct l as [|a t]; [done|].
      destruct (Hpred a) as (u & Hu & He); [apply Hin; left|].
      exists (u :: a :: t). split; [simpl in *; lia|]. split; [|split].
      + intros x [->|Hx]%elem_of_cons; auto.
      + by constructor.
      + done. }
  destruct (Hchain (length R)) as (l & Hlen & Hin & Hp & Hl).
  destruct (not_NoDup_split l) as (a & l1 & l2 & l3 & ->).
  { intros Hnd. apply (NoDup_submseteq _ R) in Hnd; [|done].
    apply submseteq_length in Hnd. lia. }
  exists a. split.
  - apply path_suffix in Hp; [|done]. by apply path_tc in Hp.
  - change (l1 ++ a :: l2 ++ a :: l3)
      with (l1 ++ (a :: l2) ++ (a :: l3)) in Hp, Hl.
    rewrite (app_assoc l1 (a :: l2) (a :: l3)) in Hp, Hl.
    apply path_suffix in Hp; [|done]. rewrite last_middle in Hl.
    by apply (path_rtc_last edge l3).
Qed.

(** ** Load order *)

Lemma dep_edge_edges r ids dep id :
  dep_edge r ids dep id <-> (dep, id) ∈ edges r ids.
Proof. unfold dep_edge, edges. rewrite elem_edges_from. tauto. Qed.

Lemma tc_precedes r ids result :
  NoDup result -> topo (edges r ids) result ->
  forall x y, tc (dep_edge r ids) x y -> y ∈ result -> precedes result x y.
Proof.
  intros Hnd Htopo x y Htc.
  induction Htc as [x y He|x y z He Htc IH]; intros Hy.
  - apply (topo_precedes _ _ Htopo); [by apply dep_edge_edges | done].
  - specialize (IH Hy).
    assert (y ∈ result) as Hy'.
    { destruct IH as (i & _ & _ & Hi & _). apply list_elem_of_lookup. eauto. }
    eapply precedes_trans; [done| |done].
    apply (topo_precedes _ _ Htopo); [by apply dep_edge_edges | done].
Qed.

Lemma cycle_unresolved r ids result x :
  NoDup result -> topo (edges r ids) result ->
  tc (dep_edge r ids) x x -> x ∉ result.
Proof.
  intros Hnd Htopo Htc Hx.
  by apply (precedes_irrefl result x Hnd), (tc_precedes r ids).
Qed.

Lemma tc_dep_edge_ids r ids x y : tc (dep_edge r ids) x y -> x ∈ ids.
Proof. induction 1 as [x y (? & _)|x y z (? & _) _ _]; done. Qed.

Lemma elem_unresolved result ids id :
  id ∈ PluginLoader.unresolved result ids <-> id ∈ ids /\ id ∉ result.
Proof.
  unfold PluginLoader.unresolved. rewrite elem_filter, negb_true_iff.
  by rewrite includes_false.
Qed.

Lemma same_length_covers (result ids : list string) :
  NoDup result -> (forall v, v ∈ result -> v ∈ ids) ->
  length result = length ids -> forall v, v ∈ ids -> v ∈ result.
Proof.
  intros Hnd Hsub Hlen v Hv.
  assert (result ≡ₚ ids) as Hp.
  { apply submseteq_length_Permutation; [by apply NoDup_submseteq | lia]. }
  by rewrite Hp.
Qed.

(** The loop of [resolveLoadOrder] always ends. *)
Lemma resolveLoadOrder_total r ids :
  is_Some (PluginLoader.resolveLoadOrder r ids).
Proof.
  unfold PluginLoader.resolveLoadOrder.
  destruct (kahn_result_spec r ids) as (result & -> & _).
  by destruct (negb _).
Qed.

Lemma acyclic_ab : acyclic registry_ab ["a"; "b"].
Proof.
  assert (Hedge : forall d i, dep_edge registry_ab ["a"; "b"] d i ->
                              d = "b" /\ i = "a").
  { intros d i (_ & Hi & Hd).
    apply elem_of_cons in Hi as [->|Hi].
    - vm_compute in Hd. apply list_elem_of_singleton in Hd. by subst.
    - apply list_elem_of_singleton in Hi. subst. vm_compute in Hd.
      by apply elem_of_nil in Hd. }
  intros x Hx. inversion Hx as [? ? He|? y ? He Htc]; subst.
  - by destruct (Hedge _ _ He) as [-> ?].
  - destruct (Hedge _ _ He) as [-> ->].
    inversion Htc as [? ? He'|? z ? He' _]; subst;
      by destruct (Hedge _ _ He') as [? _].
Qed.

Lemma cycle_ab : has_cycle registry_cyclic ["a"; "b"; "c"].
Proof.
  exists "a". apply tc_l with "b"; [|apply tc_once].
  - repeat split; [left | right; left | vm_compute; left].
  - repeat split; [right; left | left | vm_compute; left].
Qed.

(** C3 (as stated, for every input list) fails on a list that names an id
    twice: with [a] registered without dependencies, the graph induced by
    [["a"; "a"]] has no cycle, yet [resolveLoadOrder] throws the
    circular-dependency error, naming no id, instead of returning an order. *)
Lemma C3_duplicate_ids_rejected :
  acyclic (registry_of [manifest_of "a" []]) ["a"; "a"]
  /\ PluginLoader.resolveLoadOrder (registry_of [manifest_of "a" []]) ["a"; "a"]
     = Some (Throw (Error "Circular dependency detected in plugins: "))
  /\ ~ exists order,
         PluginLoader.resolveLoadOrder (registry_of [manifest_of "a" []])
           ["a"; "a"] = Some (Normal order).
Proof.
  split; [|split; [reflexivity|]].
  - intros x Hx.
    assert (Hedge : forall d i,
               ~ dep_edge (registry_of [manifest_of "a" []]) ["a"; "a"] d i).
    { intros d i (_ & Hi & Hd).
      assert (i = "a") as ->.
      { apply elem_of_cons in Hi as [->|Hi]; [done|].
        by apply list_elem_of_singleton in Hi. }
      vm_compute in Hd. by apply elem_of_nil in Hd. }
    inversion Hx as [? ? He|? ? ? He _]; subst; by apply Hedge in He.
  - intros [order H]. vm_compute in H. discriminate.
Qed.

(** C3 (amended): for every duplicate-free input list of plugin ids whose
    induced dependency subgraph is acyclic, [resolveLoadOrder] returns a
    list that contains every input id exactly once and in which every
    dependency comes before every id that depends on it; and with the
    manifests [{id:"a", dependencies:["b"]}] and [{id:"b", dependencies:[]}],
    [resolveLoadOrder(["a","b"])] returns [["b","a"]]. *)
Theorem C3_load_order :
  forall (r : PluginRegistry.t) (ids : list string),
    NoDup ids -> acyclic r ids ->
    (exists order,
        PluginLoader.resolveLoadOrder r ids = Some (Normal order)
        /\ load_order r ids order)
    /\ PluginLoader.resolveLoadOrder registry_ab ["a"; "b"]
       = Some (Normal ["b"; "a"]).
Proof.
  intros r ids Hids Hacyc. split; [|reflexivity].
  destruct (kahn_result_spec r ids) as (result & Hk & Hnd & Hsub & Htopo & Hzero).
  assert (Hall : forall v, v ∈ ids -> v ∈ result).
  { intros v Hv. destruct (decide (v ∈ result)) as [|Hn]; [done|]. exfalso.
    destruct (closed_set_has_cycle (dep_edge r ids)
                (PluginLoader.unresolved result ids)) as (x & Hx).
    - intros Hnil. assert (v ∈ PluginLoader.unresolved result ids) as H
          by by apply elem_unresolved.
      rewrite Hnil in H. by apply elem_of_nil in H.
    - intros w [Hw Hwn]%elem_unresolved.
      destruct (indeg_pos (edges r ids) result w) as (u & Hu & Hun).
      { intros Hz. by apply Hwn, Hzero. }
      exists u. split; [|by apply dep_edge_edges].
      apply elem_unresolved. split; [|done]. by apply E_ids in Hu as [? _].
    - by apply (Hacyc x). }
  exists result. split.
  - unfold PluginLoader.resolveLoadOrder. rewrite Hk.
    assert (length result = length ids) as ->.
    { apply Nat.le_antisymm; apply submseteq_length, NoDup_submseteq; auto. }
    by rewrite Nat.eqb_refl.
  - split; [done|]. split; [split; auto|].
    intros dep id He. apply (topo_precedes _ _ Htopo).
    + by apply dep_edge_edges.
    + apply Hall. by destruct He as (_ & ? & _).
Qed.

Lemma C3_load_order_witness :
  NoDup ["a"; "b"] /\ acyclic registry_ab ["a"; "b"]
  /\ ((exists order,
          PluginLoader.resolveLoadOrder registry_ab ["a"; "b"]
          = Some (Normal order)
          /\ load_order registry_ab ["a"; "b"] order)
      /\ PluginLoader.resolveLoadOrder registry_ab ["a"; "b"]
         = Some (Normal ["b"; "a"])).
Proof.
  assert (Hnd : NoDup ["a"; "b"]).
  { apply NoDup_cons. split.
    - intros H%list_elem_of_singleton. discriminate.
    - apply NoDup_singleton. }
  split; [exact Hnd|]. split; [exact acyclic_ab|].
  exact (C3_load_order registry_ab ["a"; "b"] Hnd acyclic_ab).
Defined.

Lemma cycle_tail : has_cycle registry_tail ["c"; "a"; "b"; "e"].
Proof.
  exists "a". apply tc_l with "b"; [|apply tc_once].
  - repeat split; [right; left | right; right; left | vm_compute; left].
  - repeat split; [right; right; left | right; left | vm_compute; left].
Qed.

(** C4: for every input list of plugin ids whose induced dependency
    subgraph contains a cycle, [resolveLoadOrder] throws the
    circular-dependency error, and its message names exactly the ids left
    unresolved by Kahn's algorithm, joined by [", "] in the order of the
    input.  The partial output [result] of the loop is a topological
    prefix that cannot be extended: it is duplicate-free, made of input
    ids, lists every dependency of its members before them, and every
    input id outside it has a dependency outside it.  The ids named are
    the input ids not in it; these are exactly the input ids that are on
    a cycle or depend, directly or through other ids, on an id that is. *)
Theorem C4_cycle_reported :
  forall (r : PluginRegistry.t) (ids : list string),
    has_cycle r ids ->
    exists result,
      PluginLoader.kahn_result r ids = Some result
      /\ PluginLoader.resolveLoadOrder r ids
         = Some (Throw (Error ("Circular dependency detected in plugins: "
                               +:+ join ", " (PluginLoader.unresolved result ids))))
      /\ (forall id, id ∈ PluginLoader.unresolved result ids
                     <-> id ∈ ids /\ id ∉ result)
      /\ (forall x, tc (dep_edge r ids) x x
                    -> x ∈ PluginLoader.unresolved result ids)
      /\ NoDup result
      /\ (forall id, id ∈ result -> id ∈ ids)
      /\ (forall dep id, dep_edge r ids dep id -> id ∈ result ->
                         precedes result dep id)
      /\ (forall id, id ∈ ids -> id ∉ result ->
                     exists dep, dep_edge r ids dep id /\ dep ∉ result)
      /\ (forall id, id ∈ PluginLoader.unresolved result ids
                     <-> id ∈ ids /\ behind_cycle r ids id).
Proof.
  intros r ids (x & Hx).
  destruct (kahn_result_spec r ids) as (result & Hk & Hnd & Hsub & Htopo & Hzero).
  exists result. split; [done|].
  assert (Hcyc : forall y, tc (dep_edge r ids) y y -> y ∈ ids /\ y ∉ result).
  { intros y Hy. split; [by eapply tc_dep_edge_ids|].
    by apply (cycle_unresolved r ids). }
  assert (Hfirst : forall dep id, dep_edge r ids dep id -> id ∈ result ->
                                  precedes result dep id).
  { intros dep id He Hid. apply (topo_precedes _ _ Htopo); [|done].
    by apply dep_edge_edges. }
  assert (Hstuck : forall id, id ∈ ids -> id ∉ result ->
                              exists dep, dep_edge r ids dep id /\ dep ∉ result).
  { intros id Hid Hn.
    destruct (indeg_pos (edges r ids) result id) as (u & Hu & Hun).
    { intros Hz. by apply Hn, Hzero. }
    exists u. split; [by apply dep_edge_edges | done]. }
  split; [|split; [|split; [|split; [|split; [|split; [|split]]]]]];
    [ | apply elem_unresolved | | done | done | done | done | ].
  - unfold PluginLoader.resolveLoadOrder. rewrite Hk.
    destruct (Nat.eqb (length result) (length ids)) eqn:Hlen; [|done].
    apply Nat.eqb_eq in Hlen. exfalso.
    destruct (Hcyc x Hx) as [Hxi Hxr]. apply Hxr.
    by apply (same_length_covers result ids).
  - intros y Hy. apply elem_unresolved. auto.
  - intros id. split.
    + intros Hid. split; [by apply elem_unresolved in Hid as [? _]|].
      apply (closed_set_reaches_cycle (dep_edge r ids)
               (PluginLoader.unresolved result ids)); [|done].
      intros v [Hv Hvn]%elem_unresolved.
      destruct (Hstuck v Hv Hvn) as (u & He & Hun).
      exists u. split; [|done]. apply elem_unresolved.
      split; [by destruct He as (? & _) | done].
    + intros [Hid (c & Hc & Hreach)]. apply elem_unresolved.
      split; [done|]. destruct (Hcyc c Hc) as [_ Hcn].
      clear Hid Hc. induction Hreach as [c|c d id He Hreach IH]; [done|].
      apply IH. intros Hd. apply Hcn.
      destruct (Hfirst c d He Hd) as (i & _ & _ & Hi & _).
      apply list_elem_of_lookup. eauto.
Qed.

(** [c] stands alone and is resolved; [a] and [b] are on a cycle and [e]
    depends on [a]: the message names [a], [b] and [e], not [c]. *)
Lemma C4_cycle_reported_witness :
  has_cycle registry_tail ["c"; "a"; "b"; "e"]
  /\ PluginLoader.resolveLoadOrder registry_tail ["c"; "a"; "b"; "e"]
     = Some (Throw (Error "Circular dependency detected in plugins: a, b, e")).
Proof.
  split; [exact cycle_tail|].
  destruct (C4_cycle_reported registry_tail ["c"; "a"; "b"; "e"] cycle_tail)
    as (result & Hk & Hr & _).
  vm_compute in Hk. injection Hk as <-. exact Hr.
Defined.

(** ** Hook emission *)

(** C5 (what the code does): with handlers of priorities 10, 10 and 20
    registered in that order and [parallel: false], the handlers run in
    that order, the two of priority 10 before the one of priority 20; but
    the second handler of priority 10 is given the data the emission
    started with, not what the first returned.  Only the handler of the
    next priority group is given the last returned value. *)
Theorem C5_second_handler_gets_group_input :
  forall (f1 f2 f3 : value -> value) (d : value),
    HookSystem.emit "hook" (Some d) sequential (three_handlers f1 f2 f3)
    = ({| HookSystem.data := f3 (f2 d); HookSystem.cancelled := false |},
       [(0%nat, d); (1%nat, d); (2%nat, f2 d)],
       three_handlers f1 f2 f3).
Proof. reflexivity. Qed.

(** With [x => x + 1], [x => 2 * x] and [x => x + 100] on the data [1]:
    the second handler is given [1], where the first returned [2]. *)
Lemma increments_then_doubles :
  HookSystem.emit "hook" (Some (VNum 1)) sequential
    (three_handlers (on_number (fun x => x + 1)) (on_number (fun x => 2 * x))
       (on_number (fun x => x + 100)))
  = ({| HookSystem.data := VNum 102; HookSystem.cancelled := false |},
     [(0%nat, VNum 1); (1%nat, VNum 1); (2%nat, VNum 2)],
     three_handlers (on_number (fun x => x + 1)) (on_number (fun x => 2 * x))
       (on_number (fun x => x + 100))).
Proof. reflexivity. Qed.

(** C10 (as stated) fails for the input [undefined]: the parameter is
    declared [data = null], so an [emit] that is given [undefined] (or no
    data at all) on a hook without handlers returns
    [{data: null, cancelled: false}]; the data returned is not the data
    given. *)
Lemma C10_undefined_becomes_null :
  HookSystem.getHandlerCount HookSystem.empty "hook" = O
  /\ HookSystem.emit "hook" None
       {| HookSystem.parallel := None; HookSystem.cancelable := None |}
       HookSystem.empty
     = ({| HookSystem.data := VNull; HookSystem.cancelled := false |}, [],
        HookSystem.empty)
  /\ ~ (forall data : option value,
          Some (HookSystem.data
                  (fst (fst (HookSystem.emit "hook" data
                               {| HookSystem.parallel := None;
                                  HookSystem.cancelable := None |}
                               HookSystem.empty))))
          = data).
Proof.
  split; [reflexivity|]. split; [reflexivity|].
  intros H. specialize (H None). discriminate.
Qed.

(** C10 (amended): for every hook name with no registered handlers,
    [emit] returns [{data, cancelled: false}] with the data it was given
    when that is not [undefined], and [{data: null, cancelled: false}]
    when it is [undefined] or left out, whatever the [parallel] and
    [cancelable] options; no handler is called and the hook system is
    unchanged. *)
Theorem C10_emit_without_handlers :
  forall (h : HookSystem.t) (hookName : string) (data : option value)
         (options : HookSystem.EmitOptions),
    HookSystem.getHandlerCount h hookName = O ->
    HookSystem.emit hookName data options h
    = ({| HookSystem.data := match data with
                             | Some d => d
                             | None => VNull
                             end;
          HookSystem.cancelled := false |}, [], h).
Proof.
  intros h hookName data options H.
  unfold HookSystem.getHandlerCount in H. unfold HookSystem.emit.
  destruct (HookSystem.hooks h !! hookName) as [[|e l]|]; simpl in *;
    [by destruct data | discriminate | by destruct data].
Qed.

Lemma C10_emit_without_handlers_witness :
  HookSystem.getHandlerCount (three_handlers id id id) "other" = O
  /\ HookSystem.emit "other" (Some (VNum 7))
       {| HookSystem.parallel := Some false; HookSystem.cancelable := Some true |}
       (three_handlers id id id)
     = ({| HookSystem.data := VNum 7; HookSystem.cancelled := false |}, [],
        three_handlers id id id)
  /\ HookSystem.emit "other" None
       {| HookSystem.parallel := Some false; HookSystem.cancelable := Some true |}
       (three_handlers id id id)
     = ({| HookSystem.data := VNull; HookSystem.cancelled := false |}, [],
        three_handlers id id id).
Proof.
  split; [reflexivity|]. split.
  - apply (C10_emit_without_handlers (three_handlers id id id) "other"
             (Some (VNum 7))).
    reflexivity.
  - apply (C10_emit_without_handlers (three_handlers id id id) "other" None).
    reflexivity.
Defined.

(** ** Settings *)

Lemma registered_entry s :
  exists entry kv,
    SettingsStore.plugins
      (SettingsStore.doc (SettingsStore.registerSchema "p" schema_x s)) !! "p"
    = Some entry
    /\ SettingsStore.settings entry = Some kv.
Proof.
  unfold SettingsStore.registerSchema. simpl.
  destruct (SettingsStore.plugins (SettingsStore.doc s) !! "p") as [e|];
    rewrite lookup_insert_eq; eauto.
Qed.

(** C8: after [registerSchema("p", {x: {type: "number", default: 5}})],
    [set("p", "x", 10)] succeeds and [get("p", "x")] then returns [10];
    a following [set("p", "x", "oops")] throws the validation error and
    changes nothing: the store (and the hook system) are as before, and
    [get("p", "x")] still returns [10].  This from any store and any hook
    system. *)
Theorem C8_set_validates :
  forall (s : SettingsStore.t) (h : HookSystem.t),
    let s1 := SettingsStore.registerSchema "p" schema_x s in
    let r1 := SettingsStore.set "p" "x" (VNum 10) false (s1, h) in
    let r2 := SettingsStore.set "p" "x" (VStr "oops") false (snd r1) in
    fst r1 = Normal tt
    /\ SettingsStore.get (fst (snd r1)) "p" "x" = Some (VNum 10)
    /\ fst r2 = Throw (Error "Invalid value for p.x")
    /\ snd r2 = snd r1
    /\ SettingsStore.get (fst (snd r2)) "p" "x" = Some (VNum 10).
Proof.
  intros s h s1 r1 r2.
  destruct (registered_entry s) as (entry & kv & He & Hkv). fold s1 in He.
  assert (Hschema : forall st,
            SettingsStore.schemas st = SettingsStore.schemas s1 ->
            SettingsStore._validate st "p" "x" (VNum 10) = true
            /\ SettingsStore._validate st "p" "x" (VStr "oops") = false).
  { intros st Hst. unfold SettingsStore._validate. rewrite Hst.
    unfold s1, SettingsStore.registerSchema. simpl.
    rewrite lookup_insert_eq. unfold schema_x.
    rewrite lookup_singleton_eq. done. }
  clearbody s1.
  assert (H1 : fst r1 = Normal tt
               /\ SettingsStore.get (fst (snd r1)) "p" "x" = Some (VNum 10)
               /\ SettingsStore.schemas (fst (snd r1)) = SettingsStore.schemas s1).
  { unfold r1, SettingsStore.set.
    destruct (Hschema s1 eq_refl) as [-> _]. simpl.
    unfold SettingsStore.assign. simpl. rewrite He. simpl. rewrite Hkv. simpl.
    split; [done|]. split; [|done].
    unfold SettingsStore.get. simpl. rewrite lookup_insert_eq. simpl.
    by rewrite lookup_insert_eq. }
  destruct H1 as (Hr1 & Hget & Hsch).
  split; [done|]. split; [done|].
  unfold r2, SettingsStore.set. destruct (snd r1) as [s2 h2] eqn:E2. simpl in *.
  destruct (Hschema s2 Hsch) as [_ ->]. simpl. done.
Qed.



(** ** Registry *)

Lemma getState_setState id s r :
  PluginRegistry.getState (PluginRegistry.setState id s r) id = s.
Proof.
  unfold PluginRegistry.getState, PluginRegistry.setState. simpl.
  by rewrite lookup_insert_eq.
Qed.

Lemma getState_setError id e r :
  PluginRegistry.getState (PluginRegistry.setError id e r) id
  = PluginRegistry.ERROR.
Proof.
  unfold PluginRegistry.getState, PluginRegistry.setError,
    PluginRegistry.setState. simpl.
  by rewrite lookup_insert_eq.
Qed.

Lemma getError_setError id e r :
  PluginRegistry.getError (PluginRegistry.setError id e r) id = Some e.
Proof.
  unfold PluginRegistry.getError, PluginRegistry.setError,
    PluginRegistry.setState. simpl.
  by rewrite lookup_insert_eq.
Qed.

(** C7 (as stated) fails: registering a second manifest under the id [a]
    throws nothing; [register] returns normally. *)
Lemma C7_duplicate_not_thrown :
  is_Some (PluginRegistry.manifests (registry_of [manifest_of "a" []]) !! "a")
  /\ fst (PluginRegistry.register (manifest_of "a" ["b"])
            (registry_of [manifest_of "a" []]))
     = Normal tt
  /\ ~ exists e,
         fst (PluginRegistry.register (manifest_of "a" ["b"])
                (registry_of [manifest_of "a" []]))
         = Throw e.
Proof.
  split; [|split].
  - vm_compute. eauto.
  - reflexivity.
  - intros [e H]. vm_compute in H. discriminate.
Qed.

(** C7 (amended): for every manifest whose id is already registered,
    [register(manifest)] returns normally, throwing nothing, and leaves
    the registry -- the existing manifest, its state, the dependency edges
    and everything else -- unchanged. *)
Theorem C7_duplicate_ignored :
  forall (r : PluginRegistry.t) (manifest : Manifest),
    is_Some (PluginRegistry.manifests r !! m_id manifest) ->
    m_id manifest <> "" ->
    PluginRegistry.register manifest r = (Normal tt, r).
Proof.
  intros r manifest Hsome Hid. unfold PluginRegistry.register.
  apply String.eqb_neq in Hid. rewrite Hid.
  by rewrite bool_decide_eq_true_2.
Qed.

Lemma C7_duplicate_ignored_witness :
  is_Some (PluginRegistry.manifests (registry_of [manifest_of "a" []]) !! "a")
  /\ "a" <> ""
  /\ PluginRegistry.register (manifest_of "a" ["b"])
       (registry_of [manifest_of "a" []])
     = (Normal tt, registry_of [manifest_of "a" []]).
Proof.
  assert (H1 : is_Some (PluginRegistry.manifests
                          (registry_of [manifest_of "a" []]) !! "a"))
    by (vm_compute; eauto).
  assert (H2 : "a" <> "") by discriminate.
  split; [exact H1|]. split; [exact H2|].
  exact (C7_duplicate_ignored (registry_of [manifest_of "a" []])
           (manifest_of "a" ["b"]) H1 H2).
Defined.

(** ** Lifecycle *)


(** When [start] throws, [startPlugin] reports failure and the module ends
    in the ERROR state with the error recorded: the state restored by
    [_rollback] is overwritten by [setError]. *)
Lemma startPlugin_failure w id inst fn e :
  (PluginRegistry.getState (registry w) id = PluginRegistry.LOADED
   \/ PluginRegistry.getState (registry w) id = PluginRegistry.STOPPED) ->
  fst (PluginRegistry.checkDependencies (registry w) id) = true ->
  fst (PluginRegistry.checkConflicts (registry w) id) = false ->
  PluginRegistry.getInstance (registry w) id = Some inst ->
  m_start inst = Some fn ->
  lf_outcome fn = Throw e ->
  fst (LifecycleManager.startPlugin id w) = Normal false
  /\ PluginRegistry.getState (registry (snd (LifecycleManager.startPlugin id w))) id
     = PluginRegistry.ERROR
  /\ PluginRegistry.getError (registry (snd (LifecycleManager.startPlugin id w))) id
     = Some e.
Proof.
  intros Hst Hdep Hconf Hinst Hstart Hthrow.
  unfold LifecycleManager.startPlugin, bind, gets, throw, ret, try_catch, modify.
  assert (PluginRegistry.State_eqb (PluginRegistry.getState (registry w) id)
            PluginRegistry.ACTIVE = false) as ->
      by (destruct Hst as [-> | ->]; done).
  assert (negb (PluginRegistry.State_eqb
                  (PluginRegistry.getState (registry w) id) PluginRegistry.LOADED)
          && negb (PluginRegistry.State_eqb
                     (PluginRegistry.getState (registry w) id)
                     PluginRegistry.STOPPED) = false) as ->
      by (destruct Hst as [-> | ->]; done).
  rewrite Hdep. cbn [negb]. rewrite Hconf, Hinst. simpl.
  unfold LifecycleManager.action, LifecycleManager.call_if_function, modify, bind.
  rewrite Hstart. unfold LifecycleManager.call_lifecycle. rewrite Hthrow. simpl.
  unfold LifecycleManager._rollback, LifecycleManager._takeSnapshot. simpl.
  rewrite lookup_insert_eq. simpl.
  split; [done|]. split; [apply getState_setError | apply getError_setError].
Qed.

(** C2 (what the code does): the module [p] is LOADED, owns no hook,
    declares the hooks [first] and [second], and its [start] throws.
    [startPlugin] reports failure; afterwards the state is ERROR, not
    LOADED, and the handler registered for [second] is still registered,
    though no longer tracked as owned by [p]. *)
Theorem C2_failed_start_not_rolled_back :
  let w := loaded faulty PluginRegistry.LOADED in
  let w' := snd (LifecycleManager.startPlugin "p" w) in
  PluginRegistry.getState (registry w) "p" = PluginRegistry.LOADED
  /\ HookSystem.hooks (hooks w) = ∅
  /\ fst (LifecycleManager.startPlugin "p" w) = Normal false
  /\ PluginRegistry.getState (registry w') "p" = PluginRegistry.ERROR
  /\ PluginRegistry.getError (registry w') "p" = Some boom
  /\ HookSystem.getHandlerCount (hooks w') "first" = O
  /\ HookSystem.getHandlerCount (hooks w') "second" = 1%nat
  /\ HookSystem.getPluginHooks (hooks w') "p" = [].
Proof. vm_compute. repeat split. Qed.

(** When [stop] throws, [stopPlugin] reports failure, the module ends in
    the ERROR state with the error recorded, and no hook is unregistered:
    the hook system is as the [plugin:before-disable] emission and the
    registrations made by [stop] itself left it. *)
Lemma stopPlugin_failure w id inst fn e :
  PluginRegistry.getState (registry w) id = PluginRegistry.ACTIVE ->
  List.filter (fun depId =>
                 PluginRegistry.State_eqb
                   (PluginRegistry.getState (registry w) depId)
                   PluginRegistry.ACTIVE)
              (PluginRegistry.getDependents (registry w) id) = [] ->
  PluginRegistry.getInstance (registry w) id = Some inst ->
  m_stop inst = Some fn ->
  lf_outcome fn = Throw e ->
  fst (LifecycleManager.stopPlugin id w) = Normal false
  /\ PluginRegistry.getState (registry (snd (LifecycleManager.stopPlugin id w))) id
     = PluginRegistry.ERROR
  /\ PluginRegistry.getError (registry (snd (LifecycleManager.stopPlugin id w))) id
     = Some e
  /\ hooks (snd (LifecycleManager.stopPlugin id w))
     = LifecycleManager.api_register id (lf_registers fn)
         (HookSystem.action "plugin:before-disable"
            (LifecycleManager.plugin_event id) (hooks w)).
Proof.
  intros Hst Hdep Hinst Hstop Hthrow.
  unfold LifecycleManager.stopPlugin, bind, gets, throw, ret, try_catch, modify.
  rewrite Hst. cbn [PluginRegistry.State_eqb negb]. rewrite Hdep, Hinst. simpl.
  unfold LifecycleManager.action, LifecycleManager.call_if_function, modify, bind.
  rewrite Hstop. unfold LifecycleManager.call_lifecycle. rewrite Hthrow. simpl.
  split; [done|]. split; [apply getState_setError|].
  split; [apply getError_setError | done].
Qed.

(** C6 (what the code does, on an example): [p] is ACTIVE with its two
    hooks registered, no module depends on it, and its [stop] throws.
    [stopPlugin] reports failure; the state is ERROR, not STOPPED, and both
    hooks are still registered and tracked. *)
Lemma C6_failed_stop_skips_teardown :
  let w := running_faulty in
  let w' := snd (LifecycleManager.stopPlugin "p" w) in
  PluginRegistry.getState (registry w) "p" = PluginRegistry.ACTIVE
  /\ PluginRegistry.getDependents (registry w) "p" = []
  /\ fst (LifecycleManager.stopPlugin "p" w) = Normal false
  /\ PluginRegistry.getState (registry w') "p" = PluginRegistry.ERROR
  /\ PluginRegistry.getState (registry w') "p" <> PluginRegistry.STOPPED
  /\ HookSystem.getPluginHooks (hooks w') "p"
     = [("first", 0%nat); ("second", 1%nat)]
  /\ HookSystem.getPluginHooks (hooks w') "p" <> [].
Proof. vm_compute. repeat split; discriminate. Qed.

(** C6 (what the code does): for every ACTIVE module with no ACTIVE
    dependents whose [stop] throws, [stopPlugin] records the error -- which
    puts the module in the ERROR state -- and reports failure; the teardown
    that follows [stop] in the [try] block is skipped: the module's hook
    subscriptions are not unregistered (the hook system is as the
    [plugin:before-disable] emission and [stop] itself left it) and the
    STOPPED state is not reached.  The module cannot be stopped afterwards
    either: a second [stopPlugin] throws and changes nothing. *)
Theorem C6_failed_stop :
  forall (w : World) (id : string) (instance : Manifest) (stop : LifecycleFn)
         (error : exn),
    PluginRegistry.getState (registry w) id = PluginRegistry.ACTIVE ->
    List.filter (fun depId =>
                   PluginRegistry.State_eqb
                     (PluginRegistry.getState (registry w) depId)
                     PluginRegistry.ACTIVE)
                (PluginRegistry.getDependents (registry w) id) = [] ->
    PluginRegistry.getInstance (registry w) id = Some instance ->
    m_stop instance = Some stop ->
    lf_outcome stop = Throw error ->
    let w' := snd (LifecycleManager.stopPlugin id w) in
    fst (LifecycleManager.stopPlugin id w) = Normal false
    /\ PluginRegistry.getError (registry w') id = Some error
    /\ PluginRegistry.getState (registry w') id = PluginRegistry.ERROR
    /\ hooks w'
       = LifecycleManager.api_register id (lf_registers stop)
           (HookSystem.action "plugin:before-disable"
              (LifecycleManager.plugin_event id) (hooks w))
    /\ LifecycleManager.stopPlugin id w'
       = (Throw (Error ("Plugin " +:+ id
                        +:+ " must be in ACTIVE state to stop (current: ERROR)")),
          w').
Proof.
  intros w id instance stop error Hst Hdep Hinst Hstop Hthrow w'.
  destruct (stopPlugin_failure w id instance stop error Hst Hdep Hinst Hstop Hthrow)
    as (H1 & H2 & H3 & H4).
  split; [done|]. split; [done|]. split; [done|]. split; [done|].
  unfold w'. set (w1 := snd (LifecycleManager.stopPlugin id w)) in *.
  clearbody w1. unfold LifecycleManager.stopPlugin, bind, gets, throw.
  by rewrite H2.
Qed.

Lemma C6_failed_stop_witness :
  fst (LifecycleManager.stopPlugin "p" running_faulty) = Normal false
  /\ PluginRegistry.getError
       (registry (snd (LifecycleManager.stopPlugin "p" running_faulty))) "p"
     = Some boom
  /\ PluginRegistry.getState
       (registry (snd (LifecycleManager.stopPlugin "p" running_faulty))) "p"
     = PluginRegistry.ERROR
  /\ hooks (snd (LifecycleManager.stopPlugin "p" running_faulty))
     = LifecycleManager.api_register "p" (lf_registers fails)
         (HookSystem.action "plugin:before-disable"
            (LifecycleManager.plugin_event "p") (hooks running_faulty))
  /\ LifecycleManager.stopPlugin "p"
       (snd (LifecycleManager.stopPlugin "p" running_faulty))
     = (Throw (Error "Plugin p must be in ACTIVE state to stop (current: ERROR)"),
        snd (LifecycleManager.stopPlugin "p" running_faulty)).
Proof.
  apply (C6_failed_stop running_faulty "p" faulty fails boom); reflexivity.
Defined.










(** ** Registered schemas *)

(** The sample schema declares the key [x] only. *)
Lemma schema_x_ordinary : ordinary_keys schema_x.
Proof.
  intros k [d Hd]. unfold schema_x in Hd.
  apply lookup_singleton_Some in Hd as [<- _]. reflexivity.
Qed.







(** ** Reconciliation *)

Section Reconcile.
Import PluginRegistry FrameworkCore.


#[local] Opaque LifecycleManager.initPlugin LifecycleManager.startPlugin
LifecycleManager.stopPlugin note_reconcile.


Lemma startPluginRuntime_fields id c :
let c' := snd (_startPluginRuntime id c) in
_operationsInFlight c' = _operationsInFlight c
/\ reconciled c' = reconciled c.
Proof.
unfold _startPluginRuntime, lifecycle, bind, modify, gets, ret. cbn.
destruct (State_eqb _ LOADED); cbn.
- destruct (LifecycleManager.initPlugin id (world c)) as [[b|e] w1]; cbn;
    [|done].
  by destruct (LifecycleManager.startPlugin id w1) as [r w2].
- by destruct (LifecycleManager.startPlugin id (world c)) as [r w2].
Qed.


Lemma stopPluginRuntime_fields id c :
let c' := snd (_stopPluginRuntime id c) in
_operationsInFlight c' = _operationsInFlight c
/\ reconciled c' = reconciled c.
Proof.
unfold _stopPluginRuntime, bind, gets, ret, lifecycle. cbn.
destruct (negb _); [done|].
by destruct (LifecycleManager.stopPlugin id (world c)) as [[b|e] w'].
Qed.




#[local] Opaque _startPluginRuntime _stopPluginRuntime.







#[local] Opaque _reconcileEnable _reconcileDisable.










End Reconcile.

(** Why the registration of [init] matters: were the schema of a loaded
    module not registered (module [p] is LOADED and declares
    [{x: {type: "number", default: 5}}], the settings document has no
    entry for [p]), the runtime start of [_reconcileEnable] would register
    it and seed the document: [get("p", "x")] would go from undefined to
    [5]. *)
Lemma unregistered_schema_is_seeded :
  let c := core_of (loaded with_schema PluginRegistry.LOADED) ∅ in
  let c' := snd (FrameworkCore._handleStorageChange p_enabled c) in
  FrameworkCore.reconciled c' = [("p", true)]
  /\ SettingsStore.get (settings (FrameworkCore.world c)) "p" "x" = None
  /\ SettingsStore.get (settings (FrameworkCore.world c')) "p" "x"
     = Some (VNum 5).
Proof.
  split; [by vm_compute|]. split; by vm_compute.
Qed.



(** ** IPC *)

Section Ipc.
Import IPCManager.

Lemma wf_create has_runtime tabs clock : wf (create has_runtime tabs clock).
Proof.
split; simpl.
- intros rid. by rewrite !lookup_empty.
- intros rid p. by rewrite lookup_empty.
- intros rid. lia.
- intros rid. rewrite lookup_empty. by intros [? ?].
- done.
- done.
Qed.

(** A pending request leaves [pendingRequests] together with its timer and
  its promise is settled. *)
Lemma wf_finish rid o st :
wf st -> (1 <= rid <= requestId st)%nat ->
wf (settle rid o (with_pending (delete rid) (delete rid) st)).
Proof.
intros [Ht Hp Hr Hs Hl Hd] Hrid. split; simpl.
- intros r. destruct (decide (r = rid)) as [->|Hne].
  + by rewrite !lookup_delete_eq.
  + rewrite !lookup_delete_ne by done. apply Ht.
- intros r p. destruct (decide (r = rid)) as [->|Hne].
  + by rewrite lookup_delete_eq.
  + rewrite lookup_delete_ne by done. intros Hrp.
    destruct (Hp r p Hrp) as (H1 & H2 & H3). split; [done|]. split; [|done].
    destruct (promises st !! rid); [done|]. by rewrite lookup_insert_ne.
- intros r Hrange. destruct (decide (r = rid)) as [->|Hne].
  + right. destruct (promises st !! rid) eqn:E; [by rewrite E|].
    by rewrite lookup_insert_eq.
  + destruct (Hr r Hrange) as [H|H].
    * left. by rewrite lookup_delete_ne.
    * right. destruct (promises st !! rid); [done|].
      by rewrite lookup_insert_ne.
- intros r. destruct (promises st !! rid) eqn:E; [apply Hs|].
  destruct (decide (r = rid)) as [->|Hne]; [done|].
  rewrite lookup_insert_ne by done. apply Hs.
- done.
- intros Hdead. destruct (Hd Hdead) as [-> ->]. by rewrite delete_empty.
Qed.

Lemma wf_fold_send (f : nat -> Message) l st :
wf st -> wf (fold_left (fun st tab => send (f tab) st) l st).
Proof.
revert st. induction l as [|x l IH]; intros st H; simpl; [done|].
apply IH. by destruct H.
Qed.

Lemma reject_all_spec l : forall tp,
let tp' := reject_all l tp in
(forall t, fst tp' !! t
           = if bool_decide (t ∈ (fun x => p_timeout (snd x)) <$> l)
             then None else fst tp !! t)
/\ (forall rid, snd tp' !! rid
                = match snd tp !! rid with
                  | Some s => Some s
                  | None => if bool_decide (rid ∈ fst <$> l)
                            then Some (Rejected destroyed_pending) else None
                  end).
Proof.
induction l as [|[rid p] l IH]; intros tp; simpl.
- split; [done|]. intros rid. by destruct (snd tp !! rid).
- destruct (IH (delete (p_timeout p) (fst tp),
                match snd tp !! rid with
                | Some _ => snd tp
                | None => <[rid := Rejected destroyed_pending]> (snd tp)
                end)) as [H1 H2].
  simpl in *. split.
  + intros t. rewrite H1.
    destruct (decide (t = p_timeout p)) as [->|Hne].
    * rewrite lookup_delete_eq.
      rewrite (bool_decide_eq_true_2 (p_timeout p ∈ p_timeout p :: _));
        [|left]. by destruct (bool_decide _).
    * rewrite lookup_delete_ne by done.
      destruct (bool_decide (t ∈ _)) eqn:E.
      -- apply bool_decide_eq_true_1 in E.
         rewrite bool_decide_eq_true_2; [done | by right].
      -- apply bool_decide_eq_false_1 in E.
         rewrite bool_decide_eq_false_2; [done|].
         intros [?|?]%elem_of_cons; done.
  + intros r. rewrite H2.
    destruct (decide (r = rid)) as [->|Hne].
    * rewrite (bool_decide_eq_true_2 (rid ∈ rid :: _)); [|left].
      destruct (snd tp !! rid) eqn:E; [by rewrite E|].
      by rewrite lookup_insert_eq.
    * assert (match snd tp !! rid with
              | Some _ => snd tp
              | None => <[rid := Rejected destroyed_pending]> (snd tp)
              end !! r = snd tp !! r) as ->.
      { destruct (snd tp !! rid); [done|]. by rewrite lookup_insert_ne. }
      destruct (snd tp !! r); [done|].
      destruct (bool_decide (r ∈ _)) eqn:E.
      -- apply bool_decide_eq_true_1 in E.
         rewrite bool_decide_eq_true_2; [done | by right].
      -- apply bool_decide_eq_false_1 in E.
         rewrite bool_decide_eq_false_2; [done|].
         intros [?|?]%elem_of_cons; done.
Qed.

(** What [destroy] does to a live manager. *)
Lemma destroy_live st :
wf st -> destroyed st = false ->
destroyed (destroy st) = true
/\ (forall rid p, pendingRequests st !! rid = Some p ->
      promises (destroy st) !! rid = Some (Rejected destroyed_pending)
      /\ timers (destroy st) !! p_timeout p = None)
/\ (forall rid, pendingRequests st !! rid = None ->
      promises (destroy st) !! rid = promises st !! rid)
/\ pendingRequests (destroy st) = ∅
/\ timers (destroy st) = ∅
/\ handlers (destroy st) = ∅
/\ messageListener (destroy st) = false
/\ requestId (destroy st) = requestId st
/\ sent (destroy st) = sent st.
Proof.
intros [Ht Hp Hr Hs Hl Hd] Hlive. unfold destroy. rewrite Hlive. simpl.
destruct (reject_all_spec (map_to_list (pendingRequests st))
            (timers st, promises st)) as [H1 H2]. simpl in *.
assert (Hin : forall rid p, pendingRequests st !! rid = Some p ->
          (rid, p) ∈ map_to_list (pendingRequests st))
  by (intros; by apply elem_of_map_to_list).
split; [done|]. split; [|split; [|split; [|split]]].
- intros rid p Hrp. destruct (Hp rid p Hrp) as (Hto & Hnone & _). split.
  + rewrite H2, Hnone. rewrite bool_decide_eq_true_2; [done|].
    apply list_elem_of_fmap. exists (rid, p). split; [done | by apply Hin].
  + rewrite H1. rewrite bool_decide_eq_true_2; [done|].
    apply list_elem_of_fmap. exists (rid, p). split; [done | by apply Hin].
- intros rid Hnone. rewrite H2. destruct (promises st !! rid); [done|].
  rewrite bool_decide_eq_false_2; [done|].
  intros ([r p] & -> & Hx%elem_of_map_to_list)%list_elem_of_fmap.
  simpl in *. congruence.
- done.
- apply map_empty. intros t. rewrite H1.
  destruct (bool_decide _) eqn:E; [done|].
  apply bool_decide_eq_false_1 in E.
  destruct (timers st !! t) eqn:Et; [|done].
  assert (is_Some (pendingRequests st !! t)) as [p Hp'] by (apply Ht; eauto).
  exfalso. apply E. destruct (Hp t p Hp') as (Hto & _).
  apply list_elem_of_fmap. exists (t, p). split; [done | by apply Hin].
- split; [done|]. split; [|done].
  destruct (messageListener st) eqn:El; [|done]. by rewrite (Hl eq_refl).
Qed.

Lemma wf_destroy st : wf st -> wf (destroy st).
Proof.
intros Hwf. destruct (destroyed st) eqn:Hd.
- unfold destroy. by rewrite Hd.
- destruct (destroy_live st Hwf Hd)
    as (H1 & H2 & H3 & H4 & H5 & H6 & H7 & H8 & H9).
  destruct Hwf as [Ht Hp Hr Hs Hl Hdd]. split.
  + intros rid. by rewrite H4, H5, !lookup_empty.
  + intros rid p. by rewrite H4, lookup_empty.
  + intros rid Hrange. rewrite H8 in Hrange. right.
    destruct (pendingRequests st !! rid) as [p|] eqn:E.
    * destruct (H2 rid p E) as [-> _]. eauto.
    * rewrite (H3 rid E). destruct (Hr rid Hrange) as [[? ?]|?]; [congruence|done].
  + intros rid. rewrite H8.
    destruct (pendingRequests st !! rid) as [p|] eqn:E.
    * intros _. by destruct (Hp rid p E) as (_ & _ & ?).
    * rewrite (H3 rid E). apply Hs.
  + by rewrite H7.
  + done.
Qed.

(** The state of [request] once the timer is armed and the request stored. *)
Lemma wf_issue action st :
wf st ->
wf {| pendingRequests :=
        <[S (requestId st) := {| p_timeout := S (requestId st);
                                 p_action := action;
                                 p_timestamp := now st |}]> (pendingRequests st);
      requestId := S (requestId st);
      defaultTimeout := defaultTimeout st; handlers := handlers st;
      destroyed := false; runtime := runtime st;
      messageListener := messageListener st;
      timers := <[S (requestId st) := action]> (timers st);
      promises := promises st; sent := sent st;
      responses := responses st; tabs := tabs st; now := now st |}.
Proof.
intros [Ht Hp Hr Hs Hl Hd]. split; simpl.
- intros r. destruct (decide (r = S (requestId st))) as [->|Hne].
  + rewrite !lookup_insert_eq. split; eauto.
  + rewrite !lookup_insert_ne by done. apply Ht.
- intros r p. destruct (decide (r = S (requestId st))) as [->|Hne].
  + rewrite lookup_insert_eq. intros [= <-]. simpl. split; [done|].
    split; [|lia].
    destruct (promises st !! S (requestId st)) eqn:E; [|done].
    assert (1 <= S (requestId st) <= requestId st)%nat by (apply Hs; eauto).
    lia.
  + rewrite lookup_insert_ne by done. intros Hrp.
    destruct (Hp r p Hrp) as (? & ? & ?). split; [done|]. split; [done|lia].
- intros r Hrange. destruct (decide (r = S (requestId st))) as [->|Hne].
  + left. by rewrite lookup_insert_eq.
  + rewrite lookup_insert_ne by done. apply Hr. lia.
- intros r Hsome. apply Hs in Hsome. lia.
- done.
- done.
Qed.

Lemma wf_step st op : wf st -> wf (step st op).
Proof.
intros Hwf. destruct op; simpl.
- unfold request. destruct (destroyed st) eqn:Hd; [done|].
  pose proof (wf_issue action st Hwf) as Hst1.
  destruct (runtime st) eqn:Hrt; simpl.
  + by destruct Hst1.
  + apply (wf_finish (S (requestId st)) _ _ Hst1). simpl. lia.
- unfold sendEvent. destruct (destroyed st); [done|].
  destruct (runtime st); [|done]. by destruct Hwf.
- unfold broadcast. destruct (destroyed st); [done|].
  destruct (runtime st) eqn:E.
  + match goal with |- wf (send _ ?x) => assert (wf x) as Hx
      by (by apply wf_fold_send) end.
    by destruct Hx.
  + by apply wf_fold_send.
- by destruct Hwf.
- by destruct Hwf.
- by apply wf_destroy.
- unfold timeout_fires. destruct (timers st !! rid) as [a|] eqn:E; [|done].
  apply wf_finish; [done|].
  destruct Hwf as [Ht Hp _ _ _ _].
  assert (is_Some (pendingRequests st !! rid)) as [p Hrp] by (apply Ht; eauto).
  by destruct (Hp rid p Hrp) as (_ & _ & ?).
- unfold send_fails.
  destruct (Nat.ltb O rid && Nat.leb rid (requestId st)) eqn:E; [|done].
  apply andb_true_iff in E as [E1%Nat.ltb_lt E2%Nat.leb_le].
  apply wf_finish; [done | lia].
- unfold receive. destruct (messageListener st); [|done].
  destruct (destroyed st); [done|]. simpl.
  destruct (in_type m) as [[]|]; try done.
  + unfold _handleRequest.
    destruct (handlers st !! in_name m) as [handler|]; [|by destruct Hwf].
    destruct (handler (in_data m)); by destruct Hwf.
  + unfold _handleResponse.
    destruct (pendingRequests st !! in_requestId m) as [p|] eqn:E; [|done].
    destruct Hwf as [Ht Hp Hr Hs Hl Hd].
    destruct (Hp _ _ E) as (Hto & _ & Hrange). rewrite Hto.
    destruct (in_success m); apply wf_finish; done.
Qed.

Lemma wf_run ops : forall st, wf st -> wf (run ops st).
Proof.
induction ops as [|op ops IH]; intros st H; simpl; [done|].
apply IH. by apply wf_step.
Qed.

(** Once destroyed, nothing the manager is asked to do and nothing its
  environment does changes what is pending, armed, settled or sent. *)
Lemma quiet_step st0 st op : wf st -> quiet st0 st -> quiet st0 (step st op).
Proof.
intros Hwf [Hd Hp Ht Hl Hpr Hs Hr]. destruct op; simpl.
- unfold request. by rewrite Hd.
- unfold sendEvent. by rewrite Hd.
- unfold broadcast. by rewrite Hd.
- done.
- done.
- unfold destroy. by rewrite Hd.
- unfold timeout_fires. by rewrite Ht, lookup_empty.
- unfold send_fails.
  destruct (Nat.ltb O rid && Nat.leb rid (requestId st)) eqn:E; [|done].
  apply andb_true_iff in E as [E1%Nat.ltb_lt E2%Nat.leb_le].
  destruct (wf_requested st Hwf rid) as [[p Hx]|[s Hx]]; [lia| |].
  { by rewrite Hp, lookup_empty in Hx. }
  split; simpl; try done.
  + by rewrite Hp, delete_empty.
  + by rewrite Ht, delete_empty.
  + by rewrite Hx.
- unfold receive. by rewrite Hl.
Qed.

Lemma quiet_run ops : forall st0 st,
wf st -> quiet st0 st -> quiet st0 (run ops st).
Proof.
induction ops as [|op ops IH]; intros st0 st Hwf Hq; simpl; [done|].
apply IH; [by apply wf_step | by apply quiet_step].
Qed.

End Ipc.

(** C9: [destroy()] is terminal.  On a manager that is not yet destroyed
    it rejects, at once, every request still pending with the
    [IPC destroyed - context ending] error and clears its timeout timer,
    clears all handlers and detaches the inbound listener; no request
    stays pending and no timer stays armed.  Whatever is done afterwards
    -- calls of its methods, timers, send failures, deliveries -- the
    manager stays destroyed with nothing pending and nothing armed, the
    settled promises stay as they are, nothing more is sent, every
    [request()] fails immediately and [sendEvent]/[broadcast] do nothing. *)
Theorem C9_destroy_is_terminal :
  forall (has_runtime : bool) (tabs : option (list nat)) (clock : Z)
         (before after : list IPCManager.Op),
    let st := IPCManager.run before (IPCManager.create has_runtime tabs clock) in
    let st' := IPCManager.destroy st in
    let st'' := IPCManager.run after st' in
    IPCManager.destroyed st = false ->
    (forall rid p,
        IPCManager.pendingRequests st !! rid = Some p ->
        IPCManager.promises st' !! rid
        = Some (IPCManager.Rejected IPCManager.destroyed_pending)
        /\ IPCManager.timers st' !! IPCManager.p_timeout p = None
        /\ IPCManager.promises st'' !! rid
           = Some (IPCManager.Rejected IPCManager.destroyed_pending))
    /\ IPCManager.destroyed st' = true
    /\ IPCManager.pendingRequests st' = ∅
    /\ IPCManager.timers st' = ∅
    /\ IPCManager.handlers st' = ∅
    /\ IPCManager.messageListener st' = false
    /\ quiet st' st''
    /\ (forall action data timeout target,
           IPCManager.request action data timeout target st''
           = (Throw IPCManager.destroyed_request, st''))
    /\ (forall event data target,
           IPCManager.sendEvent event data target st'' = st'')
    /\ (forall event data, IPCManager.broadcast event data st'' = st'').
Proof.
  intros has_runtime tabs clock before after st st' st'' Hlive.
  assert (Hwf : wf st) by apply wf_run, wf_create.
  destruct (destroy_live st Hwf Hlive)
    as (H1 & H2 & H3 & H4 & H5 & H6 & H7 & H8 & H9).
  assert (Hq : quiet st' st'').
  { apply quiet_run; [by apply wf_destroy|]. by split. }
  destruct Hq as [Q1 Q2 Q3 Q4 Q5 Q6 Q7].
  split; [|repeat split; try done].
  - intros rid p Hp. destruct (H2 rid p Hp) as [Ha Hb].
    split; [done|]. split; [done|]. by rewrite Q5.
  - intros. unfold IPCManager.request. by rewrite Q1.
  - intros. unfold IPCManager.sendEvent. by rewrite Q1.
  - intros. unfold IPCManager.broadcast. by rewrite Q1.
Qed.

Lemma C9_destroy_is_terminal_witness :
  IPCManager.destroyed one_pending = false
  /\ IPCManager.promises one_pending !! 1%nat = None
  /\ IPCManager.promises (IPCManager.destroy one_pending) !! 1%nat
     = Some (IPCManager.Rejected IPCManager.destroyed_pending)
  /\ IPCManager.timers (IPCManager.destroy one_pending) = ∅
  /\ fst (IPCManager.request "ping" None None None
            (IPCManager.run [IPCManager.TimerFires 1%nat]
               (IPCManager.destroy one_pending)))
     = Throw IPCManager.destroyed_request.
Proof.
  assert (H0 : IPCManager.destroyed one_pending = false) by reflexivity.
  pose proof (C9_destroy_is_terminal true None 0
                [IPCManager.CallRequest "ping" None (Some 50) None]
                [IPCManager.TimerFires 1%nat] H0)
    as (Hp & _ & _ & Ht & _ & _ & _ & Hreq & _).
  split; [exact H0|]. split; [reflexivity|].
  split.
  - exact (proj1 (Hp 1%nat
                    {| IPCManager.p_timeout := 1%nat;
                       IPCManager.p_action := "ping";
                       IPCManager.p_timestamp := 0 |} eq_refl)).
  - split; [exact Ht|].
    exact (f_equal fst (Hreq "ping" None None None)).
Defined.

(** ** IPC: the life of a request *)

Section IpcRequests.
Import IPCManager.

Lemma settle_keeps rid o st r x :
  promises st !! r = Some x -> promises (settle rid o st) !! r = Some x.
Proof.
  intros H. unfold settle. simpl.
  destruct (promises st !! rid) eqn:E; [done|].
  rewrite lookup_insert_ne; [done|]. intros ->. congruence.
Qed.

Lemma reject_all_keeps l : forall tp r x,
  snd tp !! r = Some x -> snd (reject_all l tp) !! r = Some x.
Proof.
  unfold reject_all.
  induction l as [|[k p] l IH]; intros tp r x H; simpl; [done|].
  apply IH. simpl. destruct (snd tp !! k) eqn:E; [done|].
  rewrite lookup_insert_ne; [done|]. intros ->. congruence.
Qed.

Lemma promises_fold_send (f : nat -> Message) l st :
  promises (fold_left (fun st tab => send (f tab) st) l st) = promises st.
Proof.
  revert st. induction l as [|x l IH]; intros st; simpl; [done|].
  by rewrite IH.
Qed.

Lemma promises_step st op r x :
  promises st !! r = Some x -> promises (step st op) !! r = Some x.
Proof.
  intros H. destruct op; simpl.
  - unfold request. destruct (destroyed st); [done|].
    destruct (runtime st); simpl; [done|].
    destruct (promises st !! S (requestId st)) eqn:E; [done|].
    rewrite lookup_insert_ne; [done|]. intros <-. congruence.
  - unfold sendEvent. destruct (destroyed st); [done|].
    by destruct (runtime st).
  - unfold broadcast. destruct (destroyed st); [done|].
    destruct (runtime st); simpl; by rewrite promises_fold_send.
  - done.
  - done.
  - unfold destroy. destruct (destroyed st); [done|]. simpl.
    by apply reject_all_keeps.
  - unfold timeout_fires. destruct (timers st !! rid); [|done].
    by apply settle_keeps.
  - unfold send_fails. destruct (_ && _); [|done]. by apply settle_keeps.
  - unfold receive. destruct (messageListener st); [|done].
    destruct (destroyed st); [done|]. simpl.
    destruct (in_type m) as [[]|]; try done.
    + unfold _handleRequest. destruct (handlers st !! in_name m) as [hd|];
        [|done]. by destruct (hd (in_data m)).
    + unfold _handleResponse.
      destruct (pendingRequests st !! in_requestId m); [|done].
      destruct (in_success m); by apply settle_keeps.
Qed.

Lemma promises_run ops : forall st r x,
  promises st !! r = Some x -> promises (run ops st) !! r = Some x.
Proof.
  induction ops as [|op ops IH]; intros st r x H; simpl; [done|].
  by apply IH, promises_step.
Qed.

(** A manager created with a browser runtime keeps it, and keeps its
    listener attached until it is destroyed. *)
Lemma live_step st op :
  runtime st = true /\ (destroyed st = false -> messageListener st = true) ->
  runtime (step st op) = true
  /\ (destroyed (step st op) = false -> messageListener (step st op) = true).
Proof.
  intros [Hr Hl].
  destruct op; simpl.
  - unfold request. destruct (destroyed st) eqn:Hd; simpl; [split; [done | by rewrite Hd]|].
    rewrite Hr. simpl. auto.
  - unfold sendEvent. destruct (destroyed st) eqn:Hd; simpl;
      [split; [done | by rewrite Hd]|].
    rewrite Hr. simpl. auto.
  - unfold broadcast. destruct (destroyed st) eqn:Hd; simpl;
      [split; [done | by rewrite Hd]|].
    rewrite Hr.
    assert (forall l s, runtime s = true ->
              (destroyed s = false -> messageListener s = true) ->
              let s' := fold_left
                          (fun st0 tab =>
                             send {| msg_type := BROADCAST; msg_name := event;
                                     msg_data := Some (default VNull data);
                                     msg_requestId := None;
                                     msg_timestamp := now st;
                                     msg_to := Some tab |} st0) l s in
              runtime s' = true
              /\ (destroyed s' = false -> messageListener s' = true)) as Hf.
    { induction l as [|x l IH]; intros s H1 H2; simpl; [done|].
      by apply IH. }
    assert (Hl' : destroyed st = false -> messageListener st = true)
      by (intros _; by apply Hl).
    destruct (Hf (List.filter (fun tab => negb (Nat.eqb tab O))
                             (default [] (tabs st))) st Hr Hl')
      as [H1 H2]. simpl in *.
    done.
  - auto.
  - auto.
  - unfold destroy. destruct (destroyed st) eqn:Hd; simpl;
      [split; [done | by rewrite Hd] | done].
  - unfold timeout_fires. destruct (timers st !! rid); simpl; auto.
  - unfold send_fails. destruct (_ && _); simpl; auto.
  - unfold receive. destruct (messageListener st) eqn:E;
      [|simpl; split; [done | intros H; by specialize (Hl H)]].
    destruct (destroyed st) eqn:Hd; simpl; [split; [done | by rewrite Hd]|].
    destruct (in_type m) as [[]|]; simpl; auto.
    + unfold _handleRequest. destruct (handlers st !! in_name m) as [hd|];
        simpl; [|auto]. destruct (hd (in_data m)); simpl; auto.
    + unfold _handleResponse.
      destruct (pendingRequests st !! in_requestId m); [|auto].
      destruct (in_success m); simpl; auto.
Qed.

Lemma live_run ops : forall st,
  runtime st = true /\ (destroyed st = false -> messageListener st = true) ->
  runtime (run ops st) = true
  /\ (destroyed (run ops st) = false -> messageListener (run ops st) = true).
Proof.
  induction ops as [|op ops IH]; intros st H; simpl; [done|].
  by apply IH, live_step.
Qed.

(** What [request] leaves on a live manager with a runtime. *)
Lemma request_issued action data timeout target st :
  wf st -> destroyed st = false -> runtime st = true ->
  let rid := S (requestId st) in
  let st1 := snd (request action data timeout target st) in
  fst (request action data timeout target st) = Normal rid
  /\ pendingRequests st1 !! rid
     = Some {| p_timeout := rid; p_action := action; p_timestamp := now st |}
  /\ timers st1 !! rid = Some action
  /\ promises st1 !! rid = None
  /\ destroyed st1 = false
  /\ messageListener st1 = messageListener st.
Proof.
  intros Hwf Hd Hr rid st1. unfold st1, request. rewrite Hd, Hr. simpl.
  rewrite !lookup_insert_eq. repeat split; try done.
  destruct (promises st !! rid) eqn:E; [|done].
  assert (1 <= rid <= requestId st)%nat by (apply (wf_settled st Hwf); eauto).
  unfold rid in *. lia.
Qed.
End IpcRequests.

(** The promise of a request is settled at most once: whatever it was
    resolved or rejected with stays its outcome, through every later call
    of the manager and every later event (a late response, the timer, a
    failing send, destruction). *)
Theorem ipc_promise_settles_once :
  forall (st : IPCManager.t) (ops : list IPCManager.Op) (rid : nat)
         (o : IPCManager.Settled),
    IPCManager.promises st !! rid = Some o ->
    IPCManager.promises (IPCManager.run ops st) !! rid = Some o.
Proof. intros st ops rid o H. by apply promises_run. Qed.

Lemma ipc_promise_settles_once_witness :
  let st := IPCManager.timeout_fires 1 one_pending in
  let late := {| IPCManager.in_type := Some IPCManager.RESPONSE;
                 IPCManager.in_name := "ping";
                 IPCManager.in_data := Some (VStr "pong");
                 IPCManager.in_requestId := 1%nat;
                 IPCManager.in_success := true;
                 IPCManager.in_error := None |} in
  IPCManager.promises st !! 1%nat
  = Some (IPCManager.Rejected (Error "Request timeout: ping"))
  /\ IPCManager.promises
       (IPCManager.run [IPCManager.Delivered late; IPCManager.CallDestroy] st)
     !! 1%nat
     = Some (IPCManager.Rejected (Error "Request timeout: ping")).
Proof.
  intros st late.
  assert (H : IPCManager.promises st !! 1%nat
              = Some (IPCManager.Rejected (Error "Request timeout: ping")))
    by reflexivity.
  split; [exact H|].
  exact (ipc_promise_settles_once st
           [IPCManager.Delivered late; IPCManager.CallDestroy] 1%nat _ H).
Defined.

(** No request is lost and no timer leaks: in every state a manager can
    reach, each request id issued so far is either pending with its
    timeout timer armed and its promise unsettled, or settled with no
    pending entry and no timer left. *)
Theorem ipc_requests_accounted :
  forall (has_runtime : bool) (tabs : option (list nat)) (clock : Z)
         (ops : list IPCManager.Op) (rid : nat),
    let st := IPCManager.run ops (IPCManager.create has_runtime tabs clock) in
    (1 <= rid <= IPCManager.requestId st)%nat ->
    (is_Some (IPCManager.pendingRequests st !! rid)
     /\ is_Some (IPCManager.timers st !! rid)
     /\ IPCManager.promises st !! rid = None)
    \/ (IPCManager.pendingRequests st !! rid = None
        /\ IPCManager.timers st !! rid = None
        /\ is_Some (IPCManager.promises st !! rid)).
Proof.
  intros has_runtime tabs clock ops rid st Hrid.
  assert (Hwf : wf st) by apply wf_run, wf_create.
  destruct (IPCManager.pendingRequests st !! rid) as [p|] eqn:Ep.
  - left. split; [eauto|]. split.
    + apply (wf_timers st Hwf). rewrite Ep. eauto.
    + by destruct (wf_pending st Hwf rid p Ep) as (_ & ? & _).
  - right. split; [done|]. split.
    + destruct (IPCManager.timers st !! rid) eqn:Et; [|done].
      assert (is_Some (IPCManager.pendingRequests st !! rid)) as [? ?]
          by (apply (wf_timers st Hwf); rewrite Et; eauto).
      congruence.
    + destruct (wf_requested st Hwf rid Hrid) as [[? ?]|?]; [congruence|done].
Qed.

Lemma ipc_requests_accounted_witness :
  let st := IPCManager.run
              [IPCManager.CallRequest "a" None None None;
               IPCManager.CallRequest "b" None None None;
               IPCManager.TimerFires 1%nat]
              (IPCManager.create true None 0) in
  (1 <= 2 <= IPCManager.requestId st)%nat
  /\ ((is_Some (IPCManager.pendingRequests st !! 2%nat)
       /\ is_Some (IPCManager.timers st !! 2%nat)
       /\ IPCManager.promises st !! 2%nat = None)
      \/ (IPCManager.pendingRequests st !! 2%nat = None
          /\ IPCManager.timers st !! 2%nat = None
          /\ is_Some (IPCManager.promises st !! 2%nat))).
Proof.
  intros st.
  assert (H : (1 <= 2 <= IPCManager.requestId st)%nat) by (vm_compute; lia).
  split; [exact H|].
  exact (ipc_requests_accounted true None 0
           [IPCManager.CallRequest "a" None None None;
            IPCManager.CallRequest "b" None None None;
            IPCManager.TimerFires 1%nat] 2%nat H).
Defined.

(** A request made on a live manager with a browser runtime gets the next
    request id; when a RESPONSE message with that id and [success: true]
    is delivered, the promise of the request resolves with the data of the
    response, the pending entry is removed and the timeout timer cleared. *)
Theorem ipc_response_resolves :
  forall (tabs : option (list nat)) (clock : Z) (ops : list IPCManager.Op)
         (action : string) (data : option value) (timeout : option Z)
         (target : option nat) (m : IPCManager.Incoming),
    let st := IPCManager.run ops (IPCManager.create true tabs clock) in
    let rid := S (IPCManager.requestId st) in
    let st1 := snd (IPCManager.request action data timeout target st) in
    let st2 := IPCManager.receive m st1 in
    IPCManager.destroyed st = false ->
    IPCManager.in_type m = Some IPCManager.RESPONSE ->
    IPCManager.in_requestId m = rid ->
    IPCManager.in_success m = true ->
    fst (IPCManager.request action data timeout target st) = Normal rid
    /\ IPCManager.promises st1 !! rid = None
    /\ IPCManager.promises st2 !! rid
       = Some (IPCManager.Resolved (IPCManager.in_data m))
    /\ IPCManager.pendingRequests st2 !! rid = None
    /\ IPCManager.timers st2 !! rid = None.
Proof.
  intros tabs clock ops action data timeout target m st rid st1 st2
    Hd Hty Hid Hok.
  assert (Hwf : wf st) by apply wf_run, wf_create.
  destruct (live_run ops (IPCManager.create true tabs clock)) as [Hr Hl];
    [done|]. fold st in Hr, Hl.
  destruct (request_issued action data timeout target st Hwf Hd Hr)
    as (H1 & H2 & H3 & H4 & H5 & H6).
  fold rid in H1, H2, H3, H4. fold st1 in H2, H3, H4, H5, H6.
  split; [done|]. split; [done|].
  unfold st2, IPCManager.receive. rewrite H6, (Hl Hd), H5, Hty. simpl.
  unfold IPCManager._handleResponse. rewrite Hid, H2, Hok. simpl.
  rewrite H4, lookup_insert_eq, !lookup_delete_eq. done.
Qed.

Lemma ipc_response_resolves_witness :
  let st := IPCManager.create true None 0 in
  let m := {| IPCManager.in_type := Some IPCManager.RESPONSE;
              IPCManager.in_name := "ping";
              IPCManager.in_data := Some (VStr "pong");
              IPCManager.in_requestId := 1%nat;
              IPCManager.in_success := true;
              IPCManager.in_error := None |} in
  IPCManager.promises
    (IPCManager.receive m
       (snd (IPCManager.request "ping" None None None st))) !! 1%nat
  = Some (IPCManager.Resolved (Some (VStr "pong"))).
Proof.
  intros st m.
  exact (proj1 (proj2 (proj2
           (ipc_response_resolves None 0 [] "ping" None None None m
              eq_refl eq_refl eq_refl eq_refl)))).
Defined.

(** When the timeout timer of a pending request fires first, its promise
    is rejected with [Request timeout: <action>] and the pending entry is
    removed; a response that arrives later, or anything else that happens,
    no longer changes the outcome. *)
Theorem ipc_timeout_rejects :
  forall (tabs : option (list nat)) (clock : Z) (ops later : list IPCManager.Op)
         (action : string) (data : option value) (timeout : option Z)
         (target : option nat),
    let st := IPCManager.run ops (IPCManager.create true tabs clock) in
    let rid := S (IPCManager.requestId st) in
    let st1 := snd (IPCManager.request action data timeout target st) in
    let st2 := IPCManager.timeout_fires rid st1 in
    IPCManager.destroyed st = false ->
    IPCManager.promises st2 !! rid
    = Some (IPCManager.Rejected (Error ("Request timeout: " +:+ action)))
    /\ IPCManager.pendingRequests st2 !! rid = None
    /\ IPCManager.timers st2 !! rid = None
    /\ IPCManager.promises (IPCManager.run later st2) !! rid
       = Some (IPCManager.Rejected (Error ("Request timeout: " +:+ action))).
Proof.
  intros tabs clock ops later action data timeout target st rid st1 st2 Hd.
  assert (Hwf : wf st) by apply wf_run, wf_create.
  destruct (live_run ops (IPCManager.create true tabs clock)) as [Hr Hl];
    [done|]. fold st in Hr, Hl.
  destruct (request_issued action data timeout target st Hwf Hd Hr)
    as (H1 & H2 & H3 & H4 & H5 & H6).
  fold rid in H1, H2, H3, H4. fold st1 in H2, H3, H4, H5, H6.
  assert (Hp : IPCManager.promises st2 !! rid
               = Some (IPCManager.Rejected
                         (Error ("Request timeout: " +:+ action)))).
  { unfold st2, IPCManager.timeout_fires. rewrite H3. simpl.
    by rewrite H4, lookup_insert_eq. }
  split; [done|]. split; [|split].
  - unfold st2, IPCManager.timeout_fires. rewrite H3. simpl.
    by rewrite lookup_delete_eq.
  - unfold st2, IPCManager.timeout_fires. rewrite H3. simpl.
    by rewrite lookup_delete_eq.
  - by apply promises_run.
Qed.

Lemma ipc_timeout_rejects_witness :
  let st := IPCManager.create true None 0 in
  let late := {| IPCManager.in_type := Some IPCManager.RESPONSE;
                 IPCManager.in_name := "ping";
                 IPCManager.in_data := Some (VStr "pong");
                 IPCManager.in_requestId := 1%nat;
                 IPCManager.in_success := true;
                 IPCManager.in_error := None |} in
  IPCManager.promises
    (IPCManager.run [IPCManager.Delivered late]
       (IPCManager.timeout_fires 1
          (snd (IPCManager.request "ping" None None None st)))) !! 1%nat
  = Some (IPCManager.Rejected (Error "Request timeout: ping")).
Proof.
  intros st late.
  exact (proj2 (proj2 (proj2
           (ipc_timeout_rejects None 0 [] [IPCManager.Delivered late]
              "ping" None None None eq_refl)))).
Defined.

(** ** Settings: reading back, framing, persistence, watchers *)

Section SettingsFacts.
Import SettingsStore.

(** What is read depends on the document only. *)
Lemma get_doc s s' p k : doc s = doc s' -> get s p k = get s' p k.
Proof. intros H. unfold get. by rewrite H. Qed.

Lemma isPluginEnabled_doc s s' p :
  doc s = doc s' -> isPluginEnabled s p = isPluginEnabled s' p.
Proof. intros H. unfold isPluginEnabled. by rewrite H. Qed.

(** The three ways [set] can go. *)
Lemma set_cases p k v skip s h :
  (negb skip && negb (_validate s p k v) = true
   /\ set p k v skip (s, h)
      = (Throw (Error ("Invalid value for " +:+ p +:+ "." +:+ k)), (s, h)))
  \/ (negb skip && negb (_validate s p k v) = false
      /\ exists s1,
          (exists e, assign p k v s = (Throw e, s1)
                     /\ set p k v skip (s, h) = (Throw e, (s1, h)))
          \/ (assign p k v s = (Normal tt, s1)
              /\ exists h',
                  set p k v skip (s, h)
                  = (Normal tt,
                     (_notifyWatchers p k v (get s p k) (_queuePersist s1),
                      h')))).
Proof.
  unfold set. destruct (negb skip && negb (_validate s p k v)); [by left|].
  right. split; [done|].
  destruct (assign p k v s) as [[[]|e] s1] eqn:Ea; exists s1.
  - right. split; [done|]. eauto.
  - left. exists e. done.
Qed.

(** The assignment of [set], when it goes through. *)
Lemma assign_normal p k v s s1 :
  assign p k v s = (Normal tt, s1) ->
  schemas s1 = schemas s /\ watchers s1 = watchers s
  /\ batchTimeout s1 = batchTimeout s /\ stored s1 = stored s
  /\ notified s1 = notified s
  /\ get s1 p k = Some v
  /\ (forall p' k', p' <> p -> get s1 p' k' = get s p' k')
  /\ (forall k', k' <> k -> k' <> "enabled" -> get s1 p k' = get s p k')
  /\ (k <> "enabled" ->
      forall p', isPluginEnabled s1 p' = isPluginEnabled s p').
Proof.
  unfold assign.
  destruct (String.eqb p "core") eqn:Ecore.
  - apply String.eqb_eq in Ecore as ->. intros [= <-]. simpl.
    repeat split; try done.
    + unfold get. simpl. by rewrite lookup_insert_eq.
    + intros p' k' Hne. unfold get. simpl.
      destruct (String.eqb p' "core") eqn:E; [|done].
      by apply String.eqb_eq in E.
    + intros k' Hk _. unfold get. simpl. by rewrite lookup_insert_ne.
  - apply String.eqb_neq in Ecore.
    assert (Hother : forall ps p' k',
              p' <> p ->
              get (with_doc (with_plugins (<[p := ps]> (plugins (doc s)))
                               (doc s)) s) p' k'
              = get s p' k').
    { intros ps p' k' Hne. unfold get. simpl.
      destruct (String.eqb p' "core"); [done|].
      by rewrite lookup_insert_ne. }
    destruct (String.eqb k "enabled") eqn:Ek.
    + apply String.eqb_eq in Ek as ->. intros [= <-]. simpl.
      repeat split; try done.
      * unfold get. simpl. apply String.eqb_neq in Ecore. rewrite Ecore.
        by rewrite lookup_insert_eq.
      * apply Hother.
      * intros k' _ Hk. unfold get. simpl.
        apply String.eqb_neq in Ecore, Hk. rewrite Ecore, lookup_insert_eq.
        simpl. rewrite Hk.
        by destruct (plugins (doc s) !! p) as [entry|].
    + apply String.eqb_neq in Ek.
      destruct (settings (default {| enabled := Some (VBool false);
                                     settings := Some ∅ |}
                            (plugins (doc s) !! p))) as [kv|] eqn:Ekv;
        [|done].
      intros [= <-]. simpl. repeat split; try done.
      * unfold get. simpl. apply String.eqb_neq in Ecore, Ek.
        rewrite Ecore, lookup_insert_eq. simpl. rewrite Ek.
        by rewrite lookup_insert_eq.
      * apply Hother.
      * intros k' Hk Hk'. unfold get. simpl.
        apply String.eqb_neq in Ecore, Hk'.
        rewrite Ecore, lookup_insert_eq. simpl. rewrite Hk'.
        rewrite lookup_insert_ne by done.
        destruct (plugins (doc s) !! p) as [entry|]; simpl in *;
          [by rewrite Ekv|]. by injection Ekv as <-.
      * intros _ p'. unfold isPluginEnabled. simpl.
        destruct (decide (p' = p)) as [->|Hne];
          [|by rewrite lookup_insert_ne].
        rewrite lookup_insert_eq.
        by destruct (plugins (doc s) !! p) as [entry|].
Qed.



Lemma validate_schemas s s' p k v :
  schemas s = schemas s' -> _validate s p k v = _validate s' p k v.
Proof. intros H. unfold _validate. by rewrite H. Qed.
End SettingsFacts.

(** A [set] that returns normally is read back by [get]: for every store,
    every plugin id (or [core]) and key (a setting or [enabled]) that are
    ordinary names, and every value. *)
Theorem settings_set_then_get :
  forall (s : SettingsStore.t) (h : HookSystem.t) (p k : string) (v : value)
         (skip : bool),
    ordinary p -> ordinary k ->
    fst (SettingsStore.set p k v skip (s, h)) = Normal tt ->
    SettingsStore.get (fst (snd (SettingsStore.set p k v skip (s, h)))) p k
    = Some v.
Proof.
  intros s h p k v skip _ _ H.
  destruct (set_cases p k v skip s h) as [[_ E]|(_ & s1 & E)].
  - by rewrite E in H.
  - destruct E as [(e & Ha & E)|(Ha & h' & E)]; rewrite E in *; [done|].
    simpl. destruct (assign_normal p k v s s1 Ha)
      as (_ & _ & _ & _ & _ & Hg & _).
    by rewrite <- Hg.
Qed.

Lemma settings_set_then_get_witness :
  SettingsStore.get
    (fst (snd (SettingsStore.set "q" "color" (VStr "red") false
                 (SettingsStore.initial, HookSystem.empty)))) "q" "color"
  = Some (VStr "red").
Proof.
  exact (settings_set_then_get SettingsStore.initial HookSystem.empty
           "q" "color" (VStr "red") false eq_refl eq_refl eq_refl).
Defined.

(** A [set] under ordinary names that returns normally changes nothing
    else that can be read under ordinary names: every key of every other
    plugin (and of [core]) reads as before, every other setting of the
    same plugin reads as before, and, unless the key is [enabled], every
    plugin's enabled state is as before (a plugin entry created by the
    call starts disabled). *)
Theorem settings_set_frame :
  forall (s : SettingsStore.t) (h : HookSystem.t) (p k : string) (v : value)
         (skip : bool),
    let s' := fst (snd (SettingsStore.set p k v skip (s, h))) in
    ordinary p -> ordinary k ->
    fst (SettingsStore.set p k v skip (s, h)) = Normal tt ->
    (forall p' k', ordinary p' -> ordinary k' -> p' <> p ->
                   SettingsStore.get s' p' k' = SettingsStore.get s p' k')
    /\ (forall k', ordinary k' -> k' <> k -> k' <> "enabled" ->
                   SettingsStore.get s' p k' = SettingsStore.get s p k')
    /\ (k <> "enabled" ->
        forall p', ordinary p' ->
                   SettingsStore.isPluginEnabled s' p'
                   = SettingsStore.isPluginEnabled s p').
Proof.
  intros s h p k v skip s' _ _ H. unfold s'.
  destruct (set_cases p k v skip s h) as [[_ E]|(_ & s1 & E)].
  - by rewrite E in H.
  - destruct E as [(e & Ha & E)|(Ha & h' & E)]; rewrite E in *; [done|].
    simpl. destruct (assign_normal p k v s s1 Ha)
      as (_ & _ & _ & _ & _ & _ & H1 & H2 & H3).
    split; [|split].
    + intros p' k' _ _ Hne. rewrite <- (H1 p' k' Hne). by apply get_doc.
    + intros k' _ Hk Hk'. rewrite <- (H2 k' Hk Hk'). by apply get_doc.
    + intros Hk p' _. rewrite <- (H3 Hk p'). by apply isPluginEnabled_doc.
Qed.

Lemma settings_set_frame_witness :
  let s := SettingsStore.registerSchema "p" schema_x SettingsStore.initial in
  let s' := fst (snd (SettingsStore.set "q" "color" (VStr "red") false
                        (s, HookSystem.empty))) in
  SettingsStore.get s' "p" "x" = Some (VNum 5)
  /\ SettingsStore.isPluginEnabled s' "q" = false.
Proof.
  intros s s'.
  destruct (settings_set_frame s HookSystem.empty "q" "color" (VStr "red")
              false eq_refl eq_refl eq_refl) as (H1 & _ & H3).
  unfold s'. split.
  - rewrite (H1 "p" "x" eq_refl eq_refl); [reflexivity | discriminate].
  - rewrite (H3 ltac:(discriminate) "q" eq_refl). reflexivity.
Defined.

(** For a setting declared [{type: "number", min: lo, max: hi}] (no enum,
    no custom validator), validation accepts exactly the numbers between
    [lo] and [hi]; for any other value [set] throws
    [Invalid value for <plugin>.<key>] and changes nothing, neither in the
    store nor in the hook system (nothing is emitted). *)
Theorem settings_number_bounds :
  forall (s : SettingsStore.t) (h : HookSystem.t) (p k : string)
         (schema : Schema) (def : SettingDef) (lo hi : Z) (v : value),
    SettingsStore.schemas s !! p = Some schema ->
    schema !! k = Some def ->
    sd_type def = Some "number" ->
    sd_min def = Some lo -> sd_max def = Some hi ->
    sd_enum def = None -> sd_validator def = None ->
    (SettingsStore._validate s p k v = true
     <-> exists n, v = VNum n /\ lo <= n <= hi)
    /\ ((~ exists n, v = VNum n /\ lo <= n <= hi) ->
        SettingsStore.set p k v false (s, h)
        = (Throw (Error ("Invalid value for " +:+ p +:+ "." +:+ k)), (s, h))).
Proof.
  intros s h p k schema def lo hi v Hs Hk Hty Hlo Hhi Hen Hva.
  assert (Hv : SettingsStore._validate s p k v = true
               <-> exists n, v = VNum n /\ lo <= n <= hi).
  { unfold SettingsStore._validate. rewrite Hs, Hk.
    unfold SettingsStore.type_ok. rewrite Hty, Hlo, Hhi, Hen, Hva. simpl.
    destruct v as [|b|n|x|l|l]; simpl;
      try (split; [discriminate | by intros (? & ? & _)]).
    destruct (Z.ltb_spec n lo), (Z.ltb_spec hi n); simpl; split;
      try discriminate; try (intros (m & [= <-] & ?); lia).
    intros _. exists n. split; [done | lia]. }
  split; [done|]. intros Hno.
  unfold SettingsStore.set.
  destruct (SettingsStore._validate s p k v) eqn:E; [|done].
  exfalso. by apply Hno, Hv.
Qed.

Lemma settings_number_bounds_witness :
  let bounded : Schema :=
    {[ "size" := {| sd_type := Some "number"; sd_default := Some (VNum 12);
                    sd_enum := None; sd_min := Some 8; sd_max := Some 72;
                    sd_validator := None |} ]} in
  let s := SettingsStore.registerSchema "p" bounded SettingsStore.initial in
  SettingsStore._validate s "p" "size" (VNum 72) = true
  /\ SettingsStore.set "p" "size" (VNum 73) false (s, HookSystem.empty)
     = (Throw (Error "Invalid value for p.size"), (s, HookSystem.empty)).
Proof.
  intros bounded s.
  destruct (settings_number_bounds s HookSystem.empty "p" "size" bounded
              {| sd_type := Some "number"; sd_default := Some (VNum 12);
                 sd_enum := None; sd_min := Some 8; sd_max := Some 72;
                 sd_validator := None |} 8 72 (VNum 72)
              eq_refl eq_refl eq_refl eq_refl eq_refl eq_refl eq_refl)
    as [Hv _].
  split.
  - apply Hv. exists 72. split; [reflexivity | lia].
  - apply (settings_number_bounds s HookSystem.empty "p" "size" bounded
             {| sd_type := Some "number"; sd_default := Some (VNum 12);
                sd_enum := None; sd_min := Some 8; sd_max := Some 72;
                sd_validator := None |} 8 72 (VNum 73)
             eq_refl eq_refl eq_refl eq_refl eq_refl eq_refl eq_refl).
    intros (n & [= <-] & ?). lia.
Defined.



Section SettingsFacts2.
Import SettingsStore.

(** For a plugin, [isPluginEnabled] is the truthiness of its [enabled]
    key. *)
Lemma isPluginEnabled_get s p :
  p <> "core" ->
  isPluginEnabled s p
  = match get s p "enabled" with Some v => truthy v | None => false end.
Proof.
  intros Hp. apply String.eqb_neq in Hp.
  unfold isPluginEnabled, get. rewrite Hp.
  by destruct (plugins (doc s) !! p) as [entry|].
Qed.

(** Setting [enabled] never fails. *)
Lemma assign_enabled p v s :
  exists s1, assign p "enabled" v s = (Normal tt, s1).
Proof.
  unfold assign. destruct (String.eqb p "core"); simpl; eauto.
Qed.


Lemma existsb_eqb w ws : existsb (Nat.eqb w) ws = true <-> w ∈ ws.
Proof.
  rewrite existsb_exists. split.
  - intros (x & Hx & ->%Nat.eqb_eq). by apply list_elem_of_In.
  - intros H. exists w. split; [by apply list_elem_of_In | apply Nat.eqb_refl].
Qed.

(** A successful assignment keeps every other key that could be read. *)
Lemma assign_keeps_read p k v s s1 k' x :
  assign p k v s = (Normal tt, s1) -> k' <> k ->
  get s p k' = Some x -> get s1 p k' = Some x.
Proof.
  intros Ha Hk Hg.
  destruct (decide (k' = "enabled")) as [->|Hen].
  - revert Ha Hg. unfold assign, get.
    destruct (String.eqb p "core") eqn:Ecore.
    + intros [= <-]. simpl. by rewrite lookup_insert_ne.
    + destruct (plugins (doc s) !! p) as [entry|] eqn:Ee; [|done]. simpl.
      assert (String.eqb k "enabled" = false) as ->
          by (apply String.eqb_neq; congruence).
      destruct (settings entry) as [kv|]; [|done].
      intros [= <-]. simpl. by rewrite lookup_insert_eq.
  - destruct (assign_normal p k v s s1 Ha)
      as (_ & _ & _ & _ & _ & _ & _ & H2 & _).
    by rewrite (H2 k' Hk Hen).
Qed.
(** Writing the [enabled] flag of a plugin, validation skipped. *)
Lemma set_enabled_spec p b s h :
  p <> "core" ->
  exists s' h',
    set p "enabled" (VBool b) true (s, h) = (Normal tt, (s', h'))
    /\ isPluginEnabled s' p = b
    /\ schemas s' = schemas s.
Proof.
  intros Hp.
  destruct (assign_enabled p (VBool b) s) as [s1 Ha].
  destruct (set_cases p "enabled" (VBool b) true s h)
    as [[E _]|(_ & s1' & E)]; [done|].
  destruct E as [(e & Ha' & _)|(Ha' & h' & E)]; [congruence|].
  assert (s1' = s1) as -> by congruence.
  eexists _, h'. split; [exact E|].
  destruct (assign_normal p "enabled" (VBool b) s s1 Ha)
    as (Hs & _ & _ & _ & _ & Hg & _).
  split; [|done].
  rewrite (isPluginEnabled_get _ p Hp).
  rewrite (get_doc _ s1 p "enabled") by done. by rewrite Hg.
Qed.
End SettingsFacts2.





Section SettingsFacts3.
Import SettingsStore.

(** A [set] that passes validation on such a store goes through. *)
Lemma set_valid p k v s h :
  _validate s p k v = true -> has_settings s p ->
  exists s' h',
    set p k v false (s, h) = (Normal tt, (s', h'))
    /\ has_settings s' p
    /\ schemas s' = schemas s
    /\ get s' p k = Some v
    /\ (forall k' x, k' <> k -> get s p k' = Some x -> get s' p k' = Some x).
Proof.
  intros Hv Hok.
  destruct (set_cases p k v false s h) as [[E _]|(_ & s1 & E)];
    [by rewrite Hv in E|].
  destruct E as [(e & Ha & _)|(Ha & h' & E)].
  - exfalso. revert Ha. unfold assign.
    destruct (String.eqb p "core"); [done|].
    destruct (String.eqb k "enabled"); [done|].
    destruct (plugins (doc s) !! p) as [entry|] eqn:Ee; simpl; [|done].
    by destruct (Hok entry Ee) as [kv ->].
  - eexists _, h'. split; [exact E|].
    destruct (assign_normal p k v s s1 Ha)
      as (Hs & _ & _ & _ & _ & Hg & _).
    split; [|split; [done|split]].
    + intros entry. simpl. revert Ha. unfold assign.
      destruct (String.eqb p "core").
      { intros [= <-]. simpl. apply Hok. }
      destruct (String.eqb k "enabled").
      { intros [= <-]. simpl. rewrite lookup_insert_eq. intros [= <-]. simpl.
        destruct (plugins (doc s) !! p) as [e0|] eqn:Ee; simpl; [|eauto].
        by apply Hok. }
      destruct (settings _) as [kv|]; [|done].
      intros [= <-]. simpl. rewrite lookup_insert_eq. intros [= <-]. eauto.
    + rewrite <- Hg. by apply get_doc.
    + intros k' x Hk Hx.
      rewrite <- (assign_keeps_read p k v s s1 k' x Ha Hk Hx).
      by apply get_doc.
Qed.

(** [setMany] on a list whose first invalid entry is [(k, v)]. *)
Lemma setMany_prefix p k v after : forall before s h,
  has_settings s p ->
  NoDup (map fst before) ->
  Forall (fun kv => _validate s p (fst kv) (snd kv) = true) before ->
  _validate s p k v = false ->
  let r := setMany p (before ++ (k, v) :: after) (s, h) in
  fst r = Throw (Error ("Invalid value for " +:+ p +:+ "." +:+ k))
  /\ (forall k' v', (k', v') ∈ before -> get (fst (snd r)) p k' = Some v')
  /\ (forall k' x, k' ∉ map fst before -> get s p k' = Some x ->
                   get (fst (snd r)) p k' = Some x).
Proof.
  induction before as [|[k0 v0] before IH]; intros s h Hok Hnd Hall Hbad.
  - assert (E : set p k v false (s, h)
                = (Throw (Error ("Invalid value for " +:+ p +:+ "." +:+ k)),
                   (s, h)))
      by (unfold set; by rewrite Hbad).
    unfold setMany. cbn [app for_of fst snd]. unfold bind at 1 2 3.
    rewrite E. cbn [fst snd].
    split; [done|]. split; [|done]. by intros k' v' ?%elem_of_nil.
  - simpl in Hnd. apply NoDup_cons in Hnd as [Hk0 Hnd].
    apply Forall_cons in Hall as [Hv0 Hall]. simpl in Hv0.
    destruct (set_valid p k0 v0 s h Hv0 Hok)
      as (s1 & h1 & E & Hok1 & Hs1 & Hg1 & Hkeep1).
    assert (Hall1 : Forall
              (fun kv => _validate s1 p (fst kv) (snd kv) = true) before).
    { eapply Forall_impl; [exact Hall|]. intros kv Hkv.
      by rewrite (validate_schemas s1 s p (fst kv) (snd kv) Hs1). }
    assert (Hbad1 : _validate s1 p k v = false)
      by (by rewrite (validate_schemas s1 s p k v Hs1)).
    destruct (IH s1 h1 Hok1 Hnd Hall1 Hbad1) as (Hthrow & Hread & Hkeep).
    assert (Hstep : setMany p (((k0, v0) :: before) ++ (k, v) :: after) (s, h)
                    = setMany p (before ++ (k, v) :: after) (s1, h1)).
    { unfold setMany. cbn [app for_of fst snd]. unfold bind at 1.
      by rewrite E. }
    cbn zeta. rewrite Hstep. split; [done|]. split.
    + intros k' v' [[= -> ->]|Hin]%elem_of_cons; [|by apply Hread].
      by apply Hkeep.
    + intros k' x Hnot Hx. apply Hkeep.
      * intros Hin. apply Hnot. simpl. by right.
      * apply Hkeep1; [|done]. intros ->. apply Hnot. simpl. by left.
Qed.
End SettingsFacts3.

(** [setMany] is not atomic: when the settings object holds an invalid
    value, the call throws at that key, and the keys before it -- all
    valid, and ordinary names like the plugin id -- stay written. *)
Theorem settings_setMany_stops_at_first_invalid :
  forall (s : SettingsStore.t) (h : HookSystem.t) (p : string)
         (before after : list (string * value)) (k : string) (v : value),
    let r := SettingsStore.setMany p (before ++ (k, v) :: after) (s, h) in
    ordinary p ->
    Forall (fun kv => ordinary (fst kv)) before ->
    has_settings s p ->
    NoDup (map fst before) ->
    Forall (fun kv => SettingsStore._validate s p (fst kv) (snd kv) = true)
           before ->
    SettingsStore._validate s p k v = false ->
    fst r = Throw (Error ("Invalid value for " +:+ p +:+ "." +:+ k))
    /\ (forall k' v', (k', v') ∈ before ->
                      SettingsStore.get (fst (snd r)) p k' = Some v').
Proof.
  intros s h p before after k v r _ _ Hok Hnd Hall Hbad.
  destruct (setMany_prefix p k v after before s h Hok Hnd Hall Hbad)
    as (H1 & H2 & _).
  by split.
Qed.

Lemma settings_setMany_stops_at_first_invalid_witness :
  let s := SettingsStore.registerSchema "p" schema_x SettingsStore.initial in
  let r := SettingsStore.setMany "p"
             [("y", VNum 1); ("x", VStr "oops"); ("z", VNum 2)]
             (s, HookSystem.empty) in
  fst r = Throw (Error "Invalid value for p.x")
  /\ SettingsStore.get (fst (snd r)) "p" "y" = Some (VNum 1)
  /\ SettingsStore.get (fst (snd r)) "p" "z" = None.
Proof.
  intros s r.
  assert (Hok : has_settings s "p").
  { intros entry H. vm_compute in H. injection H as <-. simpl. eauto. }
  assert (Hnd : NoDup (map fst [("y", VNum 1)]))
    by (simpl; apply NoDup_singleton).
  assert (Hall : Forall
            (fun kv => SettingsStore._validate s "p" (fst kv) (snd kv) = true)
            [("y", VNum 1)]) by (repeat constructor).
  assert (Hord : Forall (fun kv : string * value => ordinary (fst kv))
                         [("y", VNum 1)]) by (repeat constructor).
  destruct (settings_setMany_stops_at_first_invalid s HookSystem.empty "p"
              [("y", VNum 1)] [("z", VNum 2)] "x" (VStr "oops")
              eq_refl Hord Hok Hnd Hall eq_refl) as [H1 H2].
  split; [exact H1|]. split; [|reflexivity].
  apply H2. by left.
Defined.

(** [registerSchema], for a plugin id and a schema with ordinary names,
    keeps every setting the plugin already has and gives every other key
    (an ordinary name) its declared default (none if the schema declares
    none); the enabled flag is kept, a new entry starting disabled.
    Registering the same schema again changes nothing. *)
Theorem settings_registerSchema_fills_defaults :
  forall (s : SettingsStore.t) (p : string) (schema : Schema),
    let s' := SettingsStore.registerSchema p schema s in
    ordinary p ->
    ordinary_keys schema ->
    p <> "core" ->
    has_settings s p ->
    (forall k, ordinary k -> k <> "enabled" ->
               SettingsStore.get s' p k
               = match SettingsStore.get s p k with
                 | Some v => Some v
                 | None => schema !! k ≫= sd_default
                 end)
    /\ SettingsStore.isPluginEnabled s' p = SettingsStore.isPluginEnabled s p
    /\ SettingsStore.registerSchema p schema s' = s'.
Proof.
  intros s p schema s' _ _ Hp Hok. unfold s'. apply String.eqb_neq in Hp.
  split; [|split].
  - intros k _ Hk. apply String.eqb_neq in Hk.
    unfold SettingsStore.registerSchema, SettingsStore.get. simpl.
    rewrite Hp.
    destruct (SettingsStore.plugins (SettingsStore.doc s) !! p)
      as [entry|] eqn:Ee; rewrite lookup_insert_eq; simpl; rewrite Hk.
    + destruct (Hok entry Ee) as [kv Hkv]. rewrite Hkv. simpl.
      rewrite lookup_union. unfold SettingsStore._getDefaults.
      rewrite lookup_omap. by destruct (kv !! k), (schema !! k ≫= sd_default).
    + unfold SettingsStore._getDefaults. apply lookup_omap.
  - unfold SettingsStore.registerSchema, SettingsStore.isPluginEnabled. simpl.
    by destruct (SettingsStore.plugins (SettingsStore.doc s) !! p)
      as [entry|] eqn:Ee; rewrite lookup_insert_eq.
  - unfold SettingsStore.registerSchema. simpl.
    destruct (SettingsStore.plugins (SettingsStore.doc s) !! p)
      as [entry|] eqn:Ee; rewrite lookup_insert_eq; simpl;
      rewrite !insert_insert_eq.
    + by rewrite <- (assoc_L (∪)), (idemp_L (∪)).
    + by rewrite (idemp_L (∪)).
Qed.

Lemma settings_registerSchema_fills_defaults_witness :
  let s0 := fst (snd (SettingsStore.set "p" "y" (VNum 1) false
                        (SettingsStore.initial, HookSystem.empty))) in
  let s' := SettingsStore.registerSchema "p" schema_x s0 in
  SettingsStore.get s' "p" "y" = Some (VNum 1)
  /\ SettingsStore.get s' "p" "x" = Some (VNum 5)
  /\ SettingsStore.registerSchema "p" schema_x s' = s'.
Proof.
  intros s0 s'.
  assert (Hp : "p" <> "core") by discriminate.
  assert (Hok : has_settings s0 "p").
  { intros entry H. vm_compute in H. injection H as <-. simpl. eauto. }
  destruct (settings_registerSchema_fills_defaults s0 "p" schema_x
              eq_refl schema_x_ordinary Hp Hok) as (H1 & _ & H3).
  unfold s'. split; [|split; [|exact H3]].
  - rewrite (H1 "y" eq_refl ltac:(discriminate)). reflexivity.
  - rewrite (H1 "x" eq_refl ltac:(discriminate)). reflexivity.
Defined.

(** ** Registry: the two sides of the dependency graph *)

Section DependentsFold.
Import PluginRegistry.
Variable id : string.

Lemma add_dependents deps : forall (ds : gmap string (list string)) d,
  default [] (fold_left
                (fun ds depId =>
                   <[depId := (default [] (ds !! depId) ++ [id])%list]> ds)
                deps ds !! d)
  = default [] (ds !! d) ++ replicate (occ d deps) id.
Proof.
  induction deps as [|a deps IH]; intros ds d; simpl.
  - unfold occ. simpl. by rewrite app_nil_r.
  - rewrite IH. unfold occ. simpl.
    destruct (String.eqb d a) eqn:E.
    + apply String.eqb_eq in E as <-. rewrite lookup_insert_eq. simpl.
      by rewrite <- app_assoc.
    + apply String.eqb_neq in E. by rewrite lookup_insert_ne.
Qed.

Lemma remove_dependents deps : forall (ds : gmap string (list string)) d,
  default [] (fold_left
                (fun ds depId =>
                   match ds !! depId with
                   | Some dependentsList =>
                       <[depId := remove_id id dependentsList]> ds
                   | None => ds
                   end)
                deps ds !! d)
  = Nat.iter (occ d deps) (remove_id id) (default [] (ds !! d)).
Proof.
  induction deps as [|a deps IH]; intros ds d; [done|].
  cbn [fold_left]. rewrite IH. unfold occ. cbn [List.filter].
  destruct (String.eqb d a) eqn:E; cbn [length].
  - apply String.eqb_eq in E as <-. rewrite Nat.iter_succ_r.
    f_equal. destruct (ds !! d) as [l|] eqn:El; simpl.
    + by rewrite lookup_insert_eq.
    + by rewrite El.
  - apply String.eqb_neq in E. f_equal.
    destruct (ds !! a); [|done]. by rewrite lookup_insert_ne.
Qed.

Lemma remove_id_app l rest :
  id ∉ l -> remove_id id (l ++ id :: rest) = l ++ rest.
Proof.
  induction l as [|x l IH]; intros Hn; simpl.
  - by rewrite String.eqb_refl.
  - apply not_elem_of_cons in Hn as [Hx Hl].
    assert (String.eqb x id = false) as -> by (apply String.eqb_neq; congruence).
    by rewrite IH.
Qed.

Lemma remove_replicate l n :
  id ∉ l -> Nat.iter n (remove_id id) (l ++ replicate n id) = l.
Proof.
  intros Hn. induction n as [|n IH].
  - simpl. by rewrite app_nil_r.
  - rewrite Nat.iter_succ_r. cbn [replicate].
    by rewrite remove_id_app.
Qed.

Lemma occ_elem d deps : (0 < occ d deps)%nat <-> d ∈ deps.
Proof. apply occ_pos. Qed.
End DependentsFold.

(** What [register] does with a manifest whose id is new. *)
Lemma register_new r manifest :
  m_id manifest <> "" ->
  PluginRegistry.manifests r !! m_id manifest = None ->
  let id := m_id manifest in
  let allDeps := default [] (m_dependencies manifest)
                 ++ default [] (m_optionalDependencies manifest) in
  let r' := snd (PluginRegistry.register manifest r) in
  fst (PluginRegistry.register manifest r) = Normal tt
  /\ PluginRegistry.manifests r' = <[id := manifest]> (PluginRegistry.manifests r)
  /\ PluginRegistry.instances r' = PluginRegistry.instances r
  /\ PluginRegistry.states r'
     = <[id := PluginRegistry.UNLOADED]> (PluginRegistry.states r)
  /\ PluginRegistry.errors r' = PluginRegistry.errors r
  /\ PluginRegistry.metadata r'
     = <[id := {| PluginRegistry.registeredAt := PluginRegistry.now r;
                  PluginRegistry.loadTime := None;
                  PluginRegistry.lastError := None |}]>
         (PluginRegistry.metadata r)
  /\ PluginRegistry.dependencies r'
     = <[id := allDeps]> (PluginRegistry.dependencies r)
  /\ (forall d, PluginRegistry.getDependents r' d
                = PluginRegistry.getDependents r d
                  ++ replicate (occ d allDeps) id)
  /\ PluginRegistry.now r' = PluginRegistry.now r.
Proof.
  intros Hid Hnew id allDeps r'. unfold r', PluginRegistry.register.
  apply String.eqb_neq in Hid. rewrite Hid.
  rewrite bool_decide_eq_false_2 by (rewrite Hnew; by intros [? ?]).
  simpl. repeat split; try done.
  intros d. unfold PluginRegistry.getDependents. simpl. apply add_dependents.
Qed.

(** Registering a manifest under an id the registry does not know, then
    unregistering that id, gives back the registry: every map is as it
    was, and so is the list of dependents of every plugin. *)
Theorem registry_register_unregister :
  forall (r : PluginRegistry.t) (manifest : Manifest),
    let id := m_id manifest in
    let r' := PluginRegistry.unregister id
                (snd (PluginRegistry.register manifest r)) in
    id <> "" ->
    unknown r id ->
    PluginRegistry.manifests r' = PluginRegistry.manifests r
    /\ PluginRegistry.instances r' = PluginRegistry.instances r
    /\ PluginRegistry.states r' = PluginRegistry.states r
    /\ PluginRegistry.errors r' = PluginRegistry.errors r
    /\ PluginRegistry.metadata r' = PluginRegistry.metadata r
    /\ PluginRegistry.dependencies r' = PluginRegistry.dependencies r
    /\ (forall d, PluginRegistry.getDependents r' d
                  = PluginRegistry.getDependents r d).
Proof.
  intros r manifest id r' Hid [U1 U2 U3 U4 U5 U6 U7 U8].
  destruct (register_new r manifest Hid U1)
    as (_ & R1 & R2 & R3 & R4 & R5 & R6 & R7 & _).
  fold id in R1, R2, R3, R4, R5, R6, R7.
  unfold r', PluginRegistry.unregister. simpl.
  rewrite R1, R2, R3, R4, R5, R6.
  rewrite !delete_insert_id by done. rewrite (delete_id _ _ U2), (delete_id _ _ U4).
  repeat split; try done.
  intros d. unfold PluginRegistry.getDependents at 1. simpl.
  rewrite lookup_insert_eq. simpl.
  destruct (decide (d = id)) as [->|Hne].
  - rewrite lookup_delete_eq. unfold PluginRegistry.getDependents.
    by rewrite U7.
  - rewrite lookup_delete_ne by done. rewrite remove_dependents.
    fold (PluginRegistry.getDependents
            (snd (PluginRegistry.register manifest r)) d).
    rewrite R7. apply remove_replicate, U8.
Qed.

Lemma registry_register_unregister_witness :
  let r := registry_of [manifest_of "b" []] in
  let r' := PluginRegistry.unregister "a"
              (snd (PluginRegistry.register (manifest_of "a" ["b"; "b"]) r)) in
  PluginRegistry.getDependents
    (snd (PluginRegistry.register (manifest_of "a" ["b"; "b"]) r)) "b"
  = ["a"; "a"]
  /\ PluginRegistry.manifests r' = PluginRegistry.manifests r
  /\ PluginRegistry.getDependents r' "b" = PluginRegistry.getDependents r "b".
Proof.
  intros r r'. split; [reflexivity|].
  assert (Hid : m_id (manifest_of "a" ["b"; "b"]) <> "") by discriminate.
  assert (Hu : unknown r (m_id (manifest_of "a" ["b"; "b"]))).
  { split; try reflexivity. intros d.
    unfold PluginRegistry.getDependents.
    replace (PluginRegistry.dependents r) with (∅ : gmap string (list string))
      by reflexivity.
    rewrite lookup_empty. simpl. apply not_elem_of_nil. }
  destruct (registry_register_unregister r (manifest_of "a" ["b"; "b"]) Hid Hu)
    as (H1 & _ & _ & _ & _ & _ & H7).
  split; [exact H1 | exact (H7 "b")].
Defined.

(** The two sides of the dependency graph agree in every registry built by
    [register]: [dep] is among the dependencies (required or optional) of
    [id] exactly when [id] is among the dependents of [dep]. *)
Theorem registry_dependents_mirror_dependencies :
  forall (ms : list Manifest) (id dep : string),
    dep ∈ PluginRegistry.getDependencies (registry_of ms) id
    <-> id ∈ PluginRegistry.getDependents (registry_of ms) dep.
Proof.
  intros ms.
  set (I := fun r : PluginRegistry.t =>
              (forall id dep,
                  dep ∈ PluginRegistry.getDependencies r id
                  <-> id ∈ PluginRegistry.getDependents r dep)
              /\ (forall id, PluginRegistry.manifests r !! id = None ->
                             PluginRegistry.dependencies r !! id = None)).
  assert (Hstep : forall r m, I r -> I (snd (PluginRegistry.register m r))).
  { intros r m [Hsym Hkeys].
    destruct (decide (m_id m = "")) as [He|Hid].
    { unfold PluginRegistry.register. apply String.eqb_eq in He.
      by rewrite He. }
    destruct (PluginRegistry.manifests r !! m_id m) as [m0|] eqn:Em.
    { unfold PluginRegistry.register. apply String.eqb_neq in Hid.
      rewrite Hid, bool_decide_eq_true_2 by (rewrite Em; eauto). done. }
    destruct (register_new r m Hid Em)
      as (_ & R1 & _ & _ & _ & _ & R6 & R7 & _).
    set (allDeps := default [] (m_dependencies m)
                    ++ default [] (m_optionalDependencies m)) in *.
    assert (Hnone : PluginRegistry.getDependencies r (m_id m) = []).
    { unfold PluginRegistry.getDependencies. by rewrite (Hkeys _ Em). }
    split.
    - intros id dep. rewrite R7. unfold PluginRegistry.getDependencies.
      rewrite R6. rewrite elem_of_app, elem_of_replicate.
      destruct (decide (id = m_id m)) as [->|Hne].
      + rewrite lookup_insert_eq. simpl. split.
        * intros Hd. right. split; [done|].
          apply (occ_elem dep allDeps) in Hd. lia.
        * intros [Hold|[_ Hocc]].
          -- apply Hsym in Hold. rewrite Hnone in Hold.
             by apply elem_of_nil in Hold.
          -- apply occ_elem. lia.
      + rewrite lookup_insert_ne by done.
        fold (PluginRegistry.getDependencies r id). rewrite Hsym.
        split; [by left|]. intros [?|[? _]]; [done|congruence].
    - intros id. rewrite R1, R6.
      destruct (decide (id = m_id m)) as [->|Hne].
      + by rewrite lookup_insert_eq.
      + rewrite !lookup_insert_ne by done. apply Hkeys.
  }
  assert (Hall : forall l r, I r ->
            I (fold_left (fun r m => snd (PluginRegistry.register m r)) l r)).
  { induction l as [|m l IH]; intros r Hr; simpl; [done|].
    by apply IH, Hstep. }
  assert (H0 : I (PluginRegistry.empty 0)).
  { split; [|done]. intros id dep.
    unfold PluginRegistry.getDependencies, PluginRegistry.getDependents.
    simpl. rewrite !lookup_empty. simpl.
    split; by intros ?%elem_of_nil. }
  apply (Hall ms _ H0).
Qed.

(** ** Loader: when there is a load order, and what loading does *)

(** With no cycle among them, Kahn's loop resolves every id. *)
Lemma acyclic_resolves_all r ids result :
  acyclic r ids ->
  (forall v, v ∈ ids -> (v ∈ result <-> indeg (edges r ids) result v = O)) ->
  forall v, v ∈ ids -> v ∈ result.
Proof.
  intros Hacyc Hzero v Hv.
  destruct (decide (v ∈ result)) as [|Hn]; [done|]. exfalso.
  destruct (closed_set_has_cycle (dep_edge r ids)
              (PluginLoader.unresolved result ids)) as (x & Hx).
  - intros Hnil. assert (v ∈ PluginLoader.unresolved result ids) as H
        by by apply elem_unresolved.
    rewrite Hnil in H. by apply elem_of_nil in H.
  - intros w [Hw Hwn]%elem_unresolved.
    destruct (indeg_pos (edges r ids) result w) as (u & Hu & Hun).
    { intros Hz. by apply Hwn, Hzero. }
    exists u. split; [|by apply dep_edge_edges].
    apply elem_unresolved. split; [|done]. by apply E_ids in Hu as [? _].
  - by apply (Hacyc x).
Qed.

(** [resolveLoadOrder] returns an order exactly for the lists of ids that
    name no id twice and whose dependencies among themselves have no
    cycle; for every other list it throws. *)
Theorem loader_order_exists_iff :
  forall (r : PluginRegistry.t) (ids : list string),
    (exists order, PluginLoader.resolveLoadOrder r ids = Some (Normal order))
    <-> NoDup ids /\ acyclic r ids.
Proof.
  intros r ids.
  destruct (kahn_result_spec r ids)
    as (result & Hk & Hnd & Hsub & Htopo & Hzero).
  unfold PluginLoader.resolveLoadOrder. rewrite Hk. split.
  - intros [order H].
    destruct (Nat.eqb (length result) (length ids)) eqn:Hlen; [|done].
    apply Nat.eqb_eq in Hlen. split.
    + assert (result ≡ₚ ids) as Hp.
      { apply submseteq_length_Permutation; [by apply NoDup_submseteq | lia]. }
      by rewrite <- Hp.
    + intros x Hx.
      apply (cycle_unresolved r ids result x Hnd Htopo Hx).
      apply (same_length_covers result ids Hnd Hsub Hlen).
      by apply (tc_dep_edge_ids r ids x x).
  - intros [Hids Hacyc]. exists result.
    assert (length result = length ids) as ->.
    { apply Nat.le_antisymm; apply submseteq_length, NoDup_submseteq; auto.
      by apply (acyclic_resolves_all r ids). }
    by rewrite Nat.eqb_refl.
Qed.

Section Independent.
Lemma set_fresh {V} (m : JsMap.t V) k v :
  k ∉ JsMap.keys m -> JsMap.set m k v = m ++ [(k, v)].
Proof.
  induction m as [|[k' v'] m IH]; simpl; intros Hn; [done|].
  apply not_elem_of_cons in Hn as [Hk Hm].
  assert (String.eqb k' k = false) as -> by (apply String.eqb_neq; congruence).
  by rewrite IH.
Qed.

Lemma init_graph_fresh l : forall (gi : PluginLoader.Graph),
  NoDup l ->
  (forall x, x ∈ l ->
             (x ∉ JsMap.keys (fst gi)) /\ (x ∉ JsMap.keys (snd gi))) ->
  fold_left (fun (gi : PluginLoader.Graph) id =>
               (JsMap.set (fst gi) id [], JsMap.set (snd gi) id 0)) l gi
  = (fst gi ++ map (fun id => (id, [])) l,
     snd gi ++ map (fun id => (id, 0)) l).
Proof.
  induction l as [|id l IH]; intros [g d] Hnd Hfresh; simpl.
  - by rewrite !app_nil_r.
  - apply NoDup_cons in Hnd as [Hid Hnd].
    destruct (Hfresh id) as [Hg Hd]; [by left|]. simpl in *.
    rewrite IH; [|done|]; simpl.
    + rewrite (set_fresh g id [] Hg), (set_fresh d id 0 Hd).
      by rewrite <- !app_assoc.
    + intros x Hx. rewrite (set_fresh g id [] Hg), (set_fresh d id 0 Hd).
      unfold JsMap.keys. rewrite !map_app. simpl.
      destruct (Hfresh x) as [Hxg Hxd]; [by right|].
      split; intros [?|?%list_elem_of_singleton]%elem_of_app; try done;
        congruence.
Qed.

Lemma kahn_no_edges g : forall fuel d q res,
  (forall c, get_list g c = []) ->
  (length q <= fuel)%nat ->
  PluginLoader.kahn fuel g d q res = Some (res ++ q).
Proof.
  induction fuel as [|fuel IH]; intros d q res Hg Hlen.
  - destruct q; simpl in *; [by rewrite app_nil_r | lia].
  - destruct q as [|c rest]; simpl in *; [by rewrite app_nil_r|].
    fold (get_list g c). rewrite Hg. simpl.
    rewrite IH; [by rewrite <- app_assoc | done | lia].
Qed.
End Independent.

(** Plugins that do not depend on each other are loaded in the order they
    are given: for a list naming no id twice in which no plugin has a
    dependency that is also in the list, [resolveLoadOrder] returns the
    list itself. *)
Theorem loader_independent_plugins_keep_order :
  forall (r : PluginRegistry.t) (ids : list string),
    NoDup ids ->
    (forall id dep, id ∈ ids ->
                    dep ∈ PluginRegistry.getDependencies r id -> dep ∉ ids) ->
    PluginLoader.resolveLoadOrder r ids = Some (Normal ids).
Proof.
  intros r ids Hnd Hind.
  assert (He : edges r ids = []).
  { apply elem_of_nil_inv. intros [d id] H.
    apply elem_edges_from in H as (Hid & Hd & Hdep).
    by apply (Hind id d). }
  assert (Hgi : PluginLoader.build_edges r ids (PluginLoader.init_graph ids)
                = (map (fun id => (id, [])) ids, map (fun id => (id, 0)) ids)).
  { rewrite build_edges_eq, He. simpl. unfold PluginLoader.init_graph.
    rewrite init_graph_fresh; [done | done |].
    intros x _. simpl. split; apply not_elem_of_nil. }
  unfold PluginLoader.resolveLoadOrder, PluginLoader.kahn_result.
  rewrite Hgi. simpl.
  assert (Hq : PluginLoader.initial_queue (map (fun id : string => (id, 0)) ids)
               = ids).
  { unfold PluginLoader.initial_queue. clear.
    induction ids as [|x l IH]; simpl; [done|]. by rewrite IH. }
  rewrite Hq, kahn_no_edges; simpl.
  - by rewrite Nat.eqb_refl.
  - intros c. unfold get_list. clear.
    induction ids as [|x l IH]; simpl; [done|].
    by destruct (String.eqb x c).
  - done.
Qed.

Lemma loader_independent_plugins_keep_order_witness :
  PluginLoader.resolveLoadOrder
    (registry_of [manifest_of "a" ["z"]; manifest_of "c" []; manifest_of "b" []])
    ["c"; "a"; "b"]
  = Some (Normal ["c"; "a"; "b"]).
Proof.
  apply loader_independent_plugins_keep_order.
  - apply (bool_decide_unpack (NoDup ["c"; "a"; "b"])). vm_compute. exact I.
  - intros id dep Hid Hdep.
    rewrite !elem_of_cons, elem_of_nil in Hid.
    destruct Hid as [->|[->|[->|[]]]]; vm_compute in Hdep.
    + by apply elem_of_nil in Hdep.
    + apply list_elem_of_singleton in Hdep as ->.
      rewrite !elem_of_cons, elem_of_nil. intros H.
      repeat destruct H as [H|H]; done.
    + by apply elem_of_nil in Hdep.
Defined.

Section Loading.
Import PluginRegistry PluginLoader.
Variable imports : Imports.

Lemma filter_all {A} (p : A -> bool) l :
  (forall x, p x = true) -> List.filter p l = l.
Proof.
  intros H. induction l as [|x l IH]; simpl; [done|]. by rewrite H, IH.
Qed.

Lemma filter_none {A} (p : A -> bool) l :
  (forall x, p x = false) -> List.filter p l = [].
Proof.
  intros H. induction l as [|x l IH]; simpl; [done|]. by rewrite H.
Qed.

Lemma not_active_eqb r x :
  no_active r -> State_eqb (getState r x) ACTIVE = false.
Proof. intros H. specialize (H x). by destruct (getState r x). Qed.

(** With no plugin ACTIVE, every required dependency is missing and no
    conflict is found. *)
Lemma checks_no_active r id m :
  no_active r -> getManifest r id = Some m ->
  checkDependencies r id
  = (match default [] (m_dependencies m) with [] => true | _ => false end,
     default [] (m_dependencies m))
  /\ checkConflicts r id = (false, []).
Proof.
  intros Hna Hm. unfold checkDependencies, checkConflicts. rewrite Hm.
  split.
  - rewrite filter_all; [done|].
    intros x. by rewrite not_active_eqb.
  - destruct (m_conflicts m) as [cs|]; [|done].
    rewrite filter_none; [done|].
    intros x. pose proof (not_active_eqb r x Hna) as H.
    unfold getState in H. by destruct (states r !! x).
Qed.

Lemma same_at_refl x lr : same_at x lr lr.
Proof. by repeat split. Qed.

Lemma load_outcome_same info m id lr lr' :
  same_at id lr lr' ->
  load_outcome imports info m id lr -> load_outcome imports info m id lr'.
Proof.
  intros (H1 & H2 & H3 & H4). unfold load_outcome, getState, getError,
    getInstance, isLoaded. by rewrite H1, H2, H3, H4.
Qed.

(** One call of [loadPlugin] while no plugin is ACTIVE. *)
Lemma loadPlugin_step l r id :
  no_active r ->
  let lr' := snd (loadPlugin imports id (l, r)) in
  no_active (snd lr')
  /\ manifests (snd lr') = manifests r
  /\ (forall x, x <> id -> same_at x (l, r) lr')
  /\ (forall info m,
         pluginModules l !! id = Some info -> mi_loaded info = false ->
         getManifest r id = Some m ->
         load_outcome imports info m id lr').
Proof.
  intros Hna.
  assert (Herr : forall e r0,
            manifests r0 = manifests r ->
            (forall x, x <> id -> states r0 !! x = states r !! x
                                  /\ errors r0 !! x = errors r !! x
                                  /\ instances r0 !! x = instances r !! x) ->
            no_active (setError id e r0)
            /\ manifests (setError id e r0) = manifests r
            /\ (forall x, x <> id -> same_at x (l, r) (l, setError id e r0))).
  { intros e r0 Hm Hf. split; [|split; [done|]].
    - intros x. unfold getState, setError, setState. simpl.
      destruct (decide (x = id)) as [->|Hne].
      + by rewrite lookup_insert_eq.
      + rewrite lookup_insert_ne by done.
        destruct (Hf x Hne) as (-> & _). apply Hna.
    - intros x Hne. destruct (Hf x Hne) as (H1 & H2 & H3).
      unfold same_at, setError, setState. simpl.
      by rewrite !lookup_insert_ne. }
  unfold loadPlugin.
  destruct (pluginModules l !! id) as [info|] eqn:Ei; simpl;
    [|split; [done|]; split; [done|]; split;
      [intros; apply same_at_refl | done]].
  destruct (mi_loaded info) eqn:El; simpl;
    [split; [done|]; split; [done|]; split;
      [intros; apply same_at_refl | intros ? ? [= <-]; congruence]|].
  destruct (getManifest r id) as [m|] eqn:Em.
  - destruct (checks_no_active r id m Hna Em) as [-> ->]. simpl.
    destruct (default [] (m_dependencies m)) as [|d ds] eqn:Ed; simpl.
    + destruct (imports (modulePath (mi_path info))) as [inst|e] eqn:Eimp;
        simpl.
      * split; [|split; [by destruct inst|split]].
        -- intros x. unfold getState, setState. simpl.
           destruct (decide (x = id)) as [->|Hne].
           ++ by rewrite lookup_insert_eq.
           ++ rewrite lookup_insert_ne by done.
              destruct inst; simpl; rewrite lookup_insert_ne by done;
                apply Hna.
        -- intros x Hne. unfold same_at. simpl.
           rewrite !lookup_insert_ne by done.
           destruct inst; simpl; rewrite ?lookup_insert_ne,
             ?lookup_delete_ne by done; done.
        -- intros info' m' [= <-] _ [= <-]. unfold load_outcome.
           rewrite Ed, Eimp. unfold getState, getInstance, isLoaded. simpl.
           rewrite !lookup_insert_eq. split; [done|]. split; [|done].
           destruct inst; simpl;
             [by rewrite lookup_insert_eq | by rewrite lookup_delete_eq].
      * destruct (Herr e (setState id LOADING r)) as (H1 & H2 & H3).
        { done. }
        { intros x Hne. unfold setState. simpl.
          by rewrite lookup_insert_ne. }
        split; [done|]. split; [done|]. split; [done|].
        intros info' m' [= <-] _ [= <-]. unfold load_outcome.
        rewrite Ed, Eimp. split; [apply getState_setError|].
        split; [apply getError_setError|].
        unfold isLoaded. simpl. by rewrite Ei.
    + destruct (Herr (Error ("Missing required dependencies: "
                             +:+ join ", " (d :: ds))) r)
        as (H1 & H2 & H3); [done | done |].
      split; [done|]. split; [done|]. split; [done|].
      intros info' m' [= <-] _ [= <-]. unfold load_outcome. rewrite Ed.
      split; [apply getState_setError|].
      split; [apply getError_setError|].
      unfold isLoaded. simpl. by rewrite Ei.
  - unfold checkDependencies. rewrite Em. simpl.
    destruct (Herr (Error ("Missing required dependencies: " +:+ join ", " []))
                r) as (H1 & H2 & H3); [done | done |].
    split; [done|]. split; [done|]. split; [done|]. done.
Qed.

(** The loop of [loadPlugins] while no plugin is ACTIVE. *)
Lemma load_each_spec order : forall loaded l r,
  NoDup order -> no_active r ->
  let lr' := snd (load_each imports order loaded (l, r)) in
  no_active (snd lr')
  /\ manifests (snd lr') = manifests r
  /\ (forall x, x ∉ order -> same_at x (l, r) lr')
  /\ (forall id info m,
         id ∈ order ->
         pluginModules l !! id = Some info -> mi_loaded info = false ->
         getManifest r id = Some m ->
         load_outcome imports info m id lr').
Proof.
  induction order as [|x order IH]; intros loaded l r Hnd Hna.
  - simpl. split; [done|]. split; [done|].
    split; [intros; apply same_at_refl|].
    by intros id info m ?%elem_of_nil.
  - cbn [load_each]. apply NoDup_cons in Hnd as [Hx Hnd].
    pose proof (loadPlugin_step l r x Hna) as Hstep.
    destruct (loadPlugin imports x (l, r)) as [res [l1 r1]] eqn:E.
    simpl in Hstep. destruct Hstep as (Hna1 & Hm1 & Hf1 & Ho1).
    assert (Hrest : forall loaded',
              let lr' := snd (load_each imports order loaded' (l1, r1)) in
              no_active (snd lr')
              /\ manifests (snd lr') = manifests r
              /\ (forall y, y ∉ x :: order -> same_at y (l, r) lr')
              /\ (forall id info m,
                     id ∈ x :: order ->
                     pluginModules l !! id = Some info ->
                     mi_loaded info = false ->
                     getManifest r id = Some m ->
                     load_outcome imports info m id lr')).
    { intros loaded'. destruct (IH loaded' l1 r1 Hnd Hna1)
        as (Ha & Hb & Hc & Hd).
      split; [done|]. split; [by rewrite Hb|]. split.
      - intros y Hy. apply not_elem_of_cons in Hy as [Hyx Hyo].
        destruct (Hf1 y Hyx) as (A1 & A2 & A3 & A4).
        destruct (Hc y Hyo) as (B1 & B2 & B3 & B4).
        unfold same_at in *. simpl in *.
        by rewrite B1, B2, B3, B4.
      - intros id info m [->|Hin]%elem_of_cons Hi Hl Hman.
        + apply (load_outcome_same info m x (l1, r1)); [by apply Hc|].
          by apply Ho1.
        + assert (Hne : id <> x) by (intros ->; done).
          destruct (Hf1 id Hne) as (_ & _ & _ & A4). simpl in A4.
          apply Hd; [done | by rewrite A4 | done |].
          unfold getManifest in *. by rewrite Hm1. }
    destruct res as [inst|e]; apply Hrest.
Qed.

(** [loadPlugins] while no plugin is ACTIVE. *)
Lemma loadPlugins_outcome ids l r res lr' id info m :
  no_active r ->
  loadPlugins imports ids (l, r) = Some (Normal res, lr') ->
  id ∈ ids ->
  pluginModules l !! id = Some info -> mi_loaded info = false ->
  getManifest r id = Some m ->
  load_outcome imports info m id lr'.
Proof.
  intros Hna Hload Hid Hi Hl Hm. unfold loadPlugins in Hload. simpl in Hload.
  destruct (kahn_result_spec r ids)
    as (result & Hk & Hnd & Hsub & Htopo & Hzero).
  unfold resolveLoadOrder in Hload. rewrite Hk in Hload.
  destruct (Nat.eqb (length result) (length ids)) eqn:Hlen; simpl in Hload;
    [|done].
  apply Nat.eqb_eq in Hlen.
  pose proof (load_each_spec result [] l r Hnd Hna) as Hspec.
  destruct (load_each imports result [] (l, r)) as [loaded lr1] eqn:E.
  simpl in Hspec. injection Hload as <- <-.
  destruct Hspec as (_ & _ & _ & Hout).
  apply Hout; try done.
  by apply (same_length_covers result ids).
Qed.
End Loading.

(** While no plugin is ACTIVE -- as when the framework starts -- a plugin
    that declares a required dependency is never loaded by [loadPlugins],
    not even together with that dependency: [loadPlugin] asks for its
    dependencies to be ACTIVE, so the plugin ends in the ERROR state with
    [Missing required dependencies: ...] naming all of them. *)
Theorem loader_dependent_fails_to_load :
  forall (imports : PluginLoader.Imports) (ids : list string)
         (l : PluginLoader.t) (r : PluginRegistry.t)
         (loaded : list (option Manifest))
         (lr' : PluginLoader.t * PluginRegistry.t)
         (id : string) (info : PluginLoader.ModuleInfo) (m : Manifest)
         (d : string) (ds : list string),
    no_active r ->
    PluginLoader.loadPlugins imports ids (l, r) = Some (Normal loaded, lr') ->
    id ∈ ids ->
    PluginLoader.pluginModules l !! id = Some info ->
    PluginLoader.mi_loaded info = false ->
    PluginRegistry.getManifest r id = Some m ->
    m_dependencies m = Some (d :: ds) ->
    PluginRegistry.getState (snd lr') id = PluginRegistry.ERROR
    /\ PluginRegistry.getError (snd lr') id
       = Some (Error ("Missing required dependencies: "
                      +:+ join ", " (d :: ds)))
    /\ PluginLoader.isLoaded (fst lr') id = false.
Proof.
  intros imports ids l r loaded lr' id info m d ds Hna Hload Hid Hi Hl Hm Hd.
  pose proof (loadPlugins_outcome imports ids l r loaded lr' id info m
                Hna Hload Hid Hi Hl Hm) as H.
  unfold load_outcome in H. by rewrite Hd in H.
Qed.

Lemma loader_dependent_fails_to_load_witness :
  let imports : PluginLoader.Imports :=
    fun path => if String.eqb path "/a/index.js"
                then Normal (Some (manifest_of "a" ["b"]))
                else Normal (Some (manifest_of "b" [])) in
  exists loaded lr',
    PluginLoader.loadPlugins imports ["a"; "b"]
      (discovered ["a"; "b"], registry_ab) = Some (Normal loaded, lr')
    /\ PluginRegistry.getState (snd lr') "b" = PluginRegistry.LOADED
    /\ PluginRegistry.getState (snd lr') "a" = PluginRegistry.ERROR
    /\ PluginRegistry.getError (snd lr') "a"
       = Some (Error "Missing required dependencies: b").
Proof.
  intros imports.
  destruct (PluginLoader.loadPlugins imports ["a"; "b"]
              (discovered ["a"; "b"], registry_ab))
    as [[[loaded|e] lr']|] eqn:E; try (vm_compute in E; discriminate).
  exists loaded, lr'. split; [reflexivity|].
  assert (Hna : no_active registry_ab).
  { intros x. unfold PluginRegistry.getState.
    replace (PluginRegistry.states registry_ab)
      with (<["b" := PluginRegistry.UNLOADED]>
              (<["a" := PluginRegistry.UNLOADED]> ∅)
            : gmap string PluginRegistry.State) by reflexivity.
    destruct (decide (x = "b")) as [->|Hb]; [by rewrite lookup_insert_eq|].
    rewrite lookup_insert_ne by done.
    destruct (decide (x = "a")) as [->|Ha]; [by rewrite lookup_insert_eq|].
    by rewrite lookup_insert_ne. }
  destruct (loader_dependent_fails_to_load imports ["a"; "b"]
              (discovered ["a"; "b"]) registry_ab loaded lr' "a"
              {| PluginLoader.mi_path := "a"; PluginLoader.mi_loaded := false |}
              (manifest_of "a" ["b"]) "b" [] Hna E
              ltac:(by left) eq_refl eq_refl eq_refl eq_refl)
    as (H1 & H2 & _).
  split; [|split; [exact H1 | exact H2]].
  vm_compute in E. injection E as _ <-. reflexivity.
Defined.

(** While no plugin is ACTIVE, [loadPlugins] loads every discovered plugin
    without required dependencies whose module can be imported, whatever
    happens to the other plugins of the list (a failure of one does not
    stop the loop): the plugin ends in the LOADED state with the default
    export of its module as its instance. *)
Theorem loader_independent_plugin_loads :
  forall (imports : PluginLoader.Imports) (ids : list string)
         (l : PluginLoader.t) (r : PluginRegistry.t)
         (loaded : list (option Manifest))
         (lr' : PluginLoader.t * PluginRegistry.t)
         (id : string) (info : PluginLoader.ModuleInfo) (m inst : Manifest),
    no_active r ->
    PluginLoader.loadPlugins imports ids (l, r) = Some (Normal loaded, lr') ->
    id ∈ ids ->
    PluginLoader.pluginModules l !! id = Some info ->
    PluginLoader.mi_loaded info = false ->
    PluginRegistry.getManifest r id = Some m ->
    default [] (m_dependencies m) = [] ->
    imports (PluginLoader.modulePath (PluginLoader.mi_path info))
    = Normal (Some inst) ->
    PluginRegistry.getState (snd lr') id = PluginRegistry.LOADED
    /\ PluginRegistry.getInstance (snd lr') id = Some inst
    /\ PluginLoader.isLoaded (fst lr') id = true.
Proof.
  intros imports ids l r loaded lr' id info m inst
    Hna Hload Hid Hi Hl Hm Hd Himp.
  pose proof (loadPlugins_outcome imports ids l r loaded lr' id info m
                Hna Hload Hid Hi Hl Hm) as H.
  unfold load_outcome in H. by rewrite Hd, Himp in H.
Qed.

Lemma loader_independent_plugin_loads_witness :
  let imports : PluginLoader.Imports :=
    fun path => if String.eqb path "/b/index.js"
                then Normal (Some (manifest_of "b" []))
                else Throw (Error "no such module") in
  exists loaded lr',
    PluginLoader.loadPlugins imports ["a"; "b"]
      (discovered ["a"; "b"], registry_ab) = Some (Normal loaded, lr')
    /\ PluginRegistry.getState (snd lr') "b" = PluginRegistry.LOADED
    /\ PluginRegistry.getInstance (snd lr') "b" = Some (manifest_of "b" [])
    /\ PluginLoader.isLoaded (fst lr') "b" = true.
Proof.
  intros imports.
  destruct (PluginLoader.loadPlugins imports ["a"; "b"]
              (discovered ["a"; "b"], registry_ab))
    as [[[loaded|e] lr']|] eqn:E; try (vm_compute in E; discriminate).
  exists loaded, lr'. split; [reflexivity|].
  assert (Hna : no_active registry_ab).
  { intros x. unfold PluginRegistry.getState.
    replace (PluginRegistry.states registry_ab)
      with (<["b" := PluginRegistry.UNLOADED]>
              (<["a" := PluginRegistry.UNLOADED]> ∅)
            : gmap string PluginRegistry.State) by reflexivity.
    destruct (decide (x = "b")) as [->|Hb]; [by rewrite lookup_insert_eq|].
    rewrite lookup_insert_ne by done.
    destruct (decide (x = "a")) as [->|Ha]; [by rewrite lookup_insert_eq|].
    by rewrite lookup_insert_ne. }
  exact (loader_independent_plugin_loads imports ["a"; "b"]
           (discovered ["a"; "b"]) registry_ab loaded lr' "b"
           {| PluginLoader.mi_path := "b"; PluginLoader.mi_loaded := false |}
           (manifest_of "b" []) (manifest_of "b" []) Hna E
           ltac:(right; by left) eq_refl eq_refl eq_refl eq_refl eq_refl).
Defined.

(** ** Lifecycle: what a start and a stop need, and what an error leaves *)

Section LifecycleFacts.
Import PluginRegistry.

Lemma filter_nonempty {A} (p : A -> bool) l x :
  x ∈ l -> p x = true -> x ∈ List.filter p l.
Proof. intros Hx Hp. apply elem_filter. by split. Qed.

Lemma getState_clearError id r x :
  getState (clearError id r) x = getState r x.
Proof. done. Qed.

Lemma getError_clearError id r : getError (clearError id r) id = None.
Proof. unfold getError, clearError. simpl. apply lookup_delete_eq. Qed.

Lemma State_eqb_eq a b : State_eqb a b = true <-> a = b.
Proof. destruct a, b; simpl; split; congruence. Qed.

Lemma startable_eqb s :
  s = LOADED \/ s = STOPPED ->
  State_eqb s ACTIVE = false
  /\ negb (State_eqb s LOADED) && negb (State_eqb s STOPPED) = false.
Proof. by intros [-> | ->]. Qed.

End LifecycleFacts.

(** A start that goes through: for a module in the LOADED or STOPPED state
    whose required dependencies are all ACTIVE, that conflicts with no
    ACTIVE module, and whose [start] method (if it has one) returns,
    [startPlugin] returns true; the module is then ACTIVE with no error
    recorded and its settings schema (if it declares one) is registered;
    a second [startPlugin] returns true and changes nothing. *)
Theorem lifecycle_start_activates :
  forall (w : World) (id : string) (instance : Manifest),
    let r := LifecycleManager.startPlugin id w in
    (PluginRegistry.getState (registry w) id = PluginRegistry.LOADED
     \/ PluginRegistry.getState (registry w) id = PluginRegistry.STOPPED) ->
    fst (PluginRegistry.checkDependencies (registry w) id) = true ->
    fst (PluginRegistry.checkConflicts (registry w) id) = false ->
    PluginRegistry.getInstance (registry w) id = Some instance ->
    (forall start, m_start instance = Some start ->
                   lf_outcome start = Normal tt) ->
    fst r = Normal true
    /\ PluginRegistry.getState (registry (snd r)) id = PluginRegistry.ACTIVE
    /\ PluginRegistry.getError (registry (snd r)) id = None
    /\ (forall schema, m_settings instance = Some schema ->
                       SettingsStore.schemas (settings (snd r)) !! id
                       = Some schema)
    /\ LifecycleManager.startPlugin id (snd r) = (Normal true, snd r).
Proof.
  intros w id instance r Hst Hdep Hconf Hinst Hstart.
  destruct (startable_eqb _ Hst) as [Ha Hb].
  assert (Hrun : exists w',
            r = (Normal true, w')
            /\ registry w'
               = PluginRegistry.clearError id
                   (PluginRegistry.setState id PluginRegistry.ACTIVE
                      (PluginRegistry.setState id PluginRegistry.STARTING
                         (registry w)))
            /\ (forall schema, m_settings instance = Some schema ->
                  SettingsStore.schemas (settings w') !! id = Some schema)).
  { unfold r, LifecycleManager.startPlugin, bind, gets, throw, ret,
      try_catch, modify.
    rewrite Ha, Hb, Hdep. cbn [negb]. rewrite Hconf, Hinst. simpl.
    unfold LifecycleManager.action, LifecycleManager.call_if_function,
      modify, bind.
    destruct (m_start instance) as [start|] eqn:Es.
    - unfold LifecycleManager.call_lifecycle. rewrite (Hstart start eq_refl).
      simpl. eexists. split; [reflexivity|]. split; [done|].
      intros schema ->. simpl. unfold SettingsStore.registerSchema. simpl.
      by rewrite lookup_insert_eq.
    - simpl. eexists. split; [reflexivity|]. split; [done|].
      intros schema ->. simpl. unfold SettingsStore.registerSchema. simpl.
      by rewrite lookup_insert_eq. }
  destruct Hrun as (w' & Er & Hreg & Hsch). rewrite Er. simpl.
  assert (Hact : PluginRegistry.getState (registry w') id
                 = PluginRegistry.ACTIVE).
  { rewrite Hreg, getState_clearError. apply getState_setState. }
  split; [done|]. split; [done|]. split.
  - rewrite Hreg. apply getError_clearError.
  - split; [done|].
    unfold LifecycleManager.startPlugin, bind, gets, ret. by rewrite Hact.
Qed.

Lemma lifecycle_start_activates_witness :
  let w := loaded with_schema PluginRegistry.LOADED in
  fst (LifecycleManager.startPlugin "p" w) = Normal true
  /\ PluginRegistry.getState
       (registry (snd (LifecycleManager.startPlugin "p" w))) "p"
     = PluginRegistry.ACTIVE.
Proof.
  intros w.
  destruct (lifecycle_start_activates w "p" with_schema
              ltac:(left; reflexivity) eq_refl eq_refl eq_refl
              ltac:(intros start H; discriminate H))
    as (H1 & H2 & _).
  split; [exact H1 | exact H2].
Defined.

(** A module is not started while a required dependency is not ACTIVE:
    [startPlugin] throws [Cannot start <id>: missing dependencies ...],
    naming that dependency, and changes nothing at all. *)
Theorem lifecycle_start_needs_dependencies :
  forall (w : World) (id dep : string) (manifest : Manifest),
    (PluginRegistry.getState (registry w) id = PluginRegistry.LOADED
     \/ PluginRegistry.getState (registry w) id = PluginRegistry.STOPPED) ->
    PluginRegistry.getManifest (registry w) id = Some manifest ->
    dep ∈ default [] (m_dependencies manifest) ->
    PluginRegistry.getState (registry w) dep <> PluginRegistry.ACTIVE ->
    exists missing,
      dep ∈ missing
      /\ LifecycleManager.startPlugin id w
         = (Throw (Error ("Cannot start " +:+ id +:+ ": missing dependencies "
                          +:+ join ", " missing)), w).
Proof.
  intros w id dep manifest Hst Hm Hdep Hna.
  destruct (startable_eqb _ Hst) as [Ha Hb].
  set (missing :=
         List.filter
           (fun depId =>
              negb (PluginRegistry.State_eqb
                      (PluginRegistry.getState (registry w) depId)
                      PluginRegistry.ACTIVE))
           (default [] (m_dependencies manifest))).
  assert (Hin : dep ∈ missing).
  { apply filter_nonempty; [done|]. apply negb_true_iff.
    destruct (PluginRegistry.State_eqb
                (PluginRegistry.getState (registry w) dep)
                PluginRegistry.ACTIVE) eqn:E; [|done].
    by apply State_eqb_eq in E. }
  exists missing. split; [done|].
  unfold LifecycleManager.startPlugin, bind, gets, throw, ret.
  rewrite Ha, Hb. unfold PluginRegistry.checkDependencies. rewrite Hm.
  fold missing. destruct missing as [|x l]; [by apply elem_of_nil in Hin|].
  done.
Qed.

Lemma lifecycle_start_needs_dependencies_witness :
  let w := {| registry :=
                PluginRegistry.setState "a" PluginRegistry.LOADED
                  (PluginRegistry.setInstance "a" (manifest_of "a" ["b"])
                     registry_ab);
              hooks := HookSystem.empty;
              settings := SettingsStore.initial;
              stateSnapshots := ∅ |} in
  PluginRegistry.getState (registry w) "b" <> PluginRegistry.ACTIVE
  /\ exists missing,
       "b" ∈ missing
       /\ LifecycleManager.startPlugin "a" w
          = (Throw (Error ("Cannot start " +:+ "a" +:+ ": missing dependencies "
                           +:+ join ", " missing)), w).
Proof.
  intros w.
  assert (Hna : PluginRegistry.getState (registry w) "b"
                <> PluginRegistry.ACTIVE) by discriminate.
  split; [exact Hna|].
  exact (lifecycle_start_needs_dependencies w "a" "b" (manifest_of "a" ["b"])
           ltac:(left; reflexivity) eq_refl ltac:(by left) Hna).
Defined.

(** A module is not stopped while an ACTIVE module depends on it:
    [stopPlugin] throws [Cannot stop <id>: required by ...], naming that
    dependent, and changes nothing at all. *)
Theorem lifecycle_stop_refused_for_dependents :
  forall (w : World) (id dependent : string),
    PluginRegistry.getState (registry w) id = PluginRegistry.ACTIVE ->
    dependent ∈ PluginRegistry.getDependents (registry w) id ->
    PluginRegistry.getState (registry w) dependent = PluginRegistry.ACTIVE ->
    exists active,
      dependent ∈ active
      /\ LifecycleManager.stopPlugin id w
         = (Throw (Error ("Cannot stop " +:+ id +:+ ": required by "
                          +:+ join ", " active)), w).
Proof.
  intros w id dependent Hst Hdep Hact.
  set (active :=
         List.filter
           (fun depId =>
              PluginRegistry.State_eqb
                (PluginRegistry.getState (registry w) depId)
                PluginRegistry.ACTIVE)
           (PluginRegistry.getDependents (registry w) id)).
  assert (Hin : dependent ∈ active).
  { apply filter_nonempty; [done|]. by rewrite Hact. }
  exists active. split; [done|].
  unfold LifecycleManager.stopPlugin, bind, gets, throw, ret.
  rewrite Hst. cbn [PluginRegistry.State_eqb negb]. fold active.
  destruct active as [|x l]; [by apply elem_of_nil in Hin|]. done.
Qed.

Lemma lifecycle_stop_refused_for_dependents_witness :
  let w := {| registry :=
                PluginRegistry.setState "a" PluginRegistry.ACTIVE
                  (PluginRegistry.setState "b" PluginRegistry.ACTIVE
                     registry_ab);
              hooks := HookSystem.empty;
              settings := SettingsStore.initial;
              stateSnapshots := ∅ |} in
  "a" ∈ PluginRegistry.getDependents (registry w) "b"
  /\ exists active,
       "a" ∈ active
       /\ LifecycleManager.stopPlugin "b" w
          = (Throw (Error ("Cannot stop " +:+ "b" +:+ ": required by "
                           +:+ join ", " active)), w).
Proof.
  intros w.
  assert (Hd : "a" ∈ PluginRegistry.getDependents (registry w) "b")
    by (by left).
  split; [exact Hd|].
  exact (lifecycle_stop_refused_for_dependents w "b" "a" eq_refl Hd eq_refl).
Defined.

(** [handleError] never stops the module: it records the error, which
    puts the module in the ERROR state, emits [plugin:error], and then
    finds the state is not ACTIVE.  Nothing else happens: the module's
    hooks are not unregistered and its [stop] method is not called. *)
Theorem lifecycle_handleError_does_not_stop :
  forall (w : World) (id : string) (error : exn),
    LifecycleManager.handleError id error w
    = (Normal tt,
       on_hooks
         (HookSystem.action "plugin:error"
            (Some (VObj [("pluginId", VStr id);
                         ("error", VObj [("message", VStr (message error))])])))
         (on_registry (PluginRegistry.setError id error) w))
    /\ PluginRegistry.getState
         (registry (snd (LifecycleManager.handleError id error w))) id
       = PluginRegistry.ERROR.
Proof.
  intros w id error.
  assert (E : LifecycleManager.handleError id error w
              = (Normal tt,
                 on_hooks
                   (HookSystem.action "plugin:error"
                      (Some (VObj [("pluginId", VStr id);
                                   ("error",
                                    VObj [("message", VStr (message error))])])))
                   (on_registry (PluginRegistry.setError id error) w))).
  { unfold LifecycleManager.handleError, LifecycleManager.action, bind, modify,
      gets, ret. simpl. by rewrite getState_setError. }
  rewrite E. split; [done|]. simpl. apply getState_setError.
Qed.

(** A module whose [start] threw is stuck: it is in the ERROR state, from
    which [enablePlugin] throws [... is in invalid state for enabling:
    ERROR] and [startPlugin] throws as well, both changing nothing. *)
Theorem lifecycle_failed_start_is_final :
  forall (w : World) (id : string) (instance : Manifest) (start : LifecycleFn)
         (error : exn),
    let w' := snd (LifecycleManager.startPlugin id w) in
    (PluginRegistry.getState (registry w) id = PluginRegistry.LOADED
     \/ PluginRegistry.getState (registry w) id = PluginRegistry.STOPPED) ->
    fst (PluginRegistry.checkDependencies (registry w) id) = true ->
    fst (PluginRegistry.checkConflicts (registry w) id) = false ->
    PluginRegistry.getInstance (registry w) id = Some instance ->
    m_start instance = Some start ->
    lf_outcome start = Throw error ->
    LifecycleManager.enablePlugin id w'
    = (Throw (Error ("Plugin " +:+ id
                     +:+ " is in invalid state for enabling: ERROR")), w')
    /\ LifecycleManager.startPlugin id w'
       = (Throw (Error ("Plugin " +:+ id
                        +:+ " must be in LOADED or STOPPED state to start (current: ERROR)")),
          w').
Proof.
  intros w id instance start error w' Hst Hdep Hconf Hinst Hstart Hthrow.
  destruct (startPlugin_failure w id instance start error
              Hst Hdep Hconf Hinst Hstart Hthrow) as (_ & Herr & _).
  fold w' in Herr. split.
  - unfold LifecycleManager.enablePlugin, bind, gets, throw. by rewrite Herr.
  - unfold LifecycleManager.startPlugin, bind, gets, throw. by rewrite Herr.
Qed.

Lemma lifecycle_failed_start_is_final_witness :
  let w' := snd (LifecycleManager.startPlugin "p"
                   (loaded faulty PluginRegistry.LOADED)) in
  LifecycleManager.enablePlugin "p" w'
  = (Throw (Error "Plugin p is in invalid state for enabling: ERROR"), w').
Proof.
  intros w'.
  exact (proj1 (lifecycle_failed_start_is_final
                  (loaded faulty PluginRegistry.LOADED) "p" faulty fails boom
                  ltac:(left; reflexivity) eq_refl eq_refl eq_refl eq_refl
                  eq_refl)).
Defined.



(** ** Commands of the framework core *)

Section Commands.
Import PluginRegistry FrameworkCore.

Lemma keeps_ret {A} (a : A) : keeps_in_flight (ret a).
Proof. done. Qed.

Lemma keeps_gets {A} (f : t -> A) : keeps_in_flight (gets f).
Proof. done. Qed.

Lemma keeps_bind {A B} (m : M t A) (k : A -> M t B) :
  keeps_in_flight m -> (forall a, keeps_in_flight (k a)) ->
  keeps_in_flight (bind m k).
Proof.
  intros Hm Hk c. unfold bind. specialize (Hm c).
  destruct (m c) as [[a|e] c1]; simpl in *; [|done].
  by rewrite (Hk a c1).
Qed.

Lemma keeps_try_catch {A} (m : M t A) (h : exn -> M t A) :
  keeps_in_flight m -> (forall e, keeps_in_flight (h e)) ->
  keeps_in_flight (try_catch m h).
Proof.
  intros Hm Hh c. unfold try_catch. specialize (Hm c).
  destruct (m c) as [[a|e] c1]; simpl in *; [done|].
  by rewrite (Hh e c1).
Qed.

Lemma keeps_lifecycle {A} (m : M World A) : keeps_in_flight (lifecycle m).
Proof. intros c. unfold lifecycle. by destruct (m (world c)). Qed.

Lemma keeps_start id : keeps_in_flight (_startPluginRuntime id).
Proof. intros c. by destruct (startPluginRuntime_fields id c). Qed.

Lemma keeps_stop id : keeps_in_flight (_stopPluginRuntime id).
Proof. intros c. by destruct (stopPluginRuntime_fields id c). Qed.

(** A command body run between adding its token and removing it. *)
Lemma token_cleared {A} key (body : M t A) (handler : exn -> M t A) c :
  key ∉ _operationsInFlight c ->
  keeps_in_flight body -> (forall e, keeps_in_flight (handler e)) ->
  _operationsInFlight
    (snd (try_finally
            (try_catch
               (bind (modify (with_inFlight (fun ops => {[key]} ∪ ops)))
                  (fun _ => body))
               handler)
            (modify (with_inFlight (fun ops => ops ∖ {[key]}))) c))
  = _operationsInFlight c.
Proof.
  intros Hkey Hbody Hhandler.
  unfold try_finally, try_catch, bind, modify.
  specialize (Hbody (with_inFlight (fun ops => {[key]} ∪ ops) c)).
  destruct (body _) as [[a|e] c1]; simpl in *.
  - rewrite Hbody. set_solver.
  - specialize (Hhandler e c1).
    destruct (handler e c1) as [r c2]; simpl in *.
    rewrite Hhandler, Hbody. set_solver.
Qed.
End Commands.

(** The commands [enablePlugin] and [disablePlugin] never leave their
    operation token behind: however they end -- an early return, a start
    or stop that fails or throws, a rollback -- the set of operations in
    flight is afterwards what it was before the call. *)
Theorem core_commands_clear_their_token :
  forall (c : FrameworkCore.t) (id : string),
    FrameworkCore._operationsInFlight (snd (FrameworkCore.enablePlugin id c))
    = FrameworkCore._operationsInFlight c
    /\ FrameworkCore._operationsInFlight
         (snd (FrameworkCore.disablePlugin id c))
       = FrameworkCore._operationsInFlight c.
Proof.
  intros c id. split.
  - unfold FrameworkCore.enablePlugin.
    unfold bind at 1, gets at 1. destruct (FrameworkCore.destroyed c); [done|].
    unfold bind at 1, gets at 1.
    destruct (bool_decide _) eqn:Ekey; [done|].
    apply bool_decide_eq_false_1 in Ekey.
    unfold bind at 1, gets at 1. unfold bind at 1, gets at 1.
    destruct (_ && _); [done|]. destruct (_ || _); [done|].
    apply token_cleared; [done| |].
    + apply keeps_bind.
      * destruct (SettingsStore.isPluginEnabled _ _);
          [apply keeps_ret | apply keeps_lifecycle].
      * intros _. apply keeps_bind; [apply keeps_gets|].
        intros []; [apply keeps_ret | apply keeps_start].
    + intros e. apply keeps_bind; [apply keeps_gets|].
      intros dead. apply keeps_bind; [|intros; apply keeps_ret].
      destruct dead; [apply keeps_ret|].
      apply keeps_try_catch; [apply keeps_lifecycle | intros; apply keeps_ret].
  - unfold FrameworkCore.disablePlugin.
    unfold bind at 1, gets at 1. destruct (FrameworkCore.destroyed c); [done|].
    unfold bind at 1, gets at 1.
    destruct (bool_decide _) eqn:Ekey; [done|].
    apply bool_decide_eq_false_1 in Ekey.
    unfold bind at 1, gets at 1. unfold bind at 1, gets at 1.
    destruct (_ && _); [done|].
    destruct (PluginRegistry.State_eqb _ PluginRegistry.STOPPING); [done|].
    apply token_cleared; [done| |].
    + apply keeps_bind.
      * destruct (SettingsStore.isPluginEnabled _ _);
          [apply keeps_lifecycle | apply keeps_ret].
      * intros _. apply keeps_bind; [apply keeps_gets|].
        intros []; [apply keeps_ret | apply keeps_stop].
    + intros e. apply keeps_ret.
Qed.

Section CommandRuns.
Import PluginRegistry FrameworkCore.

(** [settings.enable] / [settings.disable] run on the core. *)
Lemma store_flag_spec id b c :
  id <> "core" ->
  exists c',
    lifecycle (on_store (SettingsStore.set id "enabled" (VBool b) true)) c
    = (Normal tt, c')
    /\ registry (world c') = registry (world c)
    /\ SettingsStore.isPluginEnabled (settings (world c')) id = b
    /\ destroyed c' = destroyed c
    /\ pluginAPIs c' = pluginAPIs c.
Proof.
  intros Hid.
  destruct (set_enabled_spec id b (settings (world c)) (hooks (world c)) Hid)
    as (s' & h' & E & Hb & _).
  unfold lifecycle, on_store. rewrite E. simpl. eexists. split; [done|].
  by repeat split.
Qed.

(** [startPlugin] of a module whose state does not allow a start. *)
Lemma startPlugin_refused id w :
  (let s := getState (registry w) id in
   s = UNLOADED \/ s = ERROR \/ s = DESTROYED \/ s = STOPPING) ->
  exists e, LifecycleManager.startPlugin id w = (Throw e, w).
Proof.
  intros Hs. cbn zeta in Hs. unfold LifecycleManager.startPlugin.
  unfold bind at 1, gets at 1.
  destruct Hs as [E | [E | [E | E]]]; rewrite E; cbn; eauto.
Qed.

(** [_startPluginRuntime] of such a module: [startPlugin] throws, the
    registry and the settings stay. *)
Lemma startPluginRuntime_refused id c :
  (let s := getState (registry (world c)) id in
   s = UNLOADED \/ s = ERROR \/ s = DESTROYED \/ s = STOPPING) ->
  exists e c',
    _startPluginRuntime id c = (Throw e, c')
    /\ registry (world c') = registry (world c)
    /\ settings (world c') = settings (world c)
    /\ destroyed c' = destroyed c.
Proof.
  intros Hs. cbn zeta in Hs.
  destruct (startPlugin_refused id (world c) Hs) as [e He].
  unfold _startPluginRuntime.
  unfold bind at 1, modify at 1. unfold bind at 1, gets at 1.
  cbn [world].
  assert (State_eqb (getState (registry (world c)) id) LOADED = false) as ->
      by (destruct Hs as [E | [E | [E | E]]]; by rewrite E).
  unfold bind at 1, ret at 1. unfold lifecycle. cbn [world]. rewrite He.
  eexists _, _. split; [reflexivity|]. done.
Qed.
End CommandRuns.

(** The command [enablePlugin] undoes its write when the start is refused:
    for a module that is not loaded, or is in the ERROR, DESTROYED or
    STOPPING state, [startPlugin] throws; the command then returns false
    and the module reads as disabled in the settings, whether or not it
    was enabled there before; the registry is untouched. *)
Theorem core_enable_rolls_back_refused_start :
  forall (c : FrameworkCore.t) (id : string),
    let r := FrameworkCore.enablePlugin id c in
    id <> "core" ->
    FrameworkCore.destroyed c = false ->
    FrameworkCore.opKey id true ∉ FrameworkCore._operationsInFlight c ->
    (PluginRegistry.getState (registry (FrameworkCore.world c)) id
     = PluginRegistry.UNLOADED
     \/ PluginRegistry.getState (registry (FrameworkCore.world c)) id
        = PluginRegistry.ERROR
     \/ PluginRegistry.getState (registry (FrameworkCore.world c)) id
        = PluginRegistry.DESTROYED
     \/ PluginRegistry.getState (registry (FrameworkCore.world c)) id
        = PluginRegistry.STOPPING) ->
    fst r = Normal false
    /\ SettingsStore.isPluginEnabled
         (settings (FrameworkCore.world (snd r))) id = false
    /\ registry (FrameworkCore.world (snd r))
       = registry (FrameworkCore.world c).
Proof.
  intros c id r Hid Hlive Hkey Hstate.
  enough (H : exists c',
             FrameworkCore.enablePlugin id c = (Normal false, c')
             /\ SettingsStore.isPluginEnabled
                  (settings (FrameworkCore.world c')) id = false
             /\ registry (FrameworkCore.world c')
                = registry (FrameworkCore.world c)).
  { destruct H as (c' & E & H1 & H2). unfold r. rewrite E. done. }
  clear r. unfold FrameworkCore.enablePlugin.
  unfold bind at 1, gets at 1. rewrite Hlive.
  unfold bind at 1, gets at 1. rewrite bool_decide_eq_false_2 by done.
  unfold bind at 1, gets at 1. unfold bind at 1, gets at 1.
  assert (PluginRegistry.State_eqb
            (PluginRegistry.getState (registry (FrameworkCore.world c)) id)
            PluginRegistry.ACTIVE = false) as ->
      by (destruct Hstate as [-> | [-> | [-> | ->]]]; done).
  rewrite andb_false_r.
  assert (PluginRegistry.State_eqb
            (PluginRegistry.getState (registry (FrameworkCore.world c)) id)
            PluginRegistry.STARTING
          || PluginRegistry.State_eqb
               (PluginRegistry.getState (registry (FrameworkCore.world c)) id)
               PluginRegistry.LOADING = false) as ->
      by (destruct Hstate as [-> | [-> | [-> | ->]]]; done).
  unfold try_finally, try_catch. unfold bind at 1, modify at 1.
  set (c1 := FrameworkCore.with_inFlight _ c).
  assert (Hc1 : registry (FrameworkCore.world c1)
                = registry (FrameworkCore.world c)
                /\ FrameworkCore.destroyed c1 = false) by done.
  clearbody c1. destruct Hc1 as [Hr1 Hd1].
  assert (Hstep : exists c2,
            (if SettingsStore.isPluginEnabled
                  (settings (FrameworkCore.world c)) id
             then ret tt
             else FrameworkCore.lifecycle
                    (FrameworkCore.on_store (SettingsStore.enable id))) c1
            = (Normal tt, c2)
            /\ registry (FrameworkCore.world c2)
               = registry (FrameworkCore.world c)
            /\ FrameworkCore.destroyed c2 = false).
  { destruct (SettingsStore.isPluginEnabled _ id).
    - exists c1. done.
    - destruct (store_flag_spec id true c1 Hid) as (c2 & E & H1 & _ & H3 & _).
      exists c2. unfold SettingsStore.enable. rewrite E.
      split; [done|]. split; congruence. }
  destruct Hstep as (c2 & E2 & Hr2 & Hd2).
  unfold bind at 1. rewrite E2. unfold bind at 1, gets at 1. rewrite Hd2.
  destruct (startPluginRuntime_refused id c2) as (e & c3 & E3 & Hr3 & _ & Hd3).
  { cbn zeta. by rewrite Hr2. }
  rewrite E3. unfold bind at 1, gets at 1. rewrite Hd3, Hd2.
  destruct (store_flag_spec id false c3 Hid) as (c4 & E4 & Hr4 & Hf4 & _).
  unfold bind at 1. unfold try_catch, SettingsStore.disable. rewrite E4.
  unfold ret, modify. cbn.
  eexists. split; [reflexivity|]. cbn. split; [done | congruence].
Qed.

Lemma core_enable_rolls_back_refused_start_witness :
  let c := core_of
             {| registry := registry_ab; hooks := HookSystem.empty;
                settings := SettingsStore.initial; stateSnapshots := ∅ |} ∅ in
  fst (FrameworkCore.enablePlugin "a" c) = Normal false
  /\ SettingsStore.isPluginEnabled
       (settings (FrameworkCore.world (snd (FrameworkCore.enablePlugin "a" c))))
       "a" = false.
Proof.
  intros c.
  destruct (core_enable_rolls_back_refused_start c "a"
              ltac:(discriminate) eq_refl ltac:(set_solver)
              ltac:(left; reflexivity)) as (H1 & H2 & _).
  split; [exact H1 | exact H2].
Defined.



(** * The hook system: call order, emission, removal *)

Section HookFacts.
Import HookSystem.

Lemma in_call_order_app a b :
  in_call_order (a ++ b)
  <-> in_call_order a /\ in_call_order b
      /\ Forall (fun x => Forall (runs_before x) b) a.
Proof.
  induction a as [|x a IH]; simpl.
  - split; [intros H; by repeat split | by intros (_ & H & _)].
  - rewrite Forall_app, IH, Forall_cons. tauto.
Qed.

Lemma remove_first_Forall {A} (P : A -> Prop) p l :
  Forall P l -> Forall P (remove_first p l).
Proof.
  induction 1 as [|x l Hx Hl IH]; simpl; [done|].
  destruct (p x); [done|]. by constructor.
Qed.

Lemma remove_first_order p l :
  in_call_order l -> in_call_order (remove_first p l).
Proof.
  induction l as [|x l IH]; simpl; [done|]. intros [Hx Hl].
  destruct (p x); [done|]. simpl. split; [|by apply IH].
  by apply remove_first_Forall.
Qed.

Lemma remove_first_elem {A} (p : A -> bool) l x :
  x ∈ remove_first p l -> x ∈ l.
Proof.
  induction l as [|y l IH]; simpl; [done|].
  destruct (p y); [by right|]. rewrite !elem_of_cons. intros [->|H]; auto.
Qed.

Lemma remove_first_NoDup {A B} (f : A -> B) p l :
  NoDup (map f l) -> NoDup (map f (remove_first p l)).
Proof.
  induction l as [|y l IH]; simpl; [done|].
  rewrite NoDup_cons. intros [Hy Hl]. destruct (p y); [done|]. simpl.
  apply NoDup_cons. split; [|by apply IH].
  intros Hin. apply Hy. apply list_elem_of_fmap in Hin as (x & -> & Hx).
  apply list_elem_of_fmap. exists x. split; [done|].
  by apply remove_first_elem in Hx.
Qed.

Lemma remove_first_none {A} (p : A -> bool) l :
  Forall (fun x => p x = false) l -> remove_first p l = l.
Proof.
  induction 1 as [|x l Hx Hl IH]; simpl; [done|]. by rewrite Hx, IH.
Qed.

Lemma remove_first_mid {A} (p : A -> bool) pre x post :
  Forall (fun y => p y = false) pre -> p x = true ->
  remove_first p (pre ++ x :: post) = pre ++ post.
Proof.
  induction 1 as [|y pre Hy Hpre IH]; simpl; intros Hx.
  - by rewrite Hx.
  - by rewrite Hy, IH.
Qed.

Lemma remove_first_keeps {A} (p : A -> bool) l x :
  x ∈ l -> p x = false -> x ∈ remove_first p l.
Proof.
  induction l as [|y l IH]; simpl; [done|]. intros Hin Hx.
  apply elem_of_cons in Hin as [->|Hin].
  - rewrite Hx. left.
  - destruct (p y); [done|]. right. by apply IH.
Qed.

Lemma find_mid {A} (p : A -> bool) pre x post :
  Forall (fun y => p y = false) pre -> p x = true ->
  List.find p (pre ++ x :: post) = Some x.
Proof.
  induction 1 as [|y pre Hy Hpre IH]; simpl; intros Hx.
  - by rewrite Hx.
  - by rewrite Hy, IH.
Qed.

Lemma insert_sorted_head x l :
  Forall (runs_before x) l -> insert_sorted x l = x :: l.
Proof.
  destruct 1 as [|y l Hy _]; simpl; [done|].
  assert ((e_priority x <=? e_priority y)%Z = true) as ->; [|done].
  apply Z.leb_le. destruct Hy as [?|[? _]]; lia.
Qed.

(** [handlers.push(entry); handlers.sort(...)] on a list that is in call
    order puts the new entry behind the entries of a priority up to its
    own and leaves the others where they were. *)
Lemma sort_append l e :
  in_call_order l ->
  exists pre post,
    l = pre ++ post
    /\ sort_by_priority (l ++ [e]) = pre ++ e :: post
    /\ Forall (fun x => (e_priority x <= e_priority e)%Z) pre
    /\ Forall (fun x => (e_priority e < e_priority x)%Z) post.
Proof.
  unfold sort_by_priority. rewrite fold_right_app. cbn [fold_right].
  cbn [insert_sorted].
  induction l as [|x l IH]; intros Hl.
  - exists [], []. by split_and!.
  - destruct Hl as [Hx Hl]. destruct (IH Hl) as (pre & post & -> & E & Hpre & Hpost).
    cbn [fold_right]. rewrite E. destruct pre as [|p0 pre].
    + simpl in *. destruct (Z.leb_spec (e_priority x) (e_priority e)).
      * exists [x], post. split_and!; [done | done | | done].
        by constructor.
      * rewrite (insert_sorted_head x post Hx). exists [], (x :: post).
        split_and!; [done | done | done |]. by constructor.
    + apply Forall_cons in Hpre as [Hp0 Hpre].
      apply Forall_cons in Hx as [Hxp Hx]. simpl.
      assert (e_priority x <= e_priority p0)%Z
        by (destruct Hxp as [?|[? _]]; lia).
      assert ((e_priority x <=? e_priority p0)%Z = true) as ->
          by by apply Z.leb_le.
      exists (x :: p0 :: pre), post. split_and!; [done | done | | done].
      constructor; [lia|]. by constructor.
Qed.

Lemma sort_append_order l e :
  in_call_order l -> Forall (fun x => (e_id x < e_id e)%nat) l ->
  in_call_order (sort_by_priority (l ++ [e])).
Proof.
  intros Hl Hid. destruct (sort_append l e Hl) as (pre & post & -> & -> & Hpre & Hpost).
  apply in_call_order_app in Hl as (Ha & Hb & Hab).
  apply Forall_app in Hid as [Hida _].
  apply in_call_order_app. split; [done|]. split.
  - simpl. split; [|done].
    eapply Forall_impl; [exact Hpost|]. intros y Hy. by left.
  - apply Forall_forall. intros x Hx. constructor.
    + rewrite Forall_forall in Hpre, Hida.
      specialize (Hpre x Hx). specialize (Hida x Hx). unfold runs_before.
      lia.
    + rewrite Forall_forall in Hab. by apply Hab.
Qed.

(** ** The invariant *)

Lemma wf_empty : hooks_wf empty.
Proof. split; intros ? ? H; simpl in H; by rewrite lookup_empty in H. Qed.

Lemma wf_register hookName handler options h :
  hooks_wf h -> hooks_wf (snd (register hookName handler options h)).
Proof.
  intros [Ho Hd Hf Ht]. unfold register. cbn [snd].
  set (entry := {| e_handler := handler; e_id := nextSymbol h |}).
  assert (Hold : in_call_order (default [] (hooks h !! hookName))
                 /\ Forall (fun e => (e_id e < nextSymbol h)%nat)
                           (default [] (hooks h !! hookName))
                 /\ NoDup (map e_id (default [] (hooks h !! hookName)))).
  { destruct (hooks h !! hookName) as [l|] eqn:E; simpl.
    - split; [by apply (Ho hookName)|].
      split; [by apply (Hf hookName) | by apply (Hd hookName)].
    - split; [done|]. split; [done | constructor]. }
  destruct Hold as (Hsorted & Hids & Hnodup).
  split; cbn [hooks pluginHooks nextSymbol].
  - intros n l. destruct (decide (n = hookName)) as [->|Hn].
    + rewrite lookup_insert_eq. intros [= <-]. split.
      * destruct (sort_append _ entry Hsorted) as (pre & post & _ & -> & _).
        by destruct pre.
      * by apply sort_append_order.
    + rewrite lookup_insert_ne by done. apply Ho.
  - intros n l. destruct (decide (n = hookName)) as [->|Hn].
    + rewrite lookup_insert_eq. intros [= <-].
      destruct (sort_append _ entry Hsorted) as (pre & post & E & -> & _).
      rewrite E in Hids, Hnodup.
      rewrite map_app in *. cbn [map].
      apply NoDup_app in Hnodup as (Ha & Hab & Hb).
      apply Forall_app in Hids as [Hia Hib].
      apply NoDup_app. split; [done|]. split.
      * intros i Hi. rewrite elem_of_cons. intros [->|Hi'].
        -- apply list_elem_of_fmap in Hi as (x & Hx & Hin).
           rewrite Forall_forall in Hia. specialize (Hia x Hin).
           simpl in Hx. lia.
        -- by apply (Hab i).
      * apply NoDup_cons. split; [|done].
        intros Hi. apply list_elem_of_fmap in Hi as (x & Hx & Hin).
        rewrite Forall_forall in Hib. specialize (Hib x Hin).
        simpl in Hx. lia.
    + rewrite lookup_insert_ne by done. apply Hd.
  - intros n l. destruct (decide (n = hookName)) as [->|Hn].
    + rewrite lookup_insert_eq. intros [= <-].
      destruct (sort_append _ entry Hsorted) as (pre & post & E & -> & _).
      rewrite E in Hids. apply Forall_app in Hids as [Ha Hb].
      apply Forall_app. split; [|constructor; [simpl; lia|]];
        (eapply Forall_impl; [eassumption|]); simpl; intros; lia.
    + rewrite lookup_insert_ne by done. intros E.
      eapply Forall_impl; [by apply (Hf n)|]. simpl. intros; lia.
  - intros p l. destruct (tracked_plugin (o_plugin options)) as [q|].
    + destruct (decide (p = q)) as [->|Hp].
      * rewrite lookup_insert_eq. intros [= <-]. apply Forall_app. split.
        -- destruct (pluginHooks h !! q) as [l0|] eqn:E; simpl; [|done].
           eapply Forall_impl; [by apply (Ht q)|]. simpl. intros; lia.
        -- constructor; [simpl; lia | done].
      * rewrite lookup_insert_ne by done. intros E.
        eapply Forall_impl; [by apply (Ht p)|]. simpl. intros; lia.
    + intros E. eapply Forall_impl; [by apply (Ht p)|]. simpl. intros; lia.
Qed.

Lemma wf_unregister hookName handlerId h :
  hooks_wf h -> hooks_wf (_unregister hookName handlerId h).
Proof.
  intros [Ho Hd Hf Ht]. unfold _unregister.
  destruct (hooks h !! hookName) as [handlers|] eqn:E; [|by split].
  destruct (Ho _ _ E) as [_ Hsorted]. pose proof (Hf _ _ E) as Hids.
  pose proof (Hd _ _ E) as Hnodup.
  set (is_it := fun e => Nat.eqb (e_id e) handlerId).
  assert (Hsorted' := remove_first_order is_it _ Hsorted).
  assert (Hids' := remove_first_Forall _ is_it _ Hids).
  assert (Hnodup' := remove_first_NoDup e_id is_it _ Hnodup).
  split; cbn [hooks pluginHooks nextSymbol].
  - intros n l. destruct (remove_first is_it handlers) as [|y rest] eqn:Er.
    + destruct (decide (n = hookName)) as [->|Hn].
      * by rewrite lookup_delete_eq.
      * rewrite lookup_delete_ne by done. apply Ho.
    + destruct (decide (n = hookName)) as [->|Hn].
      * rewrite lookup_insert_eq. by intros [= <-].
      * rewrite lookup_insert_ne by done. apply Ho.
  - intros n l. destruct (remove_first is_it handlers) as [|y rest] eqn:Er.
    + destruct (decide (n = hookName)) as [->|Hn].
      * by rewrite lookup_delete_eq.
      * rewrite lookup_delete_ne by done. apply Hd.
    + destruct (decide (n = hookName)) as [->|Hn].
      * rewrite lookup_insert_eq. by intros [= <-].
      * rewrite lookup_insert_ne by done. apply Hd.
  - intros n l. destruct (remove_first is_it handlers) as [|y rest] eqn:Er.
    + destruct (decide (n = hookName)) as [->|Hn].
      * by rewrite lookup_delete_eq.
      * rewrite lookup_delete_ne by done. apply Hf.
    + destruct (decide (n = hookName)) as [->|Hn].
      * rewrite lookup_insert_eq. by intros [= <-].
      * rewrite lookup_insert_ne by done. apply Hf.
  - intros p l. destruct (List.find is_it handlers) as [removed|]; [|apply Ht].
    destruct (tracked_plugin (e_plugin removed)) as [q|]; [|apply Ht].
    destruct (pluginHooks h !! q) as [l0|] eqn:Eq; [|apply Ht].
    destruct (decide (p = q)) as [->|Hp].
    + rewrite lookup_insert_eq. intros [= <-].
      apply remove_first_Forall. by apply (Ht q).
    + rewrite lookup_insert_ne by done. apply Ht.
Qed.

Lemma wf_forEach_tracked pluginId count : forall k h,
  hooks_wf h -> hooks_wf (forEach_tracked pluginId k count h).
Proof.
  induction count as [|count IH]; intros k h Hwf; simpl; [done|].
  apply IH. destruct (pluginHooks h !! pluginId) as [l|]; [|done].
  destruct (l !! k) as [[n i]|]; [|done]. by apply wf_unregister.
Qed.

Lemma wf_unregisterPlugin pluginId h :
  hooks_wf h -> hooks_wf (unregisterPlugin pluginId h).
Proof.
  intros Hwf. unfold unregisterPlugin.
  destruct (pluginHooks h !! pluginId) as [l|]; [|done].
  destruct (wf_forEach_tracked pluginId (length l) 0 h Hwf)
    as [Ho Hd Hf Ht].
  split; cbn [hooks pluginHooks nextSymbol]; [done | done | done |].
  intros p l'. destruct (decide (p = pluginId)) as [->|Hp].
  - by rewrite lookup_delete_eq.
  - rewrite lookup_delete_ne by done. apply Ht.
Qed.

Lemma wf_unregister_all (l : list (string * nat)) : forall h,
  hooks_wf h ->
  hooks_wf (fold_left (fun h x => _unregister (fst x) (snd x) h) l h).
Proof.
  induction l as [|x l IH]; intros h Hwf; simpl; [done|].
  apply IH. by apply wf_unregister.
Qed.

Lemma wf_emit hookName data options h :
  hooks_wf h -> hooks_wf (snd (emit hookName data options h)).
Proof.
  intros Hwf. unfold emit.
  destruct (hooks h !! hookName) as [[|e l]|]; [done| |done].
  cbn [snd]. by apply wf_unregister_all.
Qed.

Lemma wf_hook_call h c : hooks_wf h -> hooks_wf (hook_call h c).
Proof.
  intros Hwf. destruct c; simpl.
  - by apply wf_register.
  - by apply wf_unregister.
  - by apply wf_unregisterPlugin.
  - by apply wf_emit.
Qed.

Lemma wf_hook_calls cs : hooks_wf (hook_calls cs).
Proof.
  unfold hook_calls. generalize wf_empty. generalize empty.
  induction cs as [|c cs IH]; intros h Hwf; simpl; [done|].
  apply IH. by apply wf_hook_call.
Qed.
End HookFacts.

(** In every state the hook system reaches, the handlers of a hook are
    listed by ascending priority number, handlers of one priority in the
    order they were registered, and no hook is kept with an empty list. *)
Theorem hooks_handlers_in_call_order :
  forall (cs : list HookCall) (hookName : string)
         (handlers : list HookSystem.Entry),
    HookSystem.hooks (hook_calls cs) !! hookName = Some handlers ->
    handlers <> [] /\ in_call_order handlers.
Proof.
  intros cs hookName handlers E.
  destruct (wf_hook_calls cs) as [Ho _ _ _]. by apply (Ho hookName).
Qed.

Lemma hooks_handlers_in_call_order_witness :
  let handlers :=
    default [] (HookSystem.hooks
                  (hook_calls [DoRegister "hook" idle (priority_only 20);
                               DoRegister "hook" idle (priority_only 10);
                               DoRegister "hook" idle (priority_only 10)])
                !! "hook") in
  map HookSystem.e_id handlers = [1; 2; 0]%nat
  /\ handlers <> [] /\ in_call_order handlers.
Proof.
  intros handlers. split; [reflexivity|].
  apply (hooks_handlers_in_call_order
           [DoRegister "hook" idle (priority_only 20);
            DoRegister "hook" idle (priority_only 10);
            DoRegister "hook" idle (priority_only 10)] "hook").
  reflexivity.
Defined.

Section Grouping.
Import HookSystem.

Lemma insert_group_head (x : Z * list Entry) l :
  Forall (fun y => (fst x < fst y)%Z) l -> insert_group x l = x :: l.
Proof.
  destruct 1 as [|y l Hy _]; simpl; [done|].
  assert ((fst x <=? fst y)%Z = true) as ->; [|done].
  apply Z.leb_le. lia.
Qed.

Lemma sort_groups_ascending (gs : list (Z * list Entry)) :
  ascending (map fst gs) -> fold_right insert_group [] gs = gs.
Proof.
  induction gs as [|x gs IH]; simpl; [done|]. intros [Hx Hgs].
  rewrite IH by done. apply insert_group_head.
  by rewrite Forall_fmap in Hx.
Qed.

Lemma group_push_fst (P : Z -> Prop) e gs :
  P (e_priority e) -> Forall P (map fst gs) ->
  Forall P (map fst (group_push e gs)).
Proof.
  intros He. induction gs as [|[p g] gs IH]; simpl.
  - intros _. by constructor.
  - rewrite Forall_cons. intros [Hp Hgs].
    destruct (Z.eqb p (e_priority e)); simpl; constructor; auto.
Qed.

(** A handler whose priority is not below those seen so far joins the
    last group or opens a new one behind it. *)
Lemma group_push_spec e gs :
  ascending (map fst gs) ->
  Forall (fun p => (p <= e_priority e)%Z) (map fst gs) ->
  ascending (map fst (group_push e gs))
  /\ concat (map snd (group_push e gs)) = concat (map snd gs) ++ [e].
Proof.
  induction gs as [|[p g] gs IH]; simpl.
  - intros _ _. split; [by split|done].
  - intros [Hp Hasc]. rewrite Forall_cons. intros [Hle Hall].
    destruct (Z.eqb_spec p (e_priority e)) as [->|Hne]; simpl.
    + destruct gs as [|[q g'] gs].
      * split; [done|]. by rewrite !app_nil_r.
      * exfalso. apply Forall_cons in Hp as [Hq _].
        apply Forall_cons in Hall as [Hq' _]. simpl in *. lia.
    + destruct (IH Hasc Hall) as [IH1 IH2]. split.
      * split; [|done]. apply group_push_fst; [lia | done].
      * by rewrite IH2, app_assoc.
Qed.

Lemma push_all l : forall gs,
  in_call_order l ->
  ascending (map fst gs) ->
  Forall (fun e => Forall (fun p => (p <= e_priority e)%Z) (map fst gs)) l ->
  let gs' := fold_left (fun gs e => group_push e gs) l gs in
  ascending (map fst gs')
  /\ concat (map snd gs') = concat (map snd gs) ++ l.
Proof.
  induction l as [|e l IH]; intros gs Hl Hasc Hle; cbn zeta; simpl.
  - by rewrite app_nil_r.
  - destruct Hl as [He Hl]. apply Forall_cons in Hle as [Hle1 Hle2].
    destruct (group_push_spec e gs Hasc Hle1) as [H1 H2].
    destruct (IH (group_push e gs) Hl H1) as [H3 H4].
    + rewrite Forall_forall in He, Hle2. apply Forall_forall. intros x Hx.
      apply group_push_fst; [|by apply Hle2].
      destruct (He x Hx) as [?|[? _]]; lia.
    + split; [done|]. rewrite H4, H2, <- app_assoc. done.
Qed.

(** [_groupByPriority] cuts a list that is in call order into
    consecutive pieces. *)
Lemma groupByPriority_concat l :
  in_call_order l -> concat (_groupByPriority l) = l.
Proof.
  intros Hl. unfold _groupByPriority.
  destruct (push_all l [] Hl) as [H1 H2]; [done| |].
  { apply Forall_forall. intros; constructor. }
  by rewrite sort_groups_ascending.
Qed.

Lemma group_push_new e gs :
  Forall (fun p => (p < e_priority e)%Z) (map fst gs) ->
  group_push e gs = gs ++ [(e_priority e, [e])].
Proof.
  induction gs as [|[p g] gs IH]; simpl; [done|].
  rewrite Forall_cons. intros [Hp Hgs].
  destruct (Z.eqb_spec p (e_priority e)); [lia|]. by rewrite IH.
Qed.

Lemma push_all_distinct l : forall gs,
  ascending (map e_priority l) ->
  Forall (fun e => Forall (fun p => (p < e_priority e)%Z) (map fst gs)) l ->
  fold_left (fun gs e => group_push e gs) l gs
  = gs ++ map (fun e => (e_priority e, [e])) l.
Proof.
  induction l as [|e l IH]; intros gs Hl Hlt; simpl.
  - by rewrite app_nil_r.
  - destruct Hl as [He Hl]. apply Forall_cons in Hlt as [Hlt1 Hlt2].
    rewrite (group_push_new e gs Hlt1). rewrite IH; [|done|].
    + by rewrite <- app_assoc.
    + rewrite Forall_fmap in He. rewrite Forall_forall in He, Hlt2.
      apply Forall_forall. intros x Hx. rewrite map_app, Forall_app.
      split; [by apply Hlt2|]. constructor; [|done]. by apply He.
Qed.

Lemma ascending_priorities l :
  in_call_order l -> NoDup (map e_priority l) ->
  ascending (map e_priority l).
Proof.
  induction l as [|e l IH]; simpl; [done|]. intros [He Hl].
  rewrite NoDup_cons. intros [Hnot Hnd]. split; [|by apply IH].
  rewrite Forall_fmap. rewrite Forall_forall in He. apply Forall_forall.
  intros x Hx. simpl. destruct (He x Hx) as [?|[Heq _]]; [done|].
  exfalso. apply Hnot. rewrite Heq. apply list_elem_of_fmap. by exists x.
Qed.

(** With pairwise distinct priorities every group holds one handler. *)
Lemma groupByPriority_singletons l :
  in_call_order l -> NoDup (map e_priority l) ->
  _groupByPriority l = map (fun e => [e]) l.
Proof.
  intros Hl Hnd. pose proof (ascending_priorities l Hl Hnd) as Hasc.
  unfold _groupByPriority. rewrite push_all_distinct; [|done|].
  - simpl. rewrite sort_groups_ascending.
    + rewrite map_map. done.
    + by rewrite map_map.
  - apply Forall_forall. intros; constructor.
Qed.
End Grouping.

Section Emission.
Import HookSystem.

Lemma start_all_ids g : forall ctx,
  map fst (fst (fst (start_all g ctx))) = map e_id g.
Proof.
  induction g as [|e g IH]; intros ctx; simpl; [done|].
  specialize (IH (out_data (e_handler e ctx))).
  destruct (start_all g (out_data (e_handler e ctx))) as [[calls c] rs].
  simpl in *. by rewrite IH.
Qed.

Lemma run_sequential_free hookName g : forall ctx em,
  em_cancelled em = false ->
  let em' := run_sequential hookName false g ctx em in
  em_cancelled em' = false
  /\ map fst (em_calls em') = map fst (em_calls em) ++ map e_id g.
Proof.
  induction g as [|e g IH]; intros ctx em Hc; cbn zeta; simpl.
  - by rewrite app_nil_r.
  - rewrite Hc. simpl.
    match goal with
    | |- context [run_sequential _ _ _ ?c ?m] =>
        destruct (IH c m) as [H1 H2];
          [by destruct (out_result (e_handler e ctx))|]
    end.
    split; [done|]. rewrite H2.
    destruct (out_result (e_handler e ctx)); simpl;
      by rewrite map_app, <- app_assoc.
Qed.

Lemma run_group_free hookName par em g :
  em_cancelled em = false ->
  let em' := run_group hookName par false em g in
  em_cancelled em' = false
  /\ map fst (em_calls em') = map fst (em_calls em) ++ map e_id g.
Proof.
  intros Hc. cbn zeta. unfold run_group. rewrite andb_false_r.
  destruct par.
  - unfold run_parallel. pose proof (start_all_ids g (em_data em)) as Hs.
    destruct (start_all g (em_data em)) as [[calls c] rs]. simpl in *.
    rewrite Hc. split; [done|]. by rewrite map_app, Hs.
  - by apply run_sequential_free.
Qed.

Lemma run_groups_free hookName par groups : forall em,
  em_cancelled em = false ->
  let em' := fold_left (run_group hookName par false) groups em in
  em_cancelled em' = false
  /\ map fst (em_calls em')
     = map fst (em_calls em) ++ map e_id (concat groups).
Proof.
  induction groups as [|g groups IH]; intros em Hc; cbn zeta; simpl.
  - by rewrite app_nil_r.
  - destruct (run_group_free hookName par em g Hc) as [H1 H2].
    destruct (IH _ H1) as [H3 H4]. split; [done|].
    by rewrite H4, H2, map_app, app_assoc.
Qed.

Lemma run_singletons hookName l : forall em,
  em_data (fold_left (run_group hookName false false)
                     (map (fun e => [e]) l) em)
  = fold_left filter_step l (em_data em).
Proof.
  induction l as [|e l IH]; intros em; simpl; [done|].
  rewrite IH. f_equal. unfold run_group. rewrite andb_false_r.
  cbn [run_sequential]. rewrite andb_false_r. unfold filter_step.
  by destruct (out_result (e_handler e (em_data em))) as [[v|]|].
Qed.
End Emission.

(** An emission that is not cancelable calls every handler of the hook
    once, in the order of the list (ascending priority, then registration),
    whether the groups run in parallel or in sequence and whatever the
    handlers return or throw; it is never reported as cancelled. *)
Theorem hooks_emit_calls_every_handler :
  forall (cs : list HookCall) (hookName : string)
         (handlers : list HookSystem.Entry) (data : option value)
         (options : HookSystem.EmitOptions),
    let r := HookSystem.emit hookName data options (hook_calls cs) in
    HookSystem.hooks (hook_calls cs) !! hookName = Some handlers ->
    HookSystem.cancelable options <> Some true ->
    map fst (snd (fst r)) = map HookSystem.e_id handlers
    /\ HookSystem.cancelled (fst (fst r)) = false.
Proof.
  intros cs hookName handlers data options r E Hc.
  destruct (wf_hook_calls cs) as [Ho _ _ _].
  destruct (Ho _ _ E) as [Hne Hsorted].
  unfold r, HookSystem.emit. rewrite E.
  destruct handlers as [|e l]; [done|].
  assert (default false (HookSystem.cancelable options) = false) as ->
      by (by destruct (HookSystem.cancelable options) as [[|]|]).
  cbn [fst snd HookSystem.cancelled].
  match goal with
  | |- context [fold_left (HookSystem.run_group _ ?par _) ?gs ?em] =>
      destruct (run_groups_free hookName par gs em) as [H1 H2]; [done|]
  end.
  rewrite H2, H1, (groupByPriority_concat _ Hsorted). done.
Qed.

Lemma hooks_emit_calls_every_handler_witness :
  let cs := [DoRegister "hook" idle (priority_only 20);
             DoRegister "hook" (fun d => {| out_data := d;
                                            out_cancel := true;
                                            out_result := Throw boom |})
                        (priority_only 10);
             DoRegister "hook" idle (priority_only 10)] in
  let r := HookSystem.emit "hook" None
             {| HookSystem.parallel := None; HookSystem.cancelable := None |}
             (hook_calls cs) in
  map fst (snd (fst r)) = [1; 2; 0]%nat
  /\ HookSystem.cancelled (fst (fst r)) = false.
Proof.
  intros cs r.
  exact (hooks_emit_calls_every_handler cs "hook" _ None
           {| HookSystem.parallel := None; HookSystem.cancelable := None |}
           eq_refl ltac:(discriminate)).
Defined.

(** [filter] is a pipeline when the handlers of the hook have pairwise
    distinct priorities: each handler gets the value the one before it
    returned, and a handler that returns [undefined] or throws passes the
    value on unchanged. *)
Theorem hooks_filter_chains_distinct_priorities :
  forall (cs : list HookCall) (hookName : string)
         (handlers : list HookSystem.Entry) (initialData : option value),
    HookSystem.hooks (hook_calls cs) !! hookName = Some handlers ->
    NoDup (map HookSystem.e_priority handlers) ->
    fst (HookSystem.filter hookName initialData (hook_calls cs))
    = fold_left filter_step handlers (default VNull initialData).
Proof.
  intros cs hookName handlers initialData E Hnd.
  destruct (wf_hook_calls cs) as [Ho _ _ _].
  destruct (Ho _ _ E) as [Hne Hsorted].
  unfold HookSystem.filter, HookSystem.emit. rewrite E.
  destruct handlers as [|e l]; [done|].
  cbn [default HookSystem.parallel HookSystem.cancelable fst snd
       HookSystem.data].
  rewrite (groupByPriority_singletons _ Hsorted Hnd).
  by rewrite run_singletons.
Qed.

Lemma hooks_filter_chains_distinct_priorities_witness :
  let cs := [DoRegister "hook"
               (returning (fun d => Some (on_number (Z.mul 2) d)))
               (priority_only 20);
             DoRegister "hook"
               (returning (fun d => Some (on_number (Z.add 1) d)))
               (priority_only 10)] in
  fst (HookSystem.filter "hook" (Some (VNum 5)) (hook_calls cs)) = VNum 12.
Proof.
  intros cs.
  exact (hooks_filter_chains_distinct_priorities cs "hook" _ (Some (VNum 5))
           eq_refl
           ltac:(apply (bool_decide_unpack (NoDup [10%Z; 20%Z]));
                 vm_compute; exact I)).
Defined.

Section Removal.
Import HookSystem.

Lemma find_by_id l e :
  NoDup (map e_id l) -> e ∈ l ->
  List.find (fun x => Nat.eqb (e_id x) (e_id e)) l = Some e.
Proof.
  induction l as [|y l IH]; simpl; [by intros _ ?%elem_of_nil|].
  rewrite NoDup_cons, elem_of_cons. intros [Hy Hl] [->|Hin].
  - by rewrite Nat.eqb_refl.
  - destruct (Nat.eqb_spec (e_id y) (e_id e)) as [Heq|_]; [|by apply IH].
    exfalso. apply Hy. rewrite Heq. apply list_elem_of_fmap. by exists e.
Qed.

Lemma remove_first_by_id l id :
  NoDup (map e_id l) ->
  id ∉ map e_id (remove_first (fun x => Nat.eqb (e_id x) id) l).
Proof.
  induction l as [|y l IH]; simpl; [by intros _ ?%elem_of_nil|].
  rewrite NoDup_cons. intros [Hy Hl].
  destruct (Nat.eqb_spec (e_id y) id) as [<-|Hne]; [done|].
  simpl. rewrite elem_of_cons. intros [?|?]; [done|]. by apply IH.
Qed.

(** The handlers of every hook after [_unregister]. *)
Lemma handlers_of_unregister hookName handlerId h n :
  handlers_of (_unregister hookName handlerId h) n
  = if decide (n = hookName)
    then remove_first (fun x => Nat.eqb (e_id x) handlerId)
                      (handlers_of h n)
    else handlers_of h n.
Proof.
  unfold handlers_of, _unregister.
  destruct (hooks h !! hookName) as [l|] eqn:E.
  - cbn [hooks]. destruct (decide (n = hookName)) as [->|Hn].
    + rewrite E. simpl.
      destruct (remove_first _ l) as [|y rest] eqn:Er.
      * by rewrite lookup_delete_eq.
      * by rewrite lookup_insert_eq.
    + destruct (remove_first _ l) as [|y rest].
      * by rewrite lookup_delete_ne.
      * by rewrite lookup_insert_ne.
  - destruct (decide (n = hookName)) as [->|Hn]; [|done]. by rewrite E.
Qed.

(** The tracking lists after [_unregister] of an entry that is there. *)
Lemma pluginHooks_unregister hookName h e :
  hooks_wf h -> e ∈ handlers_of h hookName ->
  pluginHooks (_unregister hookName (e_id e) h)
  = match tracked_plugin (e_plugin e) with
    | Some p =>
        match pluginHooks h !! p with
        | Some l =>
            <[p := remove_first (tracks hookName (e_id e)) l]>
              (pluginHooks h)
        | None => pluginHooks h
        end
    | None => pluginHooks h
    end.
Proof.
  intros [_ Hd _ _]. unfold handlers_of, _unregister.
  destruct (hooks h !! hookName) as [l|] eqn:E; simpl;
    [|by intros ?%elem_of_nil].
  intros Hin. by rewrite (find_by_id l e (Hd _ _ E) Hin).
Qed.

(** The handlers of every hook after [register]. *)
Lemma handlers_of_register hookName handler options h n :
  hooks_wf h ->
  let entry := {| e_handler := handler;
                  e_priority := default 50%Z (o_priority options);
                  e_once := default false (o_once options);
                  e_plugin := o_plugin options;
                  e_id := nextSymbol h |} in
  exists pre post,
    handlers_of h hookName = pre ++ post
    /\ handlers_of (snd (register hookName handler options h)) n
       = if decide (n = hookName) then pre ++ entry :: post
         else handlers_of h n.
Proof.
  intros [Ho _ _ _] entry.
  assert (Hsorted : in_call_order (handlers_of h hookName)).
  { unfold handlers_of.
    destruct (hooks h !! hookName) as [l|] eqn:E; simpl; [|done].
    by apply (Ho hookName). }
  destruct (sort_append _ entry Hsorted) as (pre & post & E1 & E2 & _).
  exists pre, post. split; [done|]. unfold handlers_of at 1, register.
  cbn [snd hooks]. destruct (decide (n = hookName)) as [->|Hn].
  - rewrite lookup_insert_eq. simpl. exact E2.
  - by rewrite lookup_insert_ne.
Qed.

Lemma pluginHooks_register hookName handler options h :
  pluginHooks (snd (register hookName handler options h))
  = match tracked_plugin (o_plugin options) with
    | Some p =>
        <[p := getPluginHooks h p ++ [(hookName, nextSymbol h)]]>
          (pluginHooks h)
    | None => pluginHooks h
    end.
Proof. done. Qed.

Lemma handlers_fresh h n :
  hooks_wf h ->
  Forall (fun e => (e_id e < nextSymbol h)%nat) (handlers_of h n).
Proof.
  intros [_ _ Hf _]. unfold handlers_of.
  destruct (hooks h !! n) as [l|] eqn:E; simpl; [by apply (Hf n) | done].
Qed.

Lemma tracked_fresh h p :
  hooks_wf h ->
  Forall (fun x => (snd x < nextSymbol h)%nat) (getPluginHooks h p).
Proof.
  intros [_ _ _ Ht]. unfold getPluginHooks.
  destruct (pluginHooks h !! p) as [l|] eqn:E; simpl; [by apply (Ht p) | done].
Qed.

Lemma hooks_by_handlers (h h' : t) :
  hooks_wf h -> hooks_wf h' ->
  (forall n, handlers_of h' n = handlers_of h n) -> hooks h' = hooks h.
Proof.
  intros [Ho _ _ _] [Ho' _ _ _] H. apply map_eq. intros n.
  specialize (H n). unfold handlers_of in H.
  destruct (hooks h !! n) as [l|] eqn:E, (hooks h' !! n) as [l'|] eqn:E';
    simpl in H; subst; try done.
  - by destruct (Ho _ _ E).
  - by destruct (Ho' _ _ E').
Qed.

(** Calling the function that [register] returned undoes the registration:
    the handler lists of all hooks and the hooks tracked for every plugin
    are what they were before [register]. *)
Theorem hooks_register_then_unregister :
  forall (cs : list HookCall) (hookName : string) (handler : Handler)
         (options : HookSystem.Options),
    let h := hook_calls cs in
    let r := HookSystem.register hookName handler options h in
    let h' := HookSystem._unregister hookName (fst r) (snd r) in
    HookSystem.hooks h' = HookSystem.hooks h
    /\ forall p,
        HookSystem.getPluginHooks h' p = HookSystem.getPluginHooks h p.
Proof.
  intros cs hookName handler options h r h'.
  pose proof (wf_hook_calls cs) as Hwf. fold h in Hwf.
  pose proof (wf_register hookName handler options h Hwf) as Hwf1.
  fold r in Hwf1.
  pose proof (wf_unregister hookName (fst r) (snd r) Hwf1) as Hwf2.
  fold h' in Hwf2.
  set (entry := {| e_handler := handler;
                   e_priority := default 50%Z (o_priority options);
                   e_once := default false (o_once options);
                   e_plugin := o_plugin options;
                   e_id := nextSymbol h |}).
  assert (Hid : fst r = e_id entry) by done.
  assert (Hno : forall l,
             Forall (fun e => (e_id e < nextSymbol h)%nat) l ->
             Forall (fun y => Nat.eqb (e_id y) (e_id entry) = false) l).
  { intros l Hl. eapply Forall_impl; [exact Hl|]. simpl. intros y Hy.
    apply Nat.eqb_neq. lia. }
  split.
  - apply hooks_by_handlers; [done | done |]. intros n. unfold h'.
    rewrite handlers_of_unregister.
    destruct (handlers_of_register hookName handler options h n Hwf)
      as (pre & post & E1 & E2).
    fold r in E2. rewrite E2.
    destruct (decide (n = hookName)) as [->|Hn]; [|done].
    rewrite E1, Hid. pose proof (handlers_fresh h hookName Hwf) as Hf.
    rewrite E1 in Hf. apply Forall_app in Hf as [Hf _].
    apply remove_first_mid; [by apply Hno|]. apply Nat.eqb_refl.
  - intros p. unfold h'. rewrite Hid.
    assert (Hin : entry ∈ handlers_of (snd r) hookName).
    { destruct (handlers_of_register hookName handler options h hookName Hwf)
        as (pre & post & _ & E2).
      fold r in E2. rewrite E2, decide_True by done.
      apply elem_of_app. right. left. }
    unfold getPluginHooks.
    rewrite (pluginHooks_unregister hookName (snd r) entry Hwf1 Hin).
    unfold r. rewrite pluginHooks_register. cbn [e_plugin entry].
    destruct (tracked_plugin (o_plugin options)) as [q|]; [|done].
    rewrite lookup_insert_eq, insert_insert_eq.
    rewrite remove_first_mid with (post := []).
    + rewrite app_nil_r. destruct (decide (p = q)) as [->|Hp].
      * by rewrite lookup_insert_eq.
      * by rewrite lookup_insert_ne.
    + eapply Forall_impl; [exact (tracked_fresh h q Hwf)|].
      intros [n' i] Hi. unfold tracks. simpl in *.
      apply andb_false_iff. right. apply Nat.eqb_neq. lia.
    + unfold tracks. simpl. by rewrite String.eqb_refl, Nat.eqb_refl.
Qed.
End Removal.

Section PluginCleanup.
Import HookSystem.

Lemma register_elem hookName handler options h n x :
  hooks_wf h ->
  x ∈ handlers_of (snd (register hookName handler options h)) n
  <-> x ∈ handlers_of h n
      \/ (n = hookName
          /\ x = {| e_handler := handler;
                    e_priority := default 50%Z (o_priority options);
                    e_once := default false (o_once options);
                    e_plugin := o_plugin options;
                    e_id := nextSymbol h |}).
Proof.
  intros Hwf.
  destruct (handlers_of_register hookName handler options h n Hwf)
    as (pre & post & E1 & ->).
  destruct (decide (n = hookName)) as [->|Hn].
  - rewrite E1, !elem_of_app, elem_of_cons. naive_solver.
  - naive_solver.
Qed.

Lemma handlers_distinct h n :
  hooks_wf h -> NoDup (map e_id (handlers_of h n)).
Proof.
  intros [_ Hd _ _]. unfold handlers_of.
  destruct (hooks h !! n) as [l|] eqn:E; simpl; [by apply (Hd n)|].
  constructor.
Qed.

Lemma tracked_plugin_Some p : p <> "" -> tracked_plugin (Some p) = Some p.
Proof.
  intros Hp. unfold tracked_plugin.
  by destruct (String.eqb_spec p "").
Qed.

(** [unregisterPlugin] does not remove all hooks of a plugin: when a
    plugin has registered two hooks, the first is unregistered and the
    second stays registered, while the plugin's tracking list is dropped,
    so that a later [unregisterPlugin] does not remove it either. *)
Theorem hooks_unregisterPlugin_leaves_second_hook :
  forall (cs : list HookCall) (pluginId name1 name2 : string)
         (handler1 handler2 : Handler)
         (options1 options2 : HookSystem.Options),
    let h := hook_calls cs in
    let r1 := HookSystem.register name1 handler1 options1 h in
    let r2 := HookSystem.register name2 handler2 options2 (snd r1) in
    let h' := HookSystem.unregisterPlugin pluginId (snd r2) in
    pluginId <> "" ->
    HookSystem.o_plugin options1 = Some pluginId ->
    HookSystem.o_plugin options2 = Some pluginId ->
    HookSystem.getPluginHooks h pluginId = [] ->
    (fst r1 ∉ handler_ids h' name1)
    /\ (fst r2 ∈ handler_ids h' name2)
    /\ HookSystem.getPluginHooks h' pluginId = [].
Proof.
  intros cs pluginId name1 name2 handler1 handler2 options1 options2
    h r1 r2 h' Hp Ho1 Ho2 Hnone.
  pose proof (wf_hook_calls cs) as Hwf. fold h in Hwf.
  pose proof (wf_register name1 handler1 options1 h Hwf) as Hwf1.
  fold r1 in Hwf1.
  pose proof (wf_register name2 handler2 options2 (snd r1) Hwf1) as Hwf2.
  fold r2 in Hwf2.
  set (entry1 := {| e_handler := handler1;
                    e_priority := default 50%Z (o_priority options1);
                    e_once := default false (o_once options1);
                    e_plugin := o_plugin options1;
                    e_id := nextSymbol h |}).
  set (entry2 := {| e_handler := handler2;
                    e_priority := default 50%Z (o_priority options2);
                    e_once := default false (o_once options2);
                    e_plugin := o_plugin options2;
                    e_id := nextSymbol (snd r1) |}).
  assert (Hid1 : fst r1 = e_id entry1) by done.
  assert (Hid2 : fst r2 = e_id entry2) by done.
  assert (Hne : e_id entry2 <> e_id entry1) by (simpl; lia).
  assert (Hin1 : entry1 ∈ handlers_of (snd r2) name1).
  { apply register_elem; [done|]. left. apply register_elem; [done|].
    right. done. }
  assert (Hin2 : entry2 ∈ handlers_of (snd r2) name2).
  { apply register_elem; [done|]. right. done. }
  assert (Hp1 : getPluginHooks (snd r1) pluginId = [(name1, e_id entry1)]).
  { unfold getPluginHooks, r1. rewrite pluginHooks_register, Ho1.
    rewrite (tracked_plugin_Some _ Hp), lookup_insert_eq, Hnone. done. }
  assert (Hp2 : pluginHooks (snd r2)
                = <[pluginId := [(name1, e_id entry1); (name2, e_id entry2)]]>
                    (pluginHooks (snd r1))).
  { unfold r2. rewrite pluginHooks_register, Ho2.
    by rewrite (tracked_plugin_Some _ Hp), Hp1. }
  set (h3 := _unregister name1 (e_id entry1) (snd r2)).
  assert (Hp3 : pluginHooks h3 !! pluginId = Some [(name2, e_id entry2)]).
  { unfold h3. rewrite (pluginHooks_unregister name1 (snd r2) entry1 Hwf2 Hin1).
    cbn [e_plugin entry1]. rewrite Ho1, (tracked_plugin_Some _ Hp).
    rewrite Hp2, lookup_insert_eq, lookup_insert_eq.
    cbn [remove_first]. unfold tracks at 1. cbn [fst snd].
    by rewrite String.eqb_refl, Nat.eqb_refl. }
  assert (Hh' : h' = {| hooks := hooks h3;
                        pluginHooks := delete pluginId (pluginHooks h3);
                        nextSymbol := nextSymbol h3 |}).
  { unfold h', unregisterPlugin. rewrite Hp2, lookup_insert_eq.
    cbn [length forEach_tracked]. rewrite Hp2, lookup_insert_eq.
    cbn [lookup list_lookup]. fold h3. by rewrite Hp3. }
  assert (Hh : forall n, handlers_of h' n = handlers_of h3 n)
    by (by rewrite Hh').
  unfold handler_ids. rewrite !Hh. unfold h3 at 1 2.
  rewrite !handlers_of_unregister, decide_True by done.
  split; [|split].
  - rewrite Hid1. apply remove_first_by_id. by apply handlers_distinct.
  - rewrite Hid2. apply list_elem_of_fmap. exists entry2. split; [done|].
    destruct (decide (name2 = name1)) as [->|Hn]; [|done].
    apply remove_first_keeps; [done|]. by apply Nat.eqb_neq.
  - rewrite Hh'. unfold getPluginHooks. cbn [pluginHooks].
    by rewrite lookup_delete_eq.
Qed.
End PluginCleanup.

Lemma hooks_unregisterPlugin_leaves_second_hook_witness :
  let by_p := {| HookSystem.o_priority := None; HookSystem.o_once := None;
                 HookSystem.o_plugin := Some "p" |} in
  let r1 := HookSystem.register "load" idle by_p (hook_calls []) in
  let r2 := HookSystem.register "save" idle by_p (snd r1) in
  let h' := HookSystem.unregisterPlugin "p" (snd r2) in
  handler_ids h' "load" = [] /\ handler_ids h' "save" = [1%nat]
  /\ ((fst r1 ∉ handler_ids h' "load")
      /\ (fst r2 ∈ handler_ids h' "save")
      /\ HookSystem.getPluginHooks h' "p" = []).
Proof.
  intros by_p r1 r2 h'. split; [reflexivity|]. split; [reflexivity|].
  exact (hooks_unregisterPlugin_leaves_second_hook [] "p" "load" "save"
           idle idle by_p by_p ltac:(discriminate) eq_refl eq_refl eq_refl).
Defined.

Section OnceHandlers.
Import HookSystem.

Lemma filter_keeps_all {A} (p : A -> bool) l :
  Forall (fun x => p x = true) l -> List.filter p l = l.
Proof.
  induction 1 as [|x l Hx Hl IH]; simpl; [done|]. by rewrite Hx, IH.
Qed.

Lemma filter_twice {A} (f g : A -> bool) l :
  List.filter f (List.filter g l) = List.filter (fun x => g x && f x) l.
Proof.
  induction l as [|x l IH]; simpl; [done|].
  destruct (g x); simpl; [|done]. destruct (f x); by rewrite IH.
Qed.

Lemma remove_first_filter l i :
  NoDup (map e_id l) ->
  remove_first (fun x => Nat.eqb (e_id x) i) l
  = List.filter (fun x => negb (Nat.eqb (e_id x) i)) l.
Proof.
  induction l as [|y l IH]; simpl; [done|].
  rewrite NoDup_cons. intros [Hy Hl].
  destruct (Nat.eqb_spec (e_id y) i) as [<-|Hne]; simpl.
  - symmetry. apply filter_keeps_all. apply Forall_forall. intros x Hx.
    apply negb_true_iff, Nat.eqb_neq. intros Heq. apply Hy. rewrite <- Heq.
    apply list_elem_of_fmap. by exists x.
  - by rewrite IH.
Qed.

Lemma remove_ids ids : forall l,
  NoDup (map e_id l) ->
  fold_left (fun l i => remove_first (fun x => Nat.eqb (e_id x) i) l) ids l
  = List.filter (fun x => negb (existsb (Nat.eqb (e_id x)) ids)) l.
Proof.
  induction ids as [|i ids IH]; intros l Hl; simpl.
  - symmetry. apply filter_keeps_all. by apply Forall_forall.
  - rewrite IH by by apply remove_first_NoDup.
    rewrite remove_first_filter by done. rewrite filter_twice.
    apply List.filter_ext. intros x. by rewrite negb_orb.
Qed.

Lemma once_ids l :
  NoDup (map e_id l) ->
  List.filter
    (fun x => negb (existsb (Nat.eqb (e_id x))
                            (map e_id (List.filter e_once l)))) l
  = List.filter (fun x => negb (e_once x)) l.
Proof.
  intros Hl. apply List.filter_ext_in. intros x Hx%list_elem_of_In.
  f_equal. destruct (e_once x) eqn:Eo.
  - apply existsb_eqb. apply list_elem_of_fmap. exists x. split; [done|].
    apply list_elem_of_In, List.filter_In. split; [|done].
    by apply list_elem_of_In.
  - apply not_true_is_false. intros H%existsb_eqb.
    apply list_elem_of_fmap in H as (y & Hid & Hy).
    apply list_elem_of_In, List.filter_In in Hy as [Hy Hoy].
    apply list_elem_of_In in Hy.
    pose proof (find_by_id l x Hl Hx) as Fx.
    pose proof (find_by_id l y Hl Hy) as Fy.
    rewrite <- Hid in Fy. congruence.
Qed.

Lemma unregister_ids hookName ids n : forall h,
  handlers_of
    (fold_left (fun h x => _unregister (fst x) (snd x) h)
               (map (fun i => (hookName, i)) ids) h) n
  = if decide (n = hookName)
    then fold_left
           (fun l i => remove_first (fun x => Nat.eqb (e_id x) i) l)
           ids (handlers_of h n)
    else handlers_of h n.
Proof.
  induction ids as [|i ids IH]; intros h; simpl.
  - by destruct (decide (n = hookName)).
  - rewrite IH, handlers_of_unregister.
    by destruct (decide (n = hookName)).
Qed.

Lemma run_parallel_groups hookName groups : forall em,
  em_remove (fold_left (run_group hookName true false) groups em)
  = em_remove em
    ++ map (fun i => (hookName, i))
           (map e_id (List.filter e_once (concat groups))).
Proof.
  induction groups as [|g groups IH]; intros em; simpl.
  - by rewrite app_nil_r.
  - rewrite IH. unfold run_group. rewrite andb_false_r.
    unfold run_parallel.
    destruct (start_all g (em_data em)) as [[calls c] rs]. cbn [em_remove].
      rewrite List.filter_app, !map_app, !map_map, app_assoc. done.
Qed.
End OnceHandlers.

(** After an emission that runs the groups in parallel (the default, and
    what [action] does) and is not cancelable, the hook keeps exactly its
    handlers that were not registered with [once], in their order; a
    [once] handler is removed whether it returned or threw. The handlers
    of the other hooks stay. *)
Theorem hooks_once_handlers_removed :
  forall (cs : list HookCall) (hookName : string) (data : option value)
         (options : HookSystem.EmitOptions) (n : string),
    let h := hook_calls cs in
    let h' := snd (HookSystem.emit hookName data options h) in
    HookSystem.parallel options <> Some false ->
    HookSystem.cancelable options <> Some true ->
    handlers_of h' n
    = if decide (n = hookName)
      then List.filter (fun e => negb (HookSystem.e_once e)) (handlers_of h n)
      else handlers_of h n.
Proof.
  intros cs hookName data options n h h' Hpar Hc.
  pose proof (wf_hook_calls cs) as Hwf. fold h in Hwf.
  pose proof (handlers_distinct h hookName Hwf) as Hnd.
  destruct Hwf as [Ho _ _ _].
  unfold h', HookSystem.emit. unfold handlers_of in Hnd |- * at 2 3.
  destruct (HookSystem.hooks h !! hookName) as [handlers|] eqn:E.
  - destruct (Ho _ _ E) as [Hne Hsorted].
    destruct handlers as [|e l]; [done|]. cbn [snd].
    assert (default true (HookSystem.parallel options) = true) as ->
        by (by destruct (HookSystem.parallel options) as [[|]|]).
    assert (default false (HookSystem.cancelable options) = false) as ->
        by (by destruct (HookSystem.cancelable options) as [[|]|]).
    rewrite run_parallel_groups, (groupByPriority_concat _ Hsorted).
    cbn [HookSystem.em_remove app]. rewrite unregister_ids.
    destruct (decide (n = hookName)) as [->|Hn]; [|done].
    unfold handlers_of. rewrite E. cbn [default].
    cbn [default] in Hnd. rewrite remove_ids by done. by apply once_ids.
  - cbn [snd]. destruct (decide (n = hookName)) as [->|Hn]; [|done].
    unfold handlers_of. by rewrite E.
Qed.

Lemma hooks_once_handlers_removed_witness :
  let cs := [DoRegister "hook" idle
               {| HookSystem.o_priority := None;
                  HookSystem.o_once := Some true;
                  HookSystem.o_plugin := None |};
             DoRegister "hook" idle (priority_only 10)] in
  handler_ids (hook_calls cs) "hook" = [1; 0]%nat
  /\ handlers_of
       (snd (HookSystem.emit "hook" None
               {| HookSystem.parallel := None; HookSystem.cancelable := None |}
               (hook_calls cs))) "hook"
     = List.filter (fun e => negb (HookSystem.e_once e))
                   (handlers_of (hook_calls cs) "hook").
Proof.
  intros cs. split; [reflexivity|].
  exact (hooks_once_handlers_removed cs "hook" None
           {| HookSystem.parallel := None; HookSystem.cancelable := None |}
           "hook" ltac:(discriminate) ltac:(discriminate)).
Defined.
